(** * A shallow embedding of the backup engine of [localai_cli.py]

    The export and import commands of [LocalAICLI] are modelled as programs
    in a small state and exception monad over the working directory, the
    log of commands and messages they issue, and Python's exceptions.  The
    manifest is a Python [dict] written with [json.dump(.., indent=2)] and
    read back with [json.load]; both are modelled at the level of the
    code points of Python strings, with floats as IEEE 754 binary64 bit
    patterns. *)

From Stdlib Require Import String Ascii List ZArith Bool Lia Permutation.
From Stdlib Require Import DecimalPos DecimalZ.
From Stdlib Require DecimalFacts.
Import ListNotations.
Local Open Scope list_scope.
Set Warnings "-register-all".

(* ------------------------------------------------------------------ *)
(** ** Characters *)

Definition ch_quote : ascii := Eval compute in ascii_of_nat 34.
Definition ch_bslash : ascii := Eval compute in ascii_of_nat 92.
Definition ch_nl : ascii := Eval compute in ascii_of_nat 10.
Definition ch_space : ascii := Eval compute in ascii_of_nat 32.

Fixpoint strip_prefix (p s : list ascii) : option (list ascii) :=
  match p, s with
  | [], _ => Some s
  | a :: p', b :: s' => if Ascii.eqb a b then strip_prefix p' s' else None
  | _ :: _, [] => None
  end.

(* ------------------------------------------------------------------ *)
(** ** Python strings, JSON values and the [json] module *)

Module Json.

Local Open Scope Z_scope.

(** A Python [str]: its code points. *)
Definition ustr := list Z.

Fixpoint ustr_eqb (a b : ustr) : bool :=
  match a, b with
  | [], [] => true
  | x :: a', y :: b' => Z.eqb x y && ustr_eqb a' b'
  | _, _ => false
  end.

(** The bytes of a text held in a file or printed by a command. *)
Definition bytes (s : string) : list Z :=
  map (fun c => Z.of_nat (nat_of_ascii c)) (list_ascii_of_string s).

Definition string_of_bytes (l : list Z) : string :=
  string_of_list_ascii (map (fun b => ascii_of_N (Z.to_N b)) l).

(** The code points of an ASCII literal of the source. *)
Definition lit (s : string) : ustr := bytes s.

(** ** UTF-8 *)

Definition is_cont (b : Z) : bool := (128 <=? b) && (b <=? 191).

(** The code point a strict UTF-8 decoder reads at the head of [s]: no
    overlong form, no surrogate, nothing above [U+10FFFF]. *)
Definition utf8_char (s : list Z) : option (Z * list Z) :=
  match s with
  | [] => None
  | b0 :: s1 =>
      if b0 <? 128 then Some (b0, s1)
      else if (194 <=? b0) && (b0 <=? 223) then
        match s1 with
        | b1 :: s2 => if is_cont b1 then Some ((b0 - 192) * 64 + (b1 - 128), s2) else None
        | [] => None
        end
      else if (224 <=? b0) && (b0 <=? 239) then
        match s1 with
        | b1 :: b2 :: s3 =>
            let lo := if b0 =? 224 then 160 else 128 in
            let hi := if b0 =? 237 then 159 else 191 in
            if (lo <=? b1) && (b1 <=? hi) && is_cont b2
            then Some ((b0 - 224) * 4096 + (b1 - 128) * 64 + (b2 - 128), s3) else None
        | _ => None
        end
      else if (240 <=? b0) && (b0 <=? 244) then
        match s1 with
        | b1 :: b2 :: b3 :: s4 =>
            let lo := if b0 =? 240 then 144 else 128 in
            let hi := if b0 =? 244 then 143 else 191 in
            if (lo <=? b1) && (b1 <=? hi) && is_cont b2 && is_cont b3
            then Some ((b0 - 240) * 262144 + (b1 - 128) * 4096 + (b2 - 128) * 64 + (b3 - 128), s4)
            else None
        | _ => None
        end
      else None
  end.

Fixpoint utf8_dec (fuel : nat) (s : list Z) : option ustr :=
  match s with
  | [] => Some []
  | _ :: _ =>
      match fuel with
      | O => None
      | S f =>
          match utf8_char s with
          | Some (c, r) => option_map (cons c) (utf8_dec f r)
          | None => None
          end
      end
  end.

(** [bytes.decode("utf-8")] ([None]: [UnicodeDecodeError]); every step
    takes a byte or more. *)
Definition utf8_decode (txt : string) : option ustr :=
  utf8_dec (String.length txt) (bytes txt).

Fixpoint fsdec (fuel : nat) (s : list Z) : ustr :=
  match s with
  | [] => []
  | b :: s1 =>
      match fuel with
      | O => []
      | S f =>
          match utf8_char s with
          | Some (c, r) => c :: fsdec f r
          | None => (56320 + b) :: fsdec f s1
          end
      end
  end.

(** [os.fsdecode]: UTF-8 with the [surrogateescape] handler, how Python
    decodes its command line; a byte that starts no valid sequence becomes
    the lone surrogate [U+DC00 + byte]. *)
Definition fsdecode (txt : string) : ustr := fsdec (String.length txt) (bytes txt).

(** One code point in UTF-8 ([None] for a surrogate: the strict handler
    raises [UnicodeEncodeError]). *)
Definition utf8_enc_char (c : Z) : option (list Z) :=
  if c <? 0 then None
  else if c <? 128 then Some [c]
  else if c <? 2048 then Some [192 + c / 64; 128 + c mod 64]
  else if (55296 <=? c) && (c <=? 57343) then None
  else if c <? 65536 then Some [224 + c / 4096; 128 + (c / 64) mod 64; 128 + c mod 64]
  else if c <? 1114112 then
    Some [240 + c / 262144; 128 + (c / 4096) mod 64; 128 + (c / 64) mod 64; 128 + c mod 64]
  else None.

Fixpoint utf8_enc (s : ustr) : option (list Z) :=
  match s with
  | [] => Some []
  | c :: s' =>
      match utf8_enc_char c, utf8_enc s' with
      | Some b, Some r => Some (b ++ r)
      | _, _ => None
      end
  end.

(** [str.encode("utf-8")] *)
Definition utf8_encode (s : ustr) : option string := option_map string_of_bytes (utf8_enc s).

(** ** Integers *)

Definition digit_uint (d : Z) (u : Decimal.uint) : Decimal.uint :=
  match d with
  | 0 => Decimal.D0 u | 1 => Decimal.D1 u | 2 => Decimal.D2 u | 3 => Decimal.D3 u
  | 4 => Decimal.D4 u | 5 => Decimal.D5 u | 6 => Decimal.D6 u | 7 => Decimal.D7 u
  | 8 => Decimal.D8 u | _ => Decimal.D9 u
  end%Z.

Fixpoint uint_digits (u : Decimal.uint) : ustr :=
  match u with
  | Decimal.Nil => []
  | Decimal.D0 u => 48 :: uint_digits u
  | Decimal.D1 u => 49 :: uint_digits u
  | Decimal.D2 u => 50 :: uint_digits u
  | Decimal.D3 u => 51 :: uint_digits u
  | Decimal.D4 u => 52 :: uint_digits u
  | Decimal.D5 u => 53 :: uint_digits u
  | Decimal.D6 u => 54 :: uint_digits u
  | Decimal.D7 u => 55 :: uint_digits u
  | Decimal.D8 u => 56 :: uint_digits u
  | Decimal.D9 u => 57 :: uint_digits u
  end%Z.

(** [int.__repr__] *)
Definition int_repr (z : Z) : ustr :=
  match z with
  | Z0 => [48]
  | Zpos p => uint_digits (Pos.to_uint p)
  | Zneg p => 45 :: uint_digits (Pos.to_uint p)
  end%Z.

(** [int(s)] refuses more than [sys.get_int_max_str_digits()] digits. *)
Definition max_str_digits : nat := 4300%nat.

Definition int_ok (z : Z) : bool :=
  match z with
  | Z0 => true
  | Zpos p | Zneg p => Nat.leb (Decimal.nb_digits (Pos.to_uint p)) max_str_digits
  end.

(** ** Floats: IEEE 754 binary64, as their 64-bit patterns *)

Definition f_sign (f : Z) : bool := Z.testbit f 63.
Definition f_exp (f : Z) : Z := Z.land (Z.shiftr f 52) 2047.
Definition f_frac (f : Z) : Z := Z.land f (Z.ones 52).

Definition f_is_nan (f : Z) : bool := (f_exp f =? 2047) && negb (f_frac f =? 0).
Definition f_is_inf (f : Z) : bool := (f_exp f =? 2047) && (f_frac f =? 0).
Definition f_is_zero (f : Z) : bool := (f_exp f =? 0) && (f_frac f =? 0).

(** A finite float is [(-1)^sign * f_mant * 2^f_e2]. *)
Definition f_mant (f : Z) : Z := if f_exp f =? 0 then f_frac f else f_frac f + 2 ^ 52.
Definition f_e2 (f : Z) : Z := if f_exp f =? 0 then -1074 else f_exp f - 1075.

Definition sign_bit (neg : bool) : Z := if neg then Z.shiftl 1 63 else 0.

(** [float("nan")] as [json] builds it, and the infinities. *)
Definition nan_bits : Z := 0x7FF8000000000000.
Definition inf_bits (neg : bool) : Z := Z.lor (sign_bit neg) (Z.shiftl 2047 52).

(** Rounding [x = (q + e) / 2^s] to the nearest float, ties to even, where
    [2^54 <= q < 2^56], [0 <= e < 1] and [sticky] tells whether [e > 0]. *)
Definition round_bin64 (neg : bool) (q s : Z) (sticky : bool) : Z :=
  let e := Z.log2 q - s in
  let ulp := Z.max (e - 52) (-1074) in
  let t := s + ulp in
  let mant := Z.shiftr q t in
  let rem := q - Z.shiftl mant t in
  let half := Z.shiftl 1 (t - 1) in
  let up := (half <? rem) || ((rem =? half) && (sticky || Z.odd mant)) in
  let mant1 := if up then mant + 1 else mant in
  let '(mant2, ulp2) := if mant1 =? 2 ^ 53 then (2 ^ 52, ulp + 1) else (mant1, ulp) in
  let mag := if mant2 <? 2 ^ 52 then mant2
             else if 2047 <=? ulp2 + 1075 then Z.shiftl 2047 52
             else Z.lor (Z.shiftl (ulp2 + 1075) 52) (mant2 - 2 ^ 52) in
  Z.lor (sign_bit neg) mag.

(** The number of decimal digits of a positive integer. *)
Definition dec_digits (m : Z) : Z := Z.of_nat (length (int_repr m)).

(** [float(s)] for the decimal [(-1)^neg * m * 10^e10]: correctly rounded
    ([_Py_dg_strtod]), [inf] on overflow, a zero on underflow.  Above
    [10^309] or below [10^-324] the result is known without computing. *)
Definition strtod (neg : bool) (m e10 : Z) : Z :=
  if m =? 0 then sign_bit neg
  else if 309 <? e10 then inf_bits neg
  else if dec_digits m + e10 <=? -324 then sign_bit neg
  else
    let num := if 0 <=? e10 then m * 10 ^ e10 else m in
    let den := if 0 <=? e10 then 1 else 10 ^ (- e10) in
    let s := 55 - (Z.log2 num - Z.log2 den) in
    let a := if 0 <=? s then num * 2 ^ s else num in
    let b := if 0 <=? s then den else den * 2 ^ (- s) in
    round_bin64 neg (a / b) s (negb (a mod b =? 0)).

(** [10^k <= num / den] *)
Definition pow10_le (num den k : Z) : bool :=
  if 0 <=? k then 10 ^ k * den <=? num else den <=? num * 10 ^ (- k).

Fixpoint dec_exp_up (fuel : nat) (num den k : Z) : Z :=
  match fuel with
  | O => k
  | S f => if pow10_le num den (k + 1) then dec_exp_up f num den (k + 1) else k
  end.

(** [floor(log10(num / den))], from [log10 2 ~ 0.30103] and a check of
    the powers of ten around it. *)
Definition dec_exp (num den : Z) : Z :=
  dec_exp_up 6 num den ((Z.log2 num - Z.log2 den) * 30103 / 100000 - 3).

(** [x / 10^j] as a fraction, for [x = num / den]. *)
Definition scaled (num den j : Z) : Z * Z :=
  if 0 <=? j then (num, den * 10 ^ j) else (num * 10 ^ (- j), den).

(** The shortest digit string [c] with [float(c * 10^j) == x] (the [repr]
    of [_Py_dg_dtoa] in mode 0): for [k = 1, 2, ..] digits, the [k]-digit
    numbers just below and above [x]; when both read back, the nearer,
    ties to even.  [bits] is the pattern of [x = num / den > 0], whose
    first digit has the weight [10^k10]. *)
Fixpoint shortest (fuel : nat) (k bits num den k10 : Z) : Z * Z :=
  let j := k10 - k + 1 in
  let '(n', d') := scaled num den j in
  let lo := n' / d' in
  let hi := lo + 1 in
  let okl := strtod false lo j =? bits in
  let okh := strtod false hi j =? bits in
  let twice := 2 * (n' mod d') in
  let nearer := if twice <? d' then lo else if d' <? twice then hi
                else if Z.even lo then lo else hi in
  match fuel with
  | O => (nearer, j)
  | S f =>
      if okl && okh then (nearer, j)
      else if okl then (lo, j)
      else if okh then (hi, j)
      else shortest f (k + 1) bits num den k10
  end.

Fixpoint strip_zeros (fuel : nat) (c j : Z) : Z * Z :=
  match fuel with
  | O => (c, j)
  | S f => if (0 <? c) && (c mod 10 =? 0) then strip_zeros f (c / 10) (j + 1) else (c, j)
  end.

(** [format_float_short] for [repr]: the digits [ds] with the decimal point
    after [decpt] of them; an exponent ([e+XX], two digits at least) when
    [decpt <= -4] or [decpt > 16], and [.0] after an integral value. *)
Definition format_repr (neg : bool) (ds : ustr) (decpt : Z) : ustr :=
  let n := Z.of_nat (length ds) in
  (if neg then [45] else [])
  ++ (if (decpt <=? -4) || (16 <? decpt) then
        let e := decpt - 1 in
        let mant := match ds with
                    | d :: [] => [d]
                    | d :: rest => d :: 46 :: rest
                    | [] => []
                    end in
        mant ++ [101; if e <? 0 then 45 else 43]
             ++ (if Z.abs e <? 10 then [48] else []) ++ int_repr (Z.abs e)
      else if decpt <=? 0 then
        [48; 46] ++ repeat 48 (Z.to_nat (- decpt)) ++ ds
      else if decpt <? n then
        firstn (Z.to_nat decpt) ds ++ 46 :: skipn (Z.to_nat decpt) ds
      else ds ++ repeat 48 (Z.to_nat (decpt - n)) ++ [46; 48]).

(** [float.__repr__] of a finite float. *)
Definition float_repr (f : Z) : ustr :=
  let neg := f_sign f in
  if f_is_zero f then format_repr neg [48] 1
  else
    let bits := Z.land f (Z.ones 63) in
    let m := f_mant f in
    let e2 := f_e2 f in
    let num := if 0 <=? e2 then m * 2 ^ e2 else m in
    let den := if 0 <=? e2 then 1 else 2 ^ (- e2) in
    let '(c, j) := shortest 16 1 bits num den (dec_exp num den) in
    let '(c', j') := strip_zeros 20 c j in
    let ds := int_repr c' in
    format_repr neg ds (Z.of_nat (length ds) + j').

(** [str(x)] of a float. *)
Definition float_str (f : Z) : ustr :=
  if f_is_nan f then lit "nan"
  else if f_is_inf f then (if f_sign f then lit "-inf" else lit "inf")
  else float_repr f.

(** [floatstr] of [json.encoder]: the text [json.dump] writes for a float. *)
Definition float_text (f : Z) : ustr :=
  if f_is_nan f then lit "NaN"
  else if f_is_inf f then (if f_sign f then lit "-Infinity" else lit "Infinity")
  else float_repr f.

(** ** Python values that a manifest can hold

    [pykey] are the hashable values that can be dict keys; [pyval] are the
    values [json.load] produces. *)

Inductive pykey : Type :=
| KNone
| KBool (b : bool)
| KInt (z : Z)
| KFloat (f : Z)
| KStr (s : ustr).

Inductive pyval : Type :=
| PNone
| PBool (b : bool)
| PInt (z : Z)
| PFloat (f : Z)
| PStr (s : ustr)
| PList (xs : list pyval)
| PDict (kvs : list (pykey * pyval)).

(** [==] between a float and an integer: the exact values agree. *)
Definition float_eq_int (f z : Z) : bool :=
  negb (f_exp f =? 2047) &&
  (let m := if f_sign f then - f_mant f else f_mant f in
   if 0 <=? f_e2 f then m * 2 ^ f_e2 f =? z else m =? z * 2 ^ (- f_e2 f)).

(** Dict key equality ([is] or [==]): [True == 1 == 1.0], [0.0 == -0.0];
    a NaN key is found again only as the same object, and the one NaN the
    program meets is the object [json] returns for every [NaN]. *)
Definition key_eqb (a b : pykey) : bool :=
  match a, b with
  | KNone, KNone => true
  | KBool x, KBool y => Bool.eqb x y
  | KInt x, KInt y => Z.eqb x y
  | KBool x, KInt y | KInt y, KBool x => Z.eqb y (if x then 1 else 0)
  | KFloat x, KFloat y =>
      (f_is_nan x && f_is_nan y)
      || (negb (f_is_nan x) && negb (f_is_nan y)
          && ((x =? y) || (f_is_zero x && f_is_zero y)))
  | KFloat x, KInt y | KInt y, KFloat x => float_eq_int x y
  | KFloat x, KBool y | KBool y, KFloat x => float_eq_int x (if y then 1 else 0)
  | KStr x, KStr y => ustr_eqb x y
  | _, _ => false
  end.

(** [d[k] = v]: an existing equal key keeps its place and its key object. *)
Fixpoint dict_set (d : list (pykey * pyval)) (k : pykey) (v : pyval)
  : list (pykey * pyval) :=
  match d with
  | [] => [(k, v)]
  | (k', v') :: d' => if key_eqb k k' then (k', v) :: d' else (k', v') :: dict_set d' k v
  end.

Definition dict_of_pairs (l : list (pykey * pyval)) : list (pykey * pyval) :=
  fold_left (fun d kv => dict_set d (fst kv) (snd kv)) l [].

Fixpoint dict_get (d : list (pykey * pyval)) (k : pykey) : option pyval :=
  match d with
  | [] => None
  | (k', v) :: d' => if key_eqb k k' then Some v else dict_get d' k
  end.

(* ------------------------------------------------------------------ *)
(** ** [json.dump(obj, f, indent=2)] (ensure_ascii, separators [','] and [': '])

    [int.__repr__] would refuse an int of more than 4300 digits; the ints
    of the manifest all come from [json.load], which refuses them too. *)

Definition hex_digit (n : Z) : Z := if n <? 10 then 48 + n else 87 + n.

(** [\uXXXX] with the four lowercase hex digits of a 16-bit [c]. *)
Definition u_escape (c : Z) : ustr :=
  [92; 117; hex_digit (Z.land (Z.shiftr c 12) 15); hex_digit (Z.land (Z.shiftr c 8) 15);
   hex_digit (Z.land (Z.shiftr c 4) 15); hex_digit (Z.land c 15)].

(** [S_CHAR] characters stay, the others go through [ascii_escape_unichar];
    above [U+FFFF] as a surrogate pair. *)
Definition escape_cp (c : Z) : ustr :=
  if (32 <=? c) && (c <=? 126) && negb (c =? 92) && negb (c =? 34) then [c]
  else if c =? 92 then [92; 92]
  else if c =? 34 then [92; 34]
  else if c =? 8 then [92; 98]
  else if c =? 12 then [92; 102]
  else if c =? 10 then [92; 110]
  else if c =? 13 then [92; 114]
  else if c =? 9 then [92; 116]
  else if 65536 <=? c then
    u_escape (55296 - Z.shiftr 65536 10 + Z.shiftr c 10) ++ u_escape (56320 + Z.land c 1023)
  else u_escape c.

Definition dump_str (s : ustr) : ustr := 34 :: flat_map escape_cp s ++ [34].

(** Dict keys are converted to strings by the encoder. *)
Definition key_string (k : pykey) : ustr :=
  match k with
  | KNone => lit "null"
  | KBool true => lit "true"
  | KBool false => lit "false"
  | KInt z => int_repr z
  | KFloat f => float_text f
  | KStr s => s
  end.

Definition dump_key (k : pykey) : ustr := dump_str (key_string k).

Definition nl (lvl : nat) : ustr := 10 :: repeat 32 (2 * lvl).

Fixpoint dump_val (lvl : nat) (v : pyval) : ustr :=
  match v with
  | PNone => lit "null"
  | PBool true => lit "true"
  | PBool false => lit "false"
  | PInt z => int_repr z
  | PFloat f => float_text f
  | PStr s => dump_str s
  | PList [] => lit "[]"
  | PList (x :: xs) =>
      91 :: nl (S lvl) ++ dump_val (S lvl) x
        ++ concat (map (fun y => 44 :: nl (S lvl) ++ dump_val (S lvl) y) xs)
        ++ nl lvl ++ [93]
  | PDict [] => lit "{}"
  | PDict ((k, x) :: kxs) =>
      123 :: nl (S lvl) ++ dump_key k ++ lit ": " ++ dump_val (S lvl) x
        ++ concat (map (fun '(k', y) =>
                          44 :: nl (S lvl) ++ dump_key k' ++ lit ": "
                            ++ dump_val (S lvl) y) kxs)
        ++ nl lvl ++ [125]
  end.

(** [json.dumps(v, indent=2)]: ASCII text. *)
Definition dumps (v : pyval) : ustr := dump_val 0 v.

(* ------------------------------------------------------------------ *)
(** ** [json.loads(s)] (the C scanner, strict mode) *)

(** JSON whitespace, as skipped by Python's decoder: [' \t\n\r']. *)
Definition is_ws (c : Z) : bool := (c =? 32) || (c =? 9) || (c =? 10) || (c =? 13).

Fixpoint skip_ws (s : ustr) : ustr :=
  match s with
  | c :: s' => if is_ws c then skip_ws s' else s
  | [] => []
  end.

Fixpoint strip_lit (p s : ustr) : option ustr :=
  match p, s with
  | [], _ => Some s
  | a :: p', b :: s' => if a =? b then strip_lit p' s' else None
  | _ :: _, [] => None
  end.

Definition is_digit (c : Z) : bool := (48 <=? c) && (c <=? 57).

Definition hex_val (c : Z) : option Z :=
  if (48 <=? c) && (c <=? 57) then Some (c - 48)
  else if (97 <=? c) && (c <=? 102) then Some (c - 87)
  else if (65 <=? c) && (c <=? 70) then Some (c - 55)
  else None.

(** Four hex digits, shifted in as the scanner does. *)
Definition hex4 (a b c d : Z) : option Z :=
  match hex_val a, hex_val b, hex_val c, hex_val d with
  | Some x1, Some x2, Some x3, Some x4 =>
      Some (Z.lor (Z.shiftl (Z.lor (Z.shiftl (Z.lor (Z.shiftl x1 4) x2) 4) x3) 4) x4)
  | _, _, _, _ => None
  end.

Definition is_high (c : Z) : bool := (55296 <=? c) && (c <=? 56319).
Definition is_low (c : Z) : bool := (56320 <=? c) && (c <=? 57343).

(** [Py_UNICODE_JOIN_SURROGATES] *)
Definition join_surrogates (h l : Z) : Z :=
  Z.lor (Z.shiftl (Z.land h 1023) 10) (Z.land l 1023) + 65536.

(** The one-character escapes of [scanstring]. *)
Definition simple_escape (e : Z) : option Z :=
  if e =? 34 then Some 34
  else if e =? 92 then Some 92
  else if e =? 47 then Some 47
  else if e =? 98 then Some 8
  else if e =? 102 then Some 12
  else if e =? 110 then Some 10
  else if e =? 114 then Some 13
  else if e =? 116 then Some 9
  else None.

(** [scanstring]: the body of a string literal after its opening quote;
    [acc] holds the code points read so far, last first.  A high surrogate
    escape followed by a low surrogate escape is one code point. *)
Fixpoint scan_str (s : ustr) (acc : ustr) : option (ustr * ustr) :=
  match s with
  | [] => None
  | c :: s1 =>
      if c =? 34 then Some (rev acc, s1)
      else if c =? 92 then
        match s1 with
        | [] => None
        | e :: s2 =>
            if e =? 117 then
              match s2 with
              | h1 :: h2 :: h3 :: h4 :: s3 =>
                  match hex4 h1 h2 h3 h4 with
                  | None => None
                  | Some n =>
                      if is_high n then
                        match s3 with
                        | b :: v :: k1 :: k2 :: k3 :: k4 :: s4 =>
                            if (b =? 92) && (v =? 117) then
                              match hex4 k1 k2 k3 k4 with
                              | None => None
                              | Some n2 =>
                                  if is_low n2 then scan_str s4 (join_surrogates n n2 :: acc)
                                  else scan_str s3 (n :: acc)
                              end
                            else scan_str s3 (n :: acc)
                        | _ => scan_str s3 (n :: acc)
                        end
                      else scan_str s3 (n :: acc)
                  end
              | _ => None
              end
            else
              match simple_escape e with
              | Some c' => scan_str s2 (c' :: acc)
              | None => None
              end
        end
      else if c <? 32 then None
      else scan_str s1 (c :: acc)
  end.

Fixpoint take_digits (s : ustr) : Decimal.uint * ustr :=
  match s with
  | [] => (Decimal.Nil, [])
  | c :: s' =>
      if is_digit c then
        let '(u, r) := take_digits s' in (digit_uint (c - 48) u, r)
      else (Decimal.Nil, s)
  end.

(** A fraction: a dot and one digit or more. *)
Definition take_frac (s : ustr) : option Decimal.uint * ustr :=
  match s with
  | c :: d :: r =>
      if (c =? 46) && is_digit d then
        let '(w, r') := take_digits (d :: r) in (Some w, r')
      else (None, s)
  | _ => (None, s)
  end.

(** An exponent: [e] or [E], an optional sign and one digit or more;
    without a digit the scanner backtracks to the [e]. *)
Definition take_exp (s : ustr) : option Z * ustr :=
  match s with
  | c :: r =>
      if (c =? 101) || (c =? 69) then
        let '(neg, r1) :=
          match r with
          | sg :: r' => if sg =? 45 then (true, r') else if sg =? 43 then (false, r') else (false, r)
          | [] => (false, r)
          end in
        match take_digits r1 with
        | (Decimal.Nil, _) => (None, s)
        | (w, r2) => (Some (if neg then - Z.of_uint w else Z.of_uint w), r2)
        end
      else (None, s)
  | [] => (None, s)
  end.

(** [_match_number_unicode]: an optional minus, then [0] or a nonzero digit
    and more digits, then an optional fraction and exponent.  An integer is
    read by [int()], which refuses more than 4300 digits, a float by
    [float()]. *)
Definition parse_number (s : ustr) : option (pyval * ustr) :=
  let '(neg, s1) :=
    match s with
    | c :: s' => if c =? 45 then (true, s') else (false, s)
    | [] => (false, s)
    end in
  let '(u, r) := take_digits s1 in
  let num :=
    let '(fr, r2) := take_frac r in
    let '(ex, r3) := take_exp r2 in
    match fr, ex with
    | None, None =>
        if Nat.ltb max_str_digits (Decimal.nb_digits u) then None
        else Some (PInt (if neg then - Z.of_uint u else Z.of_uint u), r)
    | _, _ =>
        let fd := match fr with Some w => w | None => Decimal.Nil end in
        let e := match ex with Some e => e | None => 0 end in
        let nf := Z.of_nat (Decimal.nb_digits fd) in
        Some (PFloat (strtod neg (Z.of_uint u * 10 ^ nf + Z.of_uint fd) (e - nf)), r3)
    end in
  match u with
  | Decimal.Nil => None
  | Decimal.D0 Decimal.Nil => num
  | Decimal.D0 _ => None
  | _ => num
  end.

(** The constants of [scan_once], then a number. *)
Definition parse_scalar (s : ustr) : option (pyval * ustr) :=
  match strip_lit (lit "null") s with
  | Some r => Some (PNone, r)
  | None =>
  match strip_lit (lit "true") s with
  | Some r => Some (PBool true, r)
  | None =>
  match strip_lit (lit "false") s with
  | Some r => Some (PBool false, r)
  | None =>
  match strip_lit (lit "NaN") s with
  | Some r => Some (PFloat nan_bits, r)
  | None =>
  match strip_lit (lit "Infinity") s with
  | Some r => Some (PFloat (inf_bits false), r)
  | None =>
  match strip_lit (lit "-Infinity") s with
  | Some r => Some (PFloat (inf_bits true), r)
  | None => parse_number s
  end end end end end end.

(** The nesting of arrays and objects the scanner accepts: it enters
    [Py_EnterRecursiveCall] for each, under the recursion limit of 1000
    with the frames of [main], the command, [json.load], [json.loads],
    [decode] and [raw_decode] below it. *)
Definition max_depth : nat := 992%nat.

(** [scan_once] at [depth] enclosing arrays and objects. *)
Fixpoint parse_val (fuel depth : nat) (s : ustr) {struct fuel}
  : option (pyval * ustr) :=
  match fuel with
  | O => None
  | S f =>
      match s with
      | [] => None
      | c :: s1 =>
          if c =? 34 then
            match scan_str s1 [] with
            | Some (cs, r) => Some (PStr cs, r)
            | None => None
            end
          else if c =? 123 then
            if Nat.leb max_depth depth then None
            else
              match skip_ws s1 with
              | c2 :: s3 =>
                  if c2 =? 125 then Some (PDict [], s3)
                  else parse_members f (S depth) (c2 :: s3) []
              | [] => None
              end
          else if c =? 91 then
            if Nat.leb max_depth depth then None
            else
              match skip_ws s1 with
              | c2 :: s3 =>
                  if c2 =? 93 then Some (PList [], s3)
                  else parse_elems f (S depth) (c2 :: s3) []
              | [] => None
              end
          else parse_scalar s
      end
  end
(** [JSONArray]: elements after the opening bracket; [acc] last first. *)
with parse_elems (fuel depth : nat) (s : ustr) (acc : list pyval) {struct fuel}
  : option (pyval * ustr) :=
  match fuel with
  | O => None
  | S f =>
      match parse_val f depth s with
      | None => None
      | Some (v, r) =>
          match skip_ws r with
          | c :: r1 =>
              if c =? 93 then Some (PList (rev (v :: acc)), r1)
              else if c =? 44 then parse_elems f depth (skip_ws r1) (v :: acc)
              else None
          | [] => None
          end
      end
  end
(** [JSONObject]: members after the opening brace, built with [dict(pairs)]. *)
with parse_members (fuel depth : nat) (s : ustr) (acc : list (pykey * pyval))
  {struct fuel} : option (pyval * ustr) :=
  match fuel with
  | O => None
  | S f =>
      match s with
      | c :: s1 =>
          if c =? 34 then
            match scan_str s1 [] with
            | Some (k, r) =>
                match skip_ws r with
                | c2 :: r2 =>
                    if c2 =? 58 then
                      match parse_val f depth (skip_ws r2) with
                      | Some (v, r3) =>
                          let acc' := (KStr k, v) :: acc in
                          match skip_ws r3 with
                          | c3 :: r4 =>
                              if c3 =? 125
                              then Some (PDict (dict_of_pairs (rev acc')), r4)
                              else if c3 =? 44
                              then parse_members f depth (skip_ws r4) acc'
                              else None
                          | [] => None
                          end
                      | None => None
                      end
                    else None
                | [] => None
                end
            | None => None
            end
          else None
      | [] => None
      end
  end.

(** [json.loads]: a value between optional whitespace.  Every step of the
    parser consumes a character, so [length + 1] units of fuel never run
    out. *)
Definition loads (s : ustr) : option pyval :=
  let cs := skip_ws s in
  match parse_val (S (length cs)) 0 cs with
  | Some (v, r) => match skip_ws r with [] => Some v | _ => None end
  | None => None
  end.

(** [json.load] of a file: its text is decoded as UTF-8 first. *)
Definition load_text (txt : string) : option pyval :=
  match utf8_decode txt with Some s => loads s | None => None end.

(** ** What [json.dumps] and [json.loads] agree on *)

(** A float reads back from the text [json.dump] writes for it ([float] of
    its [repr], which Python guarantees for every finite float). *)
Definition reads_back (f : Z) : bool :=
  match parse_scalar (float_text f) with
  | Some (PFloat g, []) => Z.eqb g f
  | _ => false
  end.

(** Well-formed strings: code points of Unicode, and no high surrogate
    right before a low one (the dump of such a pair reads back as one
    code point). *)
Definition wf_cp (c : Z) : bool := (0 <=? c) && (c <? 1114112).

Fixpoint no_split_pair (s : ustr) : bool :=
  match s with
  | a :: ((b :: _) as s') => negb (is_high a && is_low b) && no_split_pair s'
  | _ => true
  end.

Definition wf_str (s : ustr) : bool := forallb wf_cp s && no_split_pair s.

Definition is_str_key (k : pykey) : bool :=
  match k with KStr s => wf_str s | _ => false end.

(** Dict keys are well-formed [str]s, no two of them equal. *)
Fixpoint str_keys_distinct (kvs : list (pykey * pyval)) : bool :=
  match kvs with
  | [] => true
  | (k, _) :: r =>
      is_str_key k && forallb (fun kv => negb (key_eqb k (fst kv))) r
      && str_keys_distinct r
  end.

(** The values [json.load] can produce, with floats checked by [fl]. *)
Fixpoint json_ok (fl : Z -> bool) (v : pyval) : bool :=
  match v with
  | PInt z => int_ok z
  | PFloat f => fl f
  | PStr s => wf_str s
  | PList xs => forallb (json_ok fl) xs
  | PDict kvs => str_keys_distinct kvs && forallb (fun kv => json_ok fl (snd kv)) kvs
  | _ => true
  end.

(** The floats among the values (keys apart). *)
Fixpoint floats (v : pyval) : list Z :=
  match v with
  | PFloat f => [f]
  | PList xs => flat_map floats xs
  | PDict kvs => flat_map (fun kv => floats (snd kv)) kvs
  | _ => []
  end.

(** The nesting of arrays and objects. *)
Fixpoint depth (v : pyval) : nat :=
  match v with
  | PList xs => S (list_max (map depth xs))
  | PDict kvs => S (list_max (map (fun kv => depth (snd kv)) kvs))
  | _ => O
  end.

(** The parser fuel a value needs. *)
Fixpoint need (v : pyval) : nat :=
  match v with
  | PList xs => S (list_sum (map (fun x => S (need x)) xs))
  | PDict kvs => S (list_sum (map (fun '(_, x) => S (need x)) kvs))
  | _ => 1
  end.

(** What may follow a dumped value inside a dump. *)
Definition follow_ok (rest : ustr) : bool :=
  match rest with
  | [] => true
  | c :: _ => (c =? 44) || (c =? 10)
  end.

(** What may follow the escape of a high surrogate in a dumped string for
    the scanner to read it alone: no [\u] escape of a low surrogate (and
    no broken one). *)
Definition pair_free (t : ustr) : bool :=
  match t with
  | b :: v :: k1 :: k2 :: k3 :: k4 :: _ =>
      if (b =? 92) && (v =? 117) then
        match hex4 k1 k2 k3 k4 with Some n => negb (is_low n) | None => false end
      else true
  | _ => true
  end.

(** What may follow a lone high surrogate in the scanner's output: no
    [\u] escape of a low surrogate. *)
Definition low_esc_free (t : ustr) : bool :=
  match t with
  | b :: v :: k1 :: k2 :: k3 :: k4 :: _ =>
      if (b =? 92) && (v =? 117) then
        match hex4 k1 k2 k3 k4 with Some n => negb (is_low n) | None => true end
      else true
  | _ => true
  end.

(** The code points of a text a strict UTF-8 decoder produces. *)
Definition src_cp (c : Z) : bool := wf_cp c && negb (is_high c) && negb (is_low c).

(** The first character of a number. *)
Definition num_char (c : Z) : bool :=
  is_digit c || (c =? 45) || (c =? 46) || (c =? 101) || (c =? 43).

(** A value is read back from its dump at any indentation. *)
Definition roundtrips (v : pyval) : Prop :=
  forall lvl depth0 f rest, json_ok reads_back v = true ->
    (depth0 + depth v <= max_depth)%nat -> (need v <= f)%nat -> follow_ok rest = true ->
    parse_val f depth0 (dump_val lvl v ++ rest) = Some (v, rest).

Definition str_entry (fl : Z -> bool) (kv : pykey * pyval) : bool :=
  is_str_key (fst kv) && json_ok fl (snd kv).

End Json.


(* ------------------------------------------------------------------ *)
(** ** Python string helpers (code points below 256) *)

(** [str.isspace] on Latin-1 code points. *)
Definition py_isspace (c : ascii) : bool :=
  let n := nat_of_ascii c in
  ((9 <=? n) && (n <=? 13)) || ((28 <=? n) && (n <=? 32)) || (n =? 133) || (n =? 160).

Fixpoint drop_ws (s : list ascii) : list ascii :=
  match s with
  | c :: s' => if py_isspace c then drop_ws s' else s
  | [] => []
  end.

(** [str.strip()] *)
Definition py_strip (s : string) : string :=
  string_of_list_ascii (rev (drop_ws (rev (drop_ws (list_ascii_of_string s))))).

(** [str.split(sep)] for a one-character separator: empty pieces are kept. *)
Fixpoint split_char_acc (sep : ascii) (s : list ascii) (cur : list ascii)
  : list (list ascii) :=
  match s with
  | [] => [rev cur]
  | c :: s' => if Ascii.eqb c sep then rev cur :: split_char_acc sep s' []
               else split_char_acc sep s' (c :: cur)
  end.

Definition py_split_char (sep : ascii) (s : string) : list string :=
  map string_of_list_ascii (split_char_acc sep (list_ascii_of_string s) []).

(** [str.split()]: runs of whitespace separate, empty pieces are dropped. *)
Fixpoint split_ws_acc (s : list ascii) (cur : list ascii) : list (list ascii) :=
  match s with
  | [] => match cur with [] => [] | _ => [rev cur] end
  | c :: s' =>
      if py_isspace c then
        match cur with [] => split_ws_acc s' [] | _ => rev cur :: split_ws_acc s' [] end
      else split_ws_acc s' (c :: cur)
  end.

Definition py_split_ws (s : string) : list string :=
  map string_of_list_ascii (split_ws_acc (list_ascii_of_string s) []).

(** [str.replace(old, new)], left to right without overlaps ([old] non-empty). *)
Fixpoint replace_acc (fuel : nat) (s old new : list ascii) : list ascii :=
  match fuel with
  | O => s
  | S f =>
      match s with
      | [] => []
      | c :: s' =>
          match strip_prefix old s with
          | Some r => new ++ replace_acc f r old new
          | None => c :: replace_acc f s' old new
          end
      end
  end.

Definition py_replace (s old new : string) : string :=
  let cs := list_ascii_of_string s in
  string_of_list_ascii
    (replace_acc (S (length cs)) cs (list_ascii_of_string old) (list_ascii_of_string new)).

Definition ends_with (suffix s : string) : bool :=
  let n := String.length s in
  let k := String.length suffix in
  (k <=? n) && String.eqb (String.substring (n - k) k s) suffix.

(** [PurePath.stem]: the name without its last suffix; a leading dot or a
    trailing dot does not start a suffix. *)
Definition py_stem (name : string) : string :=
  let cs := list_ascii_of_string name in
  let dots := filter (fun i => Ascii.eqb (nth i cs " "%char) "."%char) (seq 0 (length cs)) in
  match rev dots with
  | i :: _ => if (0 <? i) && (i <? length cs - 1)
              then string_of_list_ascii (firstn i cs) else name
  | [] => name
  end.

Definition nl_str : string := String ch_nl EmptyString.

(* ================================================================== *)
(** * The working directory, subprocesses and Python exceptions *)

Module Cli.
Import Json.

Definition path := list string.

Inductive node : Type :=
| FileN (data : string)
| DirN.

(** Every file and directory below the working directory, by its path
    relative to it, in creation order.  The order in which a directory is
    listed ([os.scandir], behind [iterdir] and [glob]) is the file
    system's: it is a parameter of the runs below. *)
Definition fsmap := list (path * node).

Fixpoint path_eqb (p q : path) : bool :=
  match p, q with
  | [], [] => true
  | a :: p', b :: q' => String.eqb a b && path_eqb p' q'
  | _, _ => false
  end.

Fixpoint is_prefix (p q : path) : bool :=
  match p, q with
  | [], _ => true
  | a :: p', b :: q' => String.eqb a b && is_prefix p' q'
  | _ :: _, [] => false
  end.

Fixpoint fs_lookup (m : fsmap) (p : path) : option node :=
  match m with
  | [] => None
  | (q, n) :: m' => if path_eqb p q then Some n else fs_lookup m' p
  end.

Fixpoint fs_put (m : fsmap) (p : path) (n : node) : fsmap :=
  match m with
  | [] => [(p, n)]
  | (q, n') :: m' => if path_eqb p q then (q, n) :: m' else (q, n') :: fs_put m' p n
  end.

(** [rm -rf p] *)
Definition fs_rm_rf (m : fsmap) (p : path) : fsmap :=
  filter (fun e => negb (is_prefix p (fst e))) m.

Definition is_child (p q : path) : bool := is_prefix p q && (length q =? S (length p)).

Definition children (m : fsmap) (p : path) : list path :=
  map fst (filter (fun e => is_child p (fst e)) m).

(** The working directory itself is the empty path. *)
Definition exists_b (m : fsmap) (p : path) : bool :=
  match p with
  | [] => true
  | _ => match fs_lookup m p with Some _ => true | None => false end
  end.

Definition is_dir_b (m : fsmap) (p : path) : bool :=
  match p with
  | [] => true
  | _ => match fs_lookup m p with Some DirN => true | _ => false end
  end.

Definition is_file_b (m : fsmap) (p : path) : bool :=
  match fs_lookup m p with Some (FileN _) => true | _ => false end.

Definition parent (p : path) : path := removelast p.
Definition basename (p : path) : string := last p EmptyString.

(** [str(path)] *)
Definition render (p : path) : string :=
  match p with [] => "."%string | _ => String.concat "/" p end.

Fixpoint inits (p : path) : list path :=
  match p with
  | [] => []
  | a :: p' => [a] :: map (cons a) (inits p')
  end.

(** [os.makedirs(p, exist_ok=True)] as [tarfile] does for a member's parents. *)
Definition mkdirs (m : fsmap) (p : path) : fsmap :=
  fold_left (fun m q => if exists_b m q then m else fs_put m q DirN) (inits p) m.

(** ** Python exceptions and the state, writer and exception monad *)

Inductive exc : Type :=
| TimeoutExpired
| FileNotFoundError
| FileExistsError
| IsADirectoryError
| NotADirectoryError
| IndexError
| ReadError
| JSONDecodeError
| TypeError
| ValueError
| AttributeError
| UnicodeDecodeError
| UnicodeEncodeError.

Inductive res (A : Type) : Type :=
| Ret (a : A)
| Raise (e : exc).
Arguments Ret {A} a.
Arguments Raise {A} e.

(** What a run shows: the subprocesses it starts ([argv]) and the lines it
    prints (the emoji of the source are left out). *)
Inductive event : Type :=
| Cmd (argv : list string)
| Out (msg : string).

(** How a subprocess completed. *)
Record completed : Type := mkCompleted {
  returncode : Z;
  stdout : string;
  stderr : string;
  duration : nat
}.

(** An action maps the working directory to its outcome, the new working
    directory and the events it produced, in order. *)
Definition M (A : Type) : Type := fsmap -> res A * fsmap * list event.

Definition ret {A} (a : A) : M A := fun m => (Ret a, m, []).
Definition raise {A} (e : exc) : M A := fun m => (Raise e, m, []).

Definition bind {A B} (x : M A) (k : A -> M B) : M B :=
  fun m =>
    match x m with
    | (Ret a, m1, ev1) => let '(r, m2, ev2) := k a m1 in (r, m2, ev1 ++ ev2)
    | (Raise e, m1, ev1) => (Raise e, m1, ev1)
    end.

Notation "x <- c ;; k" := (bind c (fun x => k))
  (at level 61, c at next level, right associativity).
Notation "c ;; k" := (bind c (fun _ => k)) (at level 61, right associativity).

Definition print (msg : string) : M unit := fun m => (Ret tt, m, [Out msg]).
Definition query {A} (f : fsmap -> A) : M A := fun m => (Ret (f m), m, []).

Fixpoint for_ {A} (l : list A) (f : A -> M unit) : M unit :=
  match l with
  | [] => ret tt
  | x :: l' => f x ;; for_ l' f
  end.

(** [str.center(width)] as CPython pads: the odd space goes left when the
    width is odd. *)
Definition py_center (width : nat) (text : string) : string :=
  let n := String.length text in
  if width <=? n then text
  else
    let marg := width - n in
    let left := marg / 2 + (if Nat.odd marg && Nat.odd width then 1 else 0) in
    (String.concat "" (repeat " " left) ++ text
     ++ String.concat "" (repeat " " (marg - left)))%string.

Definition rule60 : string := String.concat "" (repeat "="%string 60).

Definition print_header (text : string) : M unit :=
  print (nl_str ++ rule60) ;; print (py_center 60 text) ;; print (rule60 ++ nl_str).

(** ** Files *)

Definition path_exists (p : path) : M bool := query (fun m => exists_b m p).
Definition is_dir (p : path) : M bool := query (fun m => is_dir_b m p).
Definition is_file (p : path) : M bool := query (fun m => is_file_b m p).

(** [Path.mkdir(exist_ok=True)] *)
Definition mkdir (p : path) : M unit :=
  fun m =>
    if is_dir_b m p then (Ret tt, m, [])
    else if exists_b m p then (Raise FileExistsError, m, [])
    else if is_dir_b m (parent p) then (Ret tt, fs_put m p DirN, [])
    else if exists_b m (parent p) then (Raise NotADirectoryError, m, [])
    else (Raise FileNotFoundError, m, []).

(** [open(p).read()] *)
Definition read_file (p : path) : M string :=
  fun m =>
    match fs_lookup m p with
    | Some (FileN d) => (Ret d, m, [])
    | Some DirN => (Raise IsADirectoryError, m, [])
    | None => (Raise FileNotFoundError, m, [])
    end.

(** [open(p, 'w').write(d)] *)
Definition write_file (p : path) (d : string) : M unit :=
  fun m =>
    if is_dir_b m p then (Raise IsADirectoryError, m, [])
    else if is_dir_b m (parent p) then (Ret tt, fs_put m p (FileN d), [])
    else (Raise FileNotFoundError, m, []).

(** A listing of directories: [listdir m p] holds the entries of the
    directory [p] in the order the file system returns them. *)
Definition listing := fsmap -> path -> list path.

(** The listings a file system may give: each entry once, in any order. *)
Definition listing_ok (listdir : listing) : Prop :=
  forall m p, Permutation (listdir m p) (children m p).

(** [Path.iterdir()] *)
Definition iterdir (listdir : listing) (p : path) : M (list path) :=
  fun m =>
    if is_dir_b m p then (Ret (listdir m p), m, [])
    else if exists_b m p then (Raise NotADirectoryError, m, [])
    else (Raise FileNotFoundError, m, []).

(** [Path.glob("*.tar.gz")]: the entries of [p] whose names match, hidden
    ones included, in listing order. *)
Definition glob_tar_gz (listdir : listing) (p : path) : M (list path) :=
  query (fun m => if is_dir_b m p
                  then filter (fun q => ends_with ".tar.gz" (basename q)) (listdir m p)
                  else []).

(** [subprocess.run(["cp", src, dst])]: the exit status is not looked at;
    a regular file is copied to [dst], or into [dst] when it is a
    directory. *)
Definition cp_effect (src dst : path) (m : fsmap) : fsmap :=
  match fs_lookup m src with
  | Some (FileN d) =>
      let target := if is_dir_b m dst then dst ++ [basename src] else dst in
      if is_dir_b m target then m
      else if is_dir_b m (parent target) then fs_put m target (FileN d)
      else m
  | _ => m
  end.

Definition cp (src dst : path) : M unit :=
  fun m => (Ret tt, cp_effect src dst m, [Cmd ["cp"; render src; render dst]%string]).

(** [subprocess.run(["rm", "-rf", p])] *)
Definition rm_rf (p : path) : M unit :=
  fun m => (Ret tt, fs_rm_rf m p, [Cmd ["rm"; "-rf"; render p]%string]).

Definition project_name : string := "localai".
Definition backup_dir : path := ["backups"%string].
Definition restore_temp : path := backup_dir ++ ["restore_temp"%string].

(** [Path(f"{backup_file}.sha256")] *)
Definition sidecar_of (p : path) : path := removelast p ++ [(basename p ++ ".sha256")%string].

Definition config_files : list string :=
  [".env"; ".env.enc"; ".sops.yaml"; "docker-compose.yml";
   "docker-compose.override.private.yml"; "docker-compose.override.public.yml";
   "Caddyfile"; ".bootstrap_metadata.json"]%string.

Definition stop_argv : list string := ["docker"; "compose"; "-p"; project_name; "down"]%string.

(** The lines of a listing command: [[n for n in out.strip().split('\n') if n]]. *)
Definition parse_names (out : string) : list string :=
  filter (fun n => negb (String.eqb n EmptyString)) (py_split_char ch_nl (py_strip out)).

(** [str(v)] of a JSON value as the import summary prints it: floats as
    [repr] writes them; containers are abbreviated. *)
Definition py_str (v : pyval) : ustr :=
  match v with
  | PNone => lit "None"
  | PBool true => lit "True"
  | PBool false => lit "False"
  | PInt z => int_repr z
  | PFloat f => float_str f
  | PStr s => s
  | PList _ => lit "[...]"
  | PDict _ => lit "{...}"
  end.

Definition val_of_key (k : pykey) : pyval :=
  match k with
  | KNone => PNone
  | KBool b => PBool b
  | KInt z => PInt z
  | KFloat f => PFloat f
  | KStr s => PStr s
  end.

(** A hashable value as a dict key. *)
Definition key_of_val (v : pyval) : option pykey :=
  match v with
  | PNone => Some KNone
  | PBool b => Some (KBool b)
  | PInt z => Some (KInt z)
  | PFloat f => Some (KFloat f)
  | PStr s => Some (KStr s)
  | _ => None
  end.

(** One element of the iterable given to [dict.update]: it must unpack into
    exactly two items, the first hashable. *)
Definition update_pair (x : pyval) : M (pykey * pyval) :=
  match x with
  | PList [k; v] =>
      match key_of_val k with Some k' => ret (k', v) | None => raise TypeError end
  | PList _ => raise ValueError
  | PStr [a; b] => ret (KStr [a], PStr [b])
  | PStr _ => raise ValueError
  | PDict [(k1, _); (k2, _)] => ret (k1, val_of_key k2)
  | PDict _ => raise ValueError
  | _ => raise TypeError
  end.

Fixpoint update_pairs (xs : list pyval) : M (list (pykey * pyval)) :=
  match xs with
  | [] => ret []
  | x :: xs' => kv <- update_pair x ;; kvs <- update_pairs xs' ;; ret (kv :: kvs)
  end.

Definition dict_set_all (d kvs : list (pykey * pyval)) : list (pykey * pyval) :=
  fold_left (fun d kv => dict_set d (fst kv) (snd kv)) kvs d.

(** [d.update(other)] for a value read by [json.load]: a dict, or an
    iterable of pairs (a [str] is one of its characters). *)
Definition dict_update (d : list (pykey * pyval)) (other : pyval)
  : M (list (pykey * pyval)) :=
  match other with
  | PDict kvs => ret (dict_set_all d kvs)
  | PList xs => kvs <- update_pairs xs ;; ret (dict_set_all d kvs)
  | PStr [] => ret d
  | PStr _ => raise ValueError
  | _ => raise TypeError
  end.

(** [json.load(f)] of a file opened in text mode: its bytes are decoded as
    UTF-8 ([UnicodeDecodeError] when they are not UTF-8), then parsed.
    The newline translation of text mode only turns whitespace into
    whitespace outside strings, and a string holding a line break is
    refused either way, so it is left out. *)
Definition json_load (txt : string) : M pyval :=
  match utf8_decode txt with
  | Some s => match loads s with Some v => ret v | None => raise JSONDecodeError end
  | None => raise UnicodeDecodeError
  end.

(** [manifest.get(...)] needs a dict. *)
Definition as_dict (v : pyval) : M (list (pykey * pyval)) :=
  match v with PDict kvs => ret kvs | _ => raise AttributeError end.

(** [str(manifest.get(k, dflt))] *)
Definition get_or (d : list (pykey * pyval)) (k dflt : string) : ustr :=
  match dict_get d (KStr (lit k)) with Some v => py_str v | None => lit dflt end.

(** [manifest.get('format') == 'full'] *)
Definition is_full (d : list (pykey * pyval)) : bool :=
  match dict_get d (KStr (lit "format")) with
  | Some (PStr f) => ustr_eqb f (lit "full")
  | _ => false
  end.

(** [print(prefix + s)] to a UTF-8 standard output with strict errors: a
    lone surrogate in [s] cannot be written. *)
Definition print_u (prefix : string) (s : ustr) : M unit :=
  match utf8_encode s with
  | Some t => print (prefix ++ t)
  | None => raise UnicodeEncodeError
  end.

Section Engine.

(** How each [docker] command completes (the executable is installed). *)
Variable docker : list string -> completed.
(** [datetime.now()] as [strftime("%Y%m%d_%H%M%S")] and as [isoformat()]. *)
Variables now_stamp now_iso : string.
(** The absolute path of the working directory. *)
Variable cwd_abs : string.
(** The bytes the helper container writes when it archives a volume. *)
Variable volume_tgz : string -> string.
(** [tarfile] in mode [w:gz] over members, and reading one back in mode
    [r:gz] ([None]: [tarfile.ReadError]). *)
Variable tar_gz : list (path * node) -> string.
Variable untar : string -> option (list (path * node)).
(** [hashlib.sha256(data).hexdigest()] *)
Variable sha256_hex : string -> string.
(** [f"{size / (1024 * 1024):.2f}"] of a size in bytes. *)
Variable size_mb : nat -> string.
(** The order in which directories are listed. *)
Variable listdir : listing.
(** What the helper container exporting a volume leaves as its archive
    when it fails or is still running at the timeout ([None]: nothing). *)
Variable partial_tgz : string -> option string.

(** [subprocess.run(argv, timeout=t)]: the command is started, and
    [TimeoutExpired] is raised when it outlives [t] seconds. *)
Definition run (argv : list string) (timeout : option nat) : M completed :=
  fun m =>
    let r := docker argv in
    match timeout with
    | Some t => if t <? duration r then (Raise TimeoutExpired, m, [Cmd argv])
                else (Ret r, m, [Cmd argv])
    | None => (Ret r, m, [Cmd argv])
    end.

Definition absolute (p : path) : string := (cwd_abs ++ "/" ++ render p)%string.

Definition get_running_containers : M (list string) :=
  r <- run ["docker"; "ps"; "--filter"; "name=" ++ project_name; "--format"; "{{.Names}}"]%string None ;;
  if Z.eqb (returncode r) 0 then ret (parse_names (stdout r)) else ret [].

Definition get_docker_volumes : M (list string) :=
  r <- run ["docker"; "volume"; "ls"; "--filter"; "name=" ++ project_name; "--format"; "{{.Name}}"]%string None ;;
  if Z.eqb (returncode r) 0 then ret (parse_names (stdout r)) else ret [].

Definition export_argv (volume_name : string) (output_dir : path) : list string :=
  ["docker"; "run"; "--rm"; "-v"; volume_name ++ ":/volume";
   "-v"; absolute output_dir ++ ":/backup"; "alpine";
   "tar"; "czf"; "/backup/" ++ volume_name ++ ".tar.gz"; "-C"; "/volume"; "."]%string.

(** What is left at [output_dir/<volume>.tar.gz] after a failed or
    interrupted helper. *)
Definition leave_partial (volume_name : string) (output_dir : path) (m : fsmap) : fsmap :=
  match partial_tgz volume_name with
  | Some d => fs_put m (output_dir ++ [volume_name ++ ".tar.gz"]%string) (FileN d)
  | None => m
  end.

(** The helper container of an export writes [output_dir/<volume>.tar.gz]
    through its bind mount: the whole archive when it succeeds, what
    [partial_tgz] says otherwise. *)
Definition run_export_helper (volume_name : string) (output_dir : path) : M completed :=
  fun m =>
    match run (export_argv volume_name output_dir) (Some 300) m with
    | (Ret r, m', ev) =>
        if Z.eqb (returncode r) 0
        then (Ret r, fs_put m' (output_dir ++ [volume_name ++ ".tar.gz"]%string)
                              (FileN (volume_tgz volume_name)), ev)
        else (Ret r, leave_partial volume_name output_dir m', ev)
    | (Raise e, m', ev) => (Raise e, leave_partial volume_name output_dir m', ev)
    end.

Definition export_docker_volume (volume_name : string) (output_dir : path) : M bool :=
  print ("  Exporting volume: " ++ volume_name) ;;
  r <- run_export_helper volume_name output_dir ;;
  if Z.eqb (returncode r) 0 then
    print ("    Exported to " ++ volume_name ++ ".tar.gz") ;; ret true
  else
    print ("    Failed to export: " ++ stderr r) ;; ret false.

Definition import_argv (volume_name : string) (backup_file : path) : list string :=
  ["docker"; "run"; "--rm"; "-v"; volume_name ++ ":/volume";
   "-v"; absolute (parent backup_file) ++ ":/backup"; "alpine";
   "tar"; "xzf"; "/backup/" ++ basename backup_file; "-C"; "/volume"]%string.

Definition import_docker_volume (volume_name : string) (backup_file : path) : M bool :=
  print ("  Importing volume: " ++ volume_name) ;;
  _ <- run ["docker"; "volume"; "create"; volume_name]%string None ;;
  r <- run (import_argv volume_name backup_file) (Some 300) ;;
  if Z.eqb (returncode r) 0 then
    print ("    Imported " ++ basename backup_file) ;; ret true
  else
    print ("    Failed to import: " ++ stderr r) ;; ret false.

(** ** [export_environment] *)

Definition default_name : string := ("localai_backup_" ++ now_stamp)%string.

(** [if not output_name: output_name = f"localai_backup_{timestamp}"] *)
Definition export_name (output_name : option string) : string :=
  match output_name with
  | Some n => if String.eqb n EmptyString then default_name else n
  | None => default_name
  end.

(** Docker names are ASCII, so each byte of a name listed by [docker] is a
    code point of the [str] [subprocess] decodes. *)
Definition collect_metadata (format : string) : M (list (pykey * pyval)) :=
  print "Collecting metadata..." ;;
  containers <- get_running_containers ;;
  volumes <- get_docker_volumes ;;
  let metadata :=
    [(KStr (lit "version"), PStr (lit "1.0")); (KStr (lit "timestamp"), PStr (lit now_iso));
     (KStr (lit "format"), PStr (fsdecode format));
     (KStr (lit "containers"), PList (map (fun n => PStr (lit n)) containers));
     (KStr (lit "volumes"), PList (map (fun n => PStr (lit n)) volumes))]%string in
  e <- path_exists [".bootstrap_metadata.json"%string] ;;
  if e then
    txt <- read_file [".bootstrap_metadata.json"%string] ;;
    bootstrap_meta <- json_load txt ;;
    dict_update metadata bootstrap_meta
  else ret metadata.

Definition copy_config_file (config_dir : path) (config_file : string) : M unit :=
  e <- path_exists [config_file] ;;
  if e then cp [config_file] config_dir ;; print ("  " ++ config_file)
  else ret tt.

Definition copy_configs (export_dir : path) : M unit :=
  print "Exporting configuration files..." ;;
  let config_dir := export_dir ++ ["configs"%string] in
  mkdir config_dir ;;
  for_ config_files (copy_config_file config_dir) ;;
  e <- path_exists ["searxng"; "settings.yml"]%string ;;
  if e then
    let searxng_dir := config_dir ++ ["searxng"%string] in
    mkdir searxng_dir ;;
    cp ["searxng"; "settings.yml"]%string searxng_dir ;;
    print "  searxng/settings.yml"
  else ret tt.

Definition export_volumes (export_dir : path) : M unit :=
  print "Exporting Docker volumes..." ;;
  let volumes_dir := export_dir ++ ["volumes"%string] in
  mkdir volumes_dir ;;
  volumes <- get_docker_volumes ;;
  for_ volumes (fun volume => _ <- export_docker_volume volume volumes_dir ;; ret tt).

(** The members [tar.add(dir, arcname=name)] records: [dir] itself as
    [name], and everything below it re-rooted at [name]. *)
Definition tar_members (m : fsmap) (dir : path) (arcname : string) : list (path * node) :=
  ([arcname], DirN)
    :: map (fun e => (arcname :: skipn (length dir) (fst e), snd e))
           (filter (fun e => is_prefix dir (fst e) && negb (path_eqb dir (fst e))) m).

(** [with tarfile.open(archive, "w:gz") as tar: tar.add(dir, arcname=name)] *)
Definition tar_create (archive : path) (dir : path) (arcname : string) : M unit :=
  fun m =>
    if is_dir_b m archive then (Raise IsADirectoryError, m, [])
    else if negb (is_dir_b m (parent archive)) then (Raise FileNotFoundError, m, [])
    else if negb (exists_b m dir) then (Raise FileNotFoundError, m, [])
    else (Ret tt, fs_put m archive (FileN (tar_gz (tar_members m dir arcname))), []).

(** [format] is the command-line argument, as bytes; it is decoded with
    [os.fsdecode] into the manifest, and [format == "full"] compares as the
    bytes do, the decoding being injective. *)
Definition export_environment (output_name : option string) (format : string) : M path :=
  print_header "Exporting Local AI Package" ;;
  let name := export_name output_name in
  let export_dir := backup_dir ++ [name] in
  mkdir export_dir ;;
  metadata <- collect_metadata format ;;
  write_file (export_dir ++ ["manifest.json"%string]) (string_of_bytes (dumps (PDict metadata))) ;;
  print "Metadata saved" ;;
  copy_configs export_dir ;;
  (if String.eqb format "full" then export_volumes export_dir else ret tt) ;;
  print "Creating backup archive..." ;;
  let archive_path := backup_dir ++ [(name ++ ".tar.gz")%string] in
  tar_create archive_path export_dir name ;;
  print "Calculating checksum..." ;;
  data <- read_file archive_path ;;
  let checksum := sha256_hex data in
  write_file (backup_dir ++ [(name ++ ".tar.gz.sha256")%string])
             (checksum ++ "  " ++ name ++ ".tar.gz" ++ nl_str)%string ;;
  rm_rf export_dir ;;
  print "Export Complete!" ;;
  print ("Archive: " ++ render archive_path) ;;
  print ("Size: " ++ size_mb (String.length data) ++ " MB") ;;
  print ("SHA256: " ++ checksum) ;;
  ret archive_path.

(** ** [import_environment] *)

Definition verify_checksum (backup_file : path) : M bool :=
  let checksum_file := sidecar_of backup_file in
  e <- path_exists checksum_file ;;
  if e then
    print "Verifying checksum..." ;;
    txt <- read_file checksum_file ;;
    expected_checksum <- (match py_split_ws txt with
                          | t :: _ => ret t
                          | [] => raise IndexError
                          end) ;;
    data <- read_file backup_file ;;
    if String.eqb (sha256_hex data) expected_checksum then
      print "Checksum verified" ;; ret true
    else
      print "Checksum mismatch! File may be corrupted." ;; ret false
  else ret true.

(** [tar.extractall(dest)]: each member in turn, with its parents. *)
Definition extract_members (dest : path) (members : list (path * node)) (m : fsmap) : fsmap :=
  fold_left (fun m e => fs_put (mkdirs m (dest ++ removelast (fst e))) (dest ++ fst e) (snd e))
            members m.

Definition extract_archive (backup_file : path) (extract_dir : path) : M unit :=
  data <- read_file backup_file ;;
  match untar data with
  | Some members => fun m => (Ret tt, extract_members extract_dir members m, [])
  | None => raise ReadError
  end.

Definition restore_config_file (config_file : path) : M unit :=
  f <- is_file config_file ;;
  if f then
    let dest := [basename config_file] in
    cp config_file dest ;; print ("  " ++ basename config_file)
  else ret tt.

Definition restore_configs (restore_dir : path) : M unit :=
  print "Restoring configuration files..." ;;
  let config_dir := restore_dir ++ ["configs"%string] in
  e <- path_exists config_dir ;;
  if e then
    entries <- iterdir listdir config_dir ;;
    for_ entries restore_config_file
  else ret tt.

(** [volume_backup.stem.replace(".tar", "")] *)
Definition volume_name_of (volume_backup : path) : string :=
  py_replace (py_stem (basename volume_backup)) ".tar" "".

Definition restore_volumes (restore_dir : path) : M unit :=
  print "Restoring Docker volumes..." ;;
  print "This will stop running containers..." ;;
  _ <- run stop_argv None ;;
  let volumes_dir := restore_dir ++ ["volumes"%string] in
  e <- path_exists volumes_dir ;;
  if e then
    backups <- glob_tar_gz listdir volumes_dir ;;
    for_ backups (fun volume_backup =>
      _ <- import_docker_volume (volume_name_of volume_backup) volume_backup ;; ret tt)
  else ret tt.

Definition restore_from (restore_dir : path) (skip_volumes : bool) : M bool :=
  let manifest_file := restore_dir ++ ["manifest.json"%string] in
  e <- path_exists manifest_file ;;
  if negb e then print "Manifest not found in backup" ;; ret false
  else
    txt <- read_file manifest_file ;;
    manifest_v <- json_load txt ;;
    manifest <- as_dict manifest_v ;;
    print "Backup Info:" ;;
    print_u "  Created: " (get_or manifest "timestamp" "unknown") ;;
    print_u "  Format: " (get_or manifest "format" "unknown") ;;
    print_u "  Profile: " (get_or manifest "hardware_profile" "unknown") ;;
    print_u "  Environment: " (get_or manifest "environment" "unknown") ;;
    restore_configs restore_dir ;;
    (if negb skip_volumes && is_full manifest then restore_volumes restore_dir else ret tt) ;;
    rm_rf restore_temp ;;
    print "Import Complete!" ;;
    print "Next steps:" ;;
    print "  1. Review imported configuration: cat .env" ;;
    print "  2. Start services: python start_services.py" ;;
    ret true.

(** Finding the backup root: the subdirectories of the extraction
    directory, in listing order. *)
Definition locate_root (skip_volumes : bool) : M bool :=
  entries <- iterdir listdir restore_temp ;;
  backup_dirs <- query (fun m => filter (is_dir_b m) entries) ;;
  match backup_dirs with
  | [] => print "Invalid backup structure" ;; ret false
  | restore_dir :: _ => restore_from restore_dir skip_volumes
  end.

Definition import_environment (backup_file : path) (skip_volumes : bool) : M bool :=
  print_header "Importing Local AI Package" ;;
  e <- path_exists backup_file ;;
  if negb e then print ("Backup file not found: " ++ render backup_file) ;; ret false
  else
    ok <- verify_checksum backup_file ;;
    if negb ok then ret false
    else
      print "Extracting backup archive..." ;;
      mkdir restore_temp ;;
      extract_archive backup_file restore_temp ;;
      locate_root skip_volumes.

(** ** [main] *)



End Engine.


End Cli.

(* ================================================================== *)
(** * A sample runtime, to run the model on concrete inputs *)

Module Sample.
Import Json Cli.

Definition done (rc : Z) (out err : string) : completed := mkCompleted rc out err 1.

(** Two project volumes; the helper exporting [localai_a] fails. *)
Definition docker_a_fails (argv : list string) : completed :=
  match argv with
  | "docker" :: "volume" :: "ls" :: _ =>
      done 0 ("localai_a" ++ nl_str ++ "localai_b" ++ nl_str) ""
  | "docker" :: "run" :: _ :: _ :: "localai_a:/volume" :: _ => done 1 "" "tar: write error"
  | _ => done 0 "" ""
  end%string.

(** The same volumes; the helper exporting [localai_a] runs for 400 s. *)
Definition docker_a_slow (argv : list string) : completed :=
  match argv with
  | "docker" :: "volume" :: "ls" :: _ =>
      done 0 ("localai_a" ++ nl_str ++ "localai_b" ++ nl_str) ""
  | "docker" :: "run" :: _ :: _ :: "localai_a:/volume" :: _ => mkCompleted 0 "" "" 400
  | _ => done 0 "" ""
  end%string.

(** One project volume, [localai_data]. *)
Definition docker_one_volume (argv : list string) : completed :=
  match argv with
  | "docker" :: "volume" :: "ls" :: _ => done 0 ("localai_data" ++ nl_str) ""
  | _ => done 0 "" ""
  end%string.

(** An archive format: the members written as a JSON list. *)
Definition enc_member (e : path * node) : pyval :=
  PList [PList (map (fun n => PStr (bytes n)) (fst e));
         match snd e with FileN d => PStr (bytes d) | DirN => PNone end].

Definition dec_member (v : pyval) : option (path * node) :=
  match v with
  | PList [PList ps; x] =>
      let p := fold_right (fun v acc => match v, acc with
                                        | PStr s, Some l => Some (string_of_bytes s :: l)
                                        | _, _ => None
                                        end) (Some []) ps in
      match p, x with
      | Some p, PStr d => Some (p, FileN (string_of_bytes d))
      | Some p, PNone => Some (p, DirN)
      | _, _ => None
      end
  | _ => None
  end.

Definition tar_gz (ms : list (path * node)) : string :=
  string_of_bytes (dumps (PList (map enc_member ms))).

Definition untar (data : string) : option (list (path * node)) :=
  match load_text data with
  | Some (PList vs) =>
      fold_right (fun v acc => match dec_member v, acc with
                               | Some e, Some l => Some (e :: l)
                               | _, _ => None
                               end) (Some []) vs
  | _ => None
  end.

(** A stand-in digest: the length of the data in decimal. *)
Definition sha256_hex (data : string) : string :=
  string_of_bytes (int_repr (Z.of_nat (String.length data))).

Definition size_mb (n : nat) : string := "0.01".

(** Directories listed in creation order, or in the reverse order. *)
Definition listdir : listing := children.
Definition listdir_rev : listing := fun m p => rev (children m p).

(** A failing helper leaves nothing, or a truncated archive. *)
Definition no_partial (v : string) : option string := None.

Definition cwd : string := "/srv/localai".
Definition volume_tgz (v : string) : string := ("volume data of " ++ v)%string.

(** A working directory with [backups/backup.tar.gz] holding [members], and
    no checksum sidecar. *)
Definition archive_path : path := ["backups"; "backup.tar.gz"]%string.

Definition fs_with_archive (members : list (path * node)) : fsmap :=
  [(["backups"%string], DirN); (archive_path, FileN (tar_gz members))].

Definition manifest_config : pyval := PDict [(KStr (lit "format"), PStr (lit "config"))].

Definition manifest_full : pyval := PDict [(KStr (lit "format"), PStr (lit "full"))].

(** One top-level directory whose manifest has format "full". *)
Definition full_root : list (path * node) :=
  [(["a"], DirN); (["a"; "manifest.json"], FileN (string_of_bytes (dumps manifest_full)))]%string.

(** Two top-level directories, each holding a manifest. *)
Definition two_manifests : list (path * node) :=
  [(["a"], DirN); (["a"; "manifest.json"], FileN (string_of_bytes (dumps manifest_config)));
   (["b"], DirN); (["b"; "manifest.json"], FileN (string_of_bytes (dumps manifest_config)))]%string.

(** One top-level directory without a manifest. *)
Definition no_manifest : list (path * node) :=
  [(["a"], DirN); (["a"; "configs"], DirN)]%string.



(** An extracted backup root whose [configs] holds a top-level file and the
    [searxng] group export writes. *)
Definition root_a : path := restore_temp ++ ["a"%string].

Definition fs_nested_configs : fsmap :=
  [(["backups"], DirN); (["backups"; "restore_temp"], DirN);
   (["backups"; "restore_temp"; "a"], DirN);
   (["backups"; "restore_temp"; "a"; "configs"], DirN);
   (["backups"; "restore_temp"; "a"; "configs"; ".env"], FileN "KEY=1");
   (["backups"; "restore_temp"; "a"; "configs"; "searxng"], DirN);
   (["backups"; "restore_temp"; "a"; "configs"; "searxng"; "settings.yml"],
    FileN "use_default_settings: true")]%string.

(** A working directory with an empty [backups]. *)
Definition fs_backups : fsmap := [(["backups"%string], DirN)].

Definition export_dir_nightly : path := ["backups"; "nightly"]%string.

Definition fs_nightly : fsmap := fs_backups ++ [(export_dir_nightly, DirN)].

(** A bootstrap metadata file holding a JSON object (with a NaN, an
    infinity and the float 0.1 among its values), and one holding a list
    of [key, value] pairs whose key is an [int]. *)
Definition bootstrap_dict : pyval :=
  PDict [(KStr (lit "environment"), PStr (lit "private"));
         (KStr (lit "services"),
          PList [PStr (lit "ollama"); PInt 3; PFloat nan_bits; PFloat (inf_bits false);
                 PFloat 4591870180066957722])].

Definition bootstrap_pairs : pyval := PList [PList [PInt 1; PStr (lit "x")]].

Definition fs_bootstrap (v : pyval) : fsmap :=
  fs_backups ++ [([".bootstrap_metadata.json"%string], FileN (string_of_bytes (dumps v)))].


(** A Docker stand-in under which every command exits with 0 and prints [out]. *)
Definition docker_rc0 (out : string) (argv : list string) : completed := done 0 out "".



Definition fs_garbage_archive : fsmap :=
  fs_backups ++ [(archive_path, FileN "not a tar"%string)].

End Sample.

(* ================================================================== *)
(** * Properties of runs *)

Module CliProps.
Import Json Cli.

(** The lines [print_header] prints. *)
Definition header_events (text : string) : list event :=
  [Out (nl_str ++ rule60); Out (py_center 60 text); Out (rule60 ++ nl_str)]%string.

(** The subprocesses a run starts, in order. *)
Definition cmds (ev : list event) : list (list string) :=
  flat_map (fun e => match e with Cmd argv => [argv] | Out _ => [] end) ev.

(** A property of the events every run of [x] produces, whatever it
    returns or raises. *)
Definition holds {A} (Phi : list event -> Prop) (x : M A) : Prop :=
  forall m, Phi (snd (x m)).

(** A command that works on a volume during an import. *)
Definition is_volume_step (argv : list string) : bool :=
  match argv with
  | "docker" :: "volume" :: "create" :: _ => true
  | "docker" :: "run" :: _ => true
  | _ => false
  end%string.

(** Every volume command is preceded by the command stopping the
    services. *)
Definition stop_first (ev : list event) : Prop :=
  forall pre argv post, ev = pre ++ Cmd argv :: post ->
    is_volume_step argv = true -> In (Cmd stop_argv) pre.

(** A run that starts the service-stop command, or that ends in an
    exception. *)
Definition stops_or_raises {A} (t : res A * fsmap * list event) : Prop :=
  In (Cmd stop_argv) (snd t) \/ exists e, fst (fst t) = Raise e.

(** The commands an import may start: a copy, the removal of a directory,
    stopping the services, creating a volume and unpacking into it. None of
    them starts a service. *)
Definition import_command (cwd_abs : string) (argv : list string) : Prop :=
  (exists a b, argv = ["cp"; a; b]%string)
  \/ (exists p, argv = ["rm"; "-rf"; p]%string)
  \/ argv = stop_argv
  \/ (exists v, argv = ["docker"; "volume"; "create"; v]%string)
  \/ (exists v f, argv = import_argv cwd_abs v f).

Definition event_ok (P : list string -> Prop) (e : event) : Prop :=
  match e with Cmd argv => P argv | Out _ => True end.


(** The copy [restore_configs] makes of [q], to [Path(q.name)]. *)
Definition restore_step (m : fsmap) (q : path) : fsmap := cp_effect q [basename q] m.

Definition restore_events (q : path) : list event :=
  [Cmd ["cp"; render q; render [basename q]]; Out ("  " ++ basename q)]%string.

(** The two [docker] listings of an export. *)
Definition ps_argv : list string :=
  ["docker"; "ps"; "--filter"; "name=" ++ project_name; "--format"; "{{.Names}}"]%string.

Definition volume_ls_argv : list string :=
  ["docker"; "volume"; "ls"; "--filter"; "name=" ++ project_name; "--format"; "{{.Name}}"]%string.

(** The containers [get_running_containers] returns. *)
Definition listed_containers (docker : list string -> completed) : list string :=
  let r := docker ps_argv in
  if Z.eqb (returncode r) 0 then parse_names (stdout r) else [].

(** The volumes [get_docker_volumes] returns. *)
Definition listed_volumes (docker : list string -> completed) : list string :=
  let r := docker volume_ls_argv in
  if Z.eqb (returncode r) 0 then parse_names (stdout r) else [].

Definition bootstrap_file : path := [".bootstrap_metadata.json"%string].

(** The metadata [collect_metadata] gathers before merging the bootstrap
    file. *)
Definition base_metadata (docker : list string -> completed) (now_iso format : string)
  : list (pykey * pyval) :=
  [(KStr (lit "version"), PStr (lit "1.0")); (KStr (lit "timestamp"), PStr (lit now_iso));
   (KStr (lit "format"), PStr (fsdecode format));
   (KStr (lit "containers"), PList (map (fun n => PStr (lit n)) (listed_containers docker)));
   (KStr (lit "volumes"), PList (map (fun n => PStr (lit n)) (listed_volumes docker)))].


(** The invariant of an export's directory [dir] once the manifest is
    written, with respect to the working directory [m0] the export started
    from: everything below [dir/volumes] was already there in [m0]. *)
Definition export_inv (dir : path) (manifest : string) (m0 m : fsmap) : Prop :=
  (forall p n, In (p, n) m -> is_prefix (dir ++ ["volumes"%string]) p = true -> In (p, n) m0)
  /\ fs_lookup m (dir ++ ["manifest.json"%string]) = Some (FileN manifest).

(** [x] neither reads nor writes the working directory, nor prints. *)
Definition pure {A} (x : M A) : Prop := exists r, forall m, x m = (r, m, []).

(** No two keys of a dict are equal. *)
Fixpoint keys_distinct (kvs : list (pykey * pyval)) : bool :=
  match kvs with
  | [] => true
  | (k, _) :: r => forallb (fun kv => negb (key_eqb k (fst kv))) r && keys_distinct r
  end.

(** A key is a well-formed string, when it is a string. *)
Definition key_wf (k : pykey) : bool :=
  match k with KStr s => wf_str s | _ => true end.

End CliProps.

(* ================================================================== *)
(** * [validate_environment] and the whole command line *)

Module CliMore.
Import Json Cli.

Definition ch_cr : ascii := Eval compute in ascii_of_nat 13.

(** Reading a file in text mode: [\r\n] and a lone [\r] become [\n]. *)
Fixpoint univ_nl (s : list ascii) : list ascii :=
  match s with
  | [] => []
  | c :: s' =>
      if Ascii.eqb c ch_cr then
        match s' with
        | d :: s'' => if Ascii.eqb d ch_nl then ch_nl :: univ_nl s'' else ch_nl :: univ_nl s'
        | [] => [ch_nl]
        end
      else c :: univ_nl s'
  end.

(** [for line in f]: each line keeps its [\n]; a last line without one is
    yielded when it is not empty. *)
Fixpoint lines_acc (s : list ascii) (cur : list ascii) : list (list ascii) :=
  match s with
  | [] => match cur with [] => [] | _ => [rev cur] end
  | c :: s' =>
      if Ascii.eqb c ch_nl then rev (c :: cur) :: lines_acc s' []
      else lines_acc s' (c :: cur)
  end.

Definition py_lines (txt : string) : list string :=
  map string_of_list_ascii (lines_acc (univ_nl (list_ascii_of_string txt)) []).

(** [c in s] for one character. *)
Definition has_char (c : ascii) (s : string) : bool :=
  existsb (Ascii.eqb c) (list_ascii_of_string s).

(** [s.split(c, 1)] when [c in s]: the text before the first [c] and the
    text after it. *)
Fixpoint split_once_acc (c : ascii) (s : list ascii) (cur : list ascii)
  : list ascii * list ascii :=
  match s with
  | [] => (rev cur, [])
  | d :: s' => if Ascii.eqb d c then (rev cur, s') else split_once_acc c s' (d :: cur)
  end.

Definition split_once (c : ascii) (s : string) : string * string :=
  let '(a, b) := split_once_acc c (list_ascii_of_string s) [] in
  (string_of_list_ascii a, string_of_list_ascii b).

(** A [dict] from [str] to [str]: [d[k] = v] replaces the value of a key
    in place and appends a new key. *)
Fixpoint str_set (d : list (string * string)) (k v : string) : list (string * string) :=
  match d with
  | [] => [(k, v)]
  | (k', v') :: d' => if String.eqb k k' then (k', v) :: d' else (k', v') :: str_set d' k v
  end.

Fixpoint str_get (d : list (string * string)) (k : string) : option string :=
  match d with
  | [] => None
  | (k', v) :: d' => if String.eqb k k' then Some v else str_get d' k
  end.

(** One line of [.env] as [validate_environment] reads it. *)
Definition env_line (env_vars : list (string * string)) (line : string)
  : list (string * string) :=
  if has_char "=" line && negb (String.prefix "#" (py_strip line)) then
    let '(key, value) := split_once "=" line in
    str_set env_vars (py_strip key) (py_strip value)
  else env_vars.

Definition parse_env (txt : string) : list (string * string) :=
  fold_left env_line (py_lines txt) [].

Definition required_vars : list string :=
  ["POSTGRES_PASSWORD"; "N8N_ENCRYPTION_KEY"; "N8N_USER_MANAGEMENT_JWT_SECRET";
   "JWT_SECRET"; "NEO4J_AUTH"; "ENCRYPTION_KEY"]%string.

(** The issues the loop over [required_vars] appends, in order. *)
Definition var_issues (env_vars : list (string * string)) : list string :=
  flat_map (fun var =>
              match str_get env_vars var with
              | None => [("Missing required variable: " ++ var)%string]
              | Some v =>
                  if String.eqb v EmptyString || String.prefix "generate-" v
                  then [("Variable not set: " ++ var)%string]
                  else []
              end) required_vars.

(** [[name for name in ...]] is empty *)
Definition is_nil {A} (l : list A) : bool := match l with [] => true | _ => false end.

(** The exit status of the interpreter after the command line: [Some c]
    is [sys.exit(c)], [None] a return from [main], an exception escaping
    it ends the interpreter with status 1. *)
Definition exit_code (r : res (option Z)) : Z :=
  match r with Ret None => 0 | Ret (Some c) => c | Raise _ => 1 end.

Inductive args : Type :=
| ArgsNone
| ArgsExport (output : option string) (format : string)
| ArgsImport (backup_file : path) (skip_volumes : bool)
| ArgsValidate
| ArgsEncrypt
| ArgsDecrypt
| ArgsSetupGitea
| ArgsSync (push pull : bool).

Section Commands.

(** How each command completes when its executable is installed. *)
Variable docker : list string -> completed.
(** Which executables are on the [PATH]. *)
Variable installed : string -> bool.
(** The text [parser.print_help()] prints. *)
Variable help_text : string.
Variables now_stamp now_iso cwd_abs : string.
Variable volume_tgz : string -> string.
Variable tar_gz : list (path * node) -> string.
Variable untar : string -> option (list (path * node)).
Variable sha256_hex : string -> string.
Variable size_mb : nat -> string.
Variable listdir : listing.
Variable partial_tgz : string -> option string.
(** What the Python scripts started by [encrypt], [setup-gitea] and
    [sync-infisical] do to the working directory. *)
Variable script_effect : list string -> fsmap -> fsmap.

(** [subprocess.run(argv)]: [FileNotFoundError] when the executable is
    not installed, before anything is started. *)
Definition run_tool (argv : list string) : M completed :=
  match argv with
  | prog :: _ => if installed prog then run docker argv None else raise FileNotFoundError
  | [] => raise IndexError
  end.

(** [subprocess.run(["python", script, ...])]: the script runs to its end
    and changes the working directory; its exit status is not looked at.
    The other tools ([docker] and [sops] probes, [sops --decrypt] with its
    output captured) write no file. *)
Definition run_script (argv : list string) : M completed :=
  fun m =>
    match run_tool argv m with
    | (Ret r, m', ev) => (Ret r, script_effect argv m', ev)
    | other => other
    end.

Definition env_checks : M (list string) :=
  e <- path_exists [".env"%string] ;;
  if negb e then ret [".env file not found"%string]
  else
    print ".env file exists" ;;
    txt <- read_file [".env"%string] ;;
    let issues := var_issues (parse_env txt) in
    (if is_nil issues then print "All required variables are set" else ret tt) ;;
    ret issues.

Definition tool_warning (tool : string) : M (list string) :=
  r <- run_tool [tool; "--version"]%string ;;
  if negb (Z.eqb (returncode r) 0)
  then ret [(tool ++ " is not installed (optional - needed for encryption)")%string]
  else ret [].

Definition validate_environment : M bool :=
  print_header "Validating Environment" ;;
  issues1 <- env_checks ;;
  r1 <- run_tool ["docker"; "--version"]%string ;;
  issues2 <- (if Z.eqb (returncode r1) 0
              then print "Docker is installed" ;; ret []
              else ret ["Docker is not installed or not running"%string]) ;;
  r2 <- run_tool ["docker"; "compose"; "version"]%string ;;
  issues3 <- (if Z.eqb (returncode r2) 0
              then print "Docker Compose is installed" ;; ret []
              else ret ["Docker Compose is not installed"%string]) ;;
  w1 <- tool_warning "sops" ;;
  w2 <- tool_warning "age" ;;
  let issues := issues1 ++ issues2 ++ issues3 in
  let warnings := w1 ++ w2 in
  print (nl_str ++ rule60) ;;
  (if negb (is_nil issues) then
     print "Validation Failed" ;;
     print (nl_str ++ "Issues found:") ;;
     for_ issues (fun issue => print ("  " ++ issue))
   else print "Validation Passed") ;;
  (if negb (is_nil warnings) then
     print (nl_str ++ "Warnings:") ;;
     for_ warnings (fun warning => print ("  " ++ warning))
   else ret tt) ;;
  ret (Nat.eqb (length issues) 0).

Definition sync_argv (push pull : bool) : list string :=
  ["python"; "scripts/infisical_sync.py"]%string
    ++ (if push then ["--push"%string] else if pull then ["--pull"%string] else []).

(** [main()] after [parser.parse_args()]: [LocalAICLI()] creates
    [backups] once a command is given. *)
Definition cli_main (a : args) : M (option Z) :=
  match a with
  | ArgsNone => print help_text ;; ret (Some 1%Z)
  | ArgsExport output format =>
      mkdir backup_dir ;;
      _ <- export_environment docker now_stamp now_iso cwd_abs volume_tgz tar_gz sha256_hex
             size_mb partial_tgz output format ;;
      ret None
  | ArgsImport backup_file skip_volumes =>
      mkdir backup_dir ;;
      _ <- import_environment docker cwd_abs untar sha256_hex listdir backup_file skip_volumes ;;
      ret None
  | ArgsValidate =>
      mkdir backup_dir ;;
      ok <- validate_environment ;;
      if ok then ret None else ret (Some 1%Z)
  | ArgsEncrypt =>
      mkdir backup_dir ;;
      print "Running SOPS encryption..." ;;
      _ <- run_script ["python"; "scripts/encrypt_secrets.py"]%string ;;
      ret None
  | ArgsDecrypt =>
      mkdir backup_dir ;;
      print "Decrypting .env.enc with SOPS..." ;;
      r <- run_tool ["sops"; "--decrypt"; ".env.enc"]%string ;;
      if Z.eqb (returncode r) 0 then
        write_file [".env"%string] (stdout r) ;;
        print "Decrypted to .env" ;;
        ret None
      else
        print ("Decryption failed: " ++ stderr r) ;;
        ret (Some 1%Z)
  | ArgsSetupGitea =>
      mkdir backup_dir ;;
      print "Setting up Gitea..." ;;
      _ <- run_script ["python"; "scripts/gitea_setup.py"]%string ;;
      ret None
  | ArgsSync push pull =>
      mkdir backup_dir ;;
      _ <- run_script (sync_argv push pull) ;;
      ret None
  end.

End Commands.


(** ** Conditions on the texts the commands read *)

(** No whitespace in [s] ([str.isspace] is false for every character). *)
Definition no_ws (s : string) : bool :=
  forallb (fun c => negb (py_isspace c)) (list_ascii_of_string s).


(** The output of a listing command printing one name per line. *)
Fixpoint name_lines (names : list string) : string :=
  match names with
  | [] => EmptyString
  | n :: ns => (n ++ nl_str ++ name_lines ns)%string
  end.

(** No dot in a volume name. *)
Definition no_dot (v : string) : bool :=
  forallb (fun c => negb (Ascii.eqb c ".")) (list_ascii_of_string v).


(** The working directory once [LocalAICLI()] has made sure [backups]
    exists (when [backups] is no regular file). *)
Definition with_backups (m : fsmap) : fsmap :=
  if is_dir_b m backup_dir then m else fs_put m backup_dir DirN.

End CliMore.


(* ================================================================== *)
(** * Facts about the JSON layer *)

Module JsonFacts.
Import Json.
Local Open Scope Z_scope.

Section PyvalInd.
Variable P : pyval -> Prop.
Hypothesis HNone : P PNone.
Hypothesis HBool : forall b, P (PBool b).
Hypothesis HInt : forall z, P (PInt z).
Hypothesis HFloat : forall f, P (PFloat f).
Hypothesis HStr : forall s, P (PStr s).
Hypothesis HList : forall xs, Forall P xs -> P (PList xs).
Hypothesis HDict : forall kvs, Forall (fun kv => P (snd kv)) kvs -> P (PDict kvs).

Fixpoint pyval_ind' (v : pyval) : P v :=
  match v with
  | PNone => HNone
  | PBool b => HBool b
  | PInt z => HInt z
  | PFloat f => HFloat f
  | PStr s => HStr s
  | PList xs =>
      HList xs ((fix go (l : list pyval) : Forall P l :=
                   match l with
                   | [] => Forall_nil _
                   | x :: l' => Forall_cons x (pyval_ind' x) (go l')
                   end) xs)
  | PDict kvs =>
      HDict kvs ((fix go (l : list (pykey * pyval))
                    : Forall (fun kv => P (snd kv)) l :=
                    match l with
                    | [] => Forall_nil _
                    | (k, x) :: l' =>
                        @Forall_cons _ (fun kv => P (snd kv)) (k, x) l'
                          (pyval_ind' x) (go l')
                    end) kvs)
  end.
End PyvalInd.

(** ** Bits *)

Lemma lor_shiftl_small a k b :
  0 <= k -> 0 <= b < 2 ^ k -> Z.lor (Z.shiftl a k) b = Z.shiftl a k + b.
Proof.
  intros Hk Hb.
  assert (Hl : Z.land (Z.shiftl a k) b = 0).
  { apply Z.bits_inj'. intros n Hn. rewrite Z.land_spec, Z.bits_0.
    destruct (Z.lt_ge_cases n k) as [Hlt|Hge].
    - rewrite Z.shiftl_spec_low by lia. reflexivity.
    - rewrite <- (Z.mod_small b (2 ^ k)) by lia.
      rewrite Z.mod_pow2_bits_high by lia. apply andb_false_r. }
  rewrite <- Z.lxor_lor by exact Hl. rewrite <- Z.add_nocarry_lxor by exact Hl.
  reflexivity.
Qed.

Lemma join_split c :
  65536 <= c < 1114112 ->
  let h := 55296 - Z.shiftr 65536 10 + Z.shiftr c 10 in
  let l := 56320 + Z.land c 1023 in
  is_high h = true /\ is_low l = true /\ 0 <= h < 65536 /\ 0 <= l < 65536 /\
  join_surrogates h l = c.
Proof.
  intros Hc h l.
  assert (Hq : Z.shiftr c 10 = c / 1024) by (rewrite Z.shiftr_div_pow2 by lia; reflexivity).
  assert (Hr : Z.land c 1023 = c mod 1024)
    by (change 1023 with (Z.ones 10); rewrite Z.land_ones by lia; reflexivity).
  assert (Hd := Z.div_mod c 1024 ltac:(lia)).
  assert (Hm := Z.mod_pos_bound c 1024 ltac:(lia)).
  assert (H1 : 64 <= c / 1024 < 1088) by (split; [apply Z.div_le_lower_bound | apply Z.div_lt_upper_bound]; lia).
  subst h l. rewrite Hq, Hr. change (Z.shiftr 65536 10) with 64.
  unfold is_high, is_low, join_surrogates.
  refine (conj _ (conj _ (conj _ (conj _ _)))).
  - apply andb_true_iff; split; apply Z.leb_le; lia.
  - apply andb_true_iff; split; apply Z.leb_le; lia.
  - lia.
  - lia.
  - change 1023 with (Z.ones 10). rewrite !Z.land_ones by lia.
    replace (55296 - 64 + c / 1024) with ((c / 1024 - 64) + 54 * 1024) by lia.
    rewrite Z.mod_add by lia. rewrite Z.mod_small by lia.
    replace (56320 + c mod 1024) with (c mod 1024 + 55 * 1024) by lia.
    rewrite Z.mod_add by lia. rewrite (Z.mod_small (c mod 1024)) by lia.
    rewrite lor_shiftl_small by (change (2 ^ 10) with 1024; lia).
    rewrite Z.shiftl_mul_pow2 by lia. change (2 ^ 10) with 1024. lia.
Qed.

Lemma hex_val_digit n : 0 <= n < 16 -> hex_val (hex_digit n) = Some n.
Proof.
  intros Hn.
  destruct (Z_of_nat_complete_inf n ltac:(lia)) as [k ->].
  assert (Hk : (k < 16)%nat) by lia.
  do 16 (destruct k as [|k]; [reflexivity|]). lia.
Qed.

Lemma nibble c k : 0 <= k -> Z.land (Z.shiftr c k) 15 = (c / 2 ^ k) mod 16.
Proof.
  intros Hk. change 15 with (Z.ones 4). rewrite Z.land_ones by lia.
  rewrite Z.shiftr_div_pow2 by lia. reflexivity.
Qed.

(** Every 16-bit code unit reads back from its [\uXXXX] escape. *)
Lemma hex4_u_escape c :
  0 <= c < 65536 ->
  exists a b d e, u_escape c = [92; 117; a; b; d; e] /\ hex4 a b d e = Some c.
Proof.
  intros Hc. unfold u_escape. do 4 eexists. split; [reflexivity|].
  assert (H0 : Z.land c 15 = c mod 16)
    by (change 15 with (Z.ones 4); rewrite Z.land_ones by lia; reflexivity).
  rewrite !nibble, H0 by lia.
  change (2 ^ 12) with 4096. change (2 ^ 8) with 256. change (2 ^ 4) with 16.
  assert (B1 := Z.mod_pos_bound (c / 4096) 16 ltac:(lia)).
  assert (B2 := Z.mod_pos_bound (c / 256) 16 ltac:(lia)).
  assert (B3 := Z.mod_pos_bound (c / 16) 16 ltac:(lia)).
  assert (B4 := Z.mod_pos_bound c 16 ltac:(lia)).
  unfold hex4. rewrite !hex_val_digit by lia.
  f_equal.
  rewrite !lor_shiftl_small; rewrite ?Z.shiftl_mul_pow2; change (2 ^ 4) with 16; try lia.
  - assert (E1 := Z.div_mod c 16 ltac:(lia)).
    assert (E2 := Z.div_mod (c / 16) 16 ltac:(lia)).
    assert (E3 := Z.div_mod (c / 256) 16 ltac:(lia)).
    assert (D2 : c / 256 = c / 16 / 16) by (rewrite Z.div_div by lia; reflexivity).
    assert (D3 : c / 4096 = c / 256 / 16) by (rewrite Z.div_div by lia; reflexivity).
    assert (S3 : c / 4096 < 16) by (apply Z.div_lt_upper_bound; lia).
    assert (S0 : 0 <= c / 4096) by (apply Z.div_pos; lia).
    rewrite (Z.mod_small (c / 4096)) by lia. lia.
Qed.

(** ** Strings *)

Lemma escape_cases c :
  wf_cp c = true ->
  (escape_cp c = [c] /\ 32 <= c <= 126 /\ c <> 92 /\ c <> 34)
  \/ (exists e, escape_cp c = [92; e] /\ simple_escape e = Some c /\ e <> 117 /\ c < 128)
  \/ (escape_cp c = u_escape c /\ 0 <= c < 65536)
  \/ (65536 <= c < 1114112 /\
      escape_cp c = u_escape (55296 - Z.shiftr 65536 10 + Z.shiftr c 10)
                    ++ u_escape (56320 + Z.land c 1023)).
Proof.
  unfold wf_cp. intros H. apply andb_true_iff in H as [H0 H1].
  apply Z.leb_le in H0. apply Z.ltb_lt in H1.
  unfold escape_cp.
  destruct ((32 <=? c) && (c <=? 126) && negb (c =? 92) && negb (c =? 34)) eqn:E1.
  { left. repeat rewrite andb_true_iff in E1. destruct E1 as [[[A B] C] D].
    apply Z.leb_le in A, B. apply negb_true_iff, Z.eqb_neq in C, D. auto. }
  right.
  destruct (c =? 92) eqn:E2; [apply Z.eqb_eq in E2; subst; left; exists 92; repeat split; try reflexivity; lia|].
  destruct (c =? 34) eqn:E3; [apply Z.eqb_eq in E3; subst; left; exists 34; repeat split; try reflexivity; lia|].
  destruct (c =? 8) eqn:E4; [apply Z.eqb_eq in E4; subst; left; exists 98; repeat split; try reflexivity; lia|].
  destruct (c =? 12) eqn:E5; [apply Z.eqb_eq in E5; subst; left; exists 102; repeat split; try reflexivity; lia|].
  destruct (c =? 10) eqn:E6; [apply Z.eqb_eq in E6; subst; left; exists 110; repeat split; try reflexivity; lia|].
  destruct (c =? 13) eqn:E7; [apply Z.eqb_eq in E7; subst; left; exists 114; repeat split; try reflexivity; lia|].
  destruct (c =? 9) eqn:E8; [apply Z.eqb_eq in E8; subst; left; exists 116; repeat split; try reflexivity; lia|].
  right. destruct (65536 <=? c) eqn:E9.
  - right. apply Z.leb_le in E9. auto.
  - left. apply Z.leb_gt in E9. auto.
Qed.

Lemma pair_free_quote R : pair_free (34 :: R) = true.
Proof. destruct R as [|? [|? [|? [|? [|? ?]]]]]; reflexivity. Qed.

Lemma pair_free_escape d X :
  wf_cp d = true -> pair_free (escape_cp d ++ X) = negb (is_low d).
Proof.
  intros Hd. destruct (escape_cases d Hd) as [(E & B & N1 & N2)|[(e & E & _ & He & B)|[(E & B)|(B & E)]]];
    rewrite E.
  - assert (Hl : is_low d = false) by (unfold is_low; apply andb_false_iff; left; apply Z.leb_gt; lia).
    rewrite Hl. destruct X as [|? [|? [|? [|? [|? ?]]]]]; try reflexivity.
    cbn [app pair_free]. replace (d =? 92) with false by (symmetry; apply Z.eqb_neq; lia).
    reflexivity.
  - assert (Hl : is_low d = false) by (unfold is_low; apply andb_false_iff; left; apply Z.leb_gt; lia).
    rewrite Hl. destruct X as [|? [|? [|? [|? ?]]]]; try reflexivity.
    cbn [app pair_free]. replace (e =? 117) with false by (symmetry; apply Z.eqb_neq; lia).
    rewrite andb_false_r. reflexivity.
  - destruct (hex4_u_escape d B) as (a & b & c & e & U & H). rewrite U in *.
    cbn [app pair_free]. rewrite H. reflexivity.
  - destruct (join_split d B) as (Hh & _ & Bh & _).
    destruct (hex4_u_escape _ Bh) as (a & b & c & e & U & H). rewrite U.
    cbn [app pair_free]. rewrite H.
    assert (Hl : is_low d = false) by (unfold is_low; apply andb_false_iff; right; apply Z.leb_gt; lia).
    assert (Hl' : is_low (55296 - Z.shiftr 65536 10 + Z.shiftr d 10) = false).
    { unfold is_high, is_low in *. apply andb_true_iff in Hh as [_ Hh]. apply Z.leb_le in Hh.
      apply andb_false_iff. left. apply Z.leb_gt. lia. }
    rewrite Hl, Hl'. reflexivity.
Qed.

Lemma scan_one c X acc :
  wf_cp c = true -> (is_high c = true -> pair_free X = true) ->
  scan_str (escape_cp c ++ X) acc = scan_str X (c :: acc).
Proof.
  intros Hc Hp. destruct (escape_cases c Hc) as [(E & B & N1 & N2)|[(e & E & He & Hu & _)|[(E & B)|(B & E)]]];
    rewrite E.
  - cbn [app scan_str].
    replace (c =? 34) with false by (symmetry; apply Z.eqb_neq; lia).
    replace (c =? 92) with false by (symmetry; apply Z.eqb_neq; lia).
    replace (c <? 32) with false by (symmetry; apply Z.ltb_ge; lia). reflexivity.
  - cbn [app scan_str]. replace (e =? 117) with false by (symmetry; apply Z.eqb_neq; lia).
    rewrite He. reflexivity.
  - destruct (hex4_u_escape c B) as (a & b & d & e & U & H). rewrite U.
    cbn [app scan_str]. rewrite H. cbn - [is_high hex4].
    destruct (is_high c) eqn:Hh; [|reflexivity].
    specialize (Hp eq_refl). unfold pair_free in Hp.
    destruct X as [|x1 [|x2 [|x3 [|x4 [|x5 [|x6 X]]]]]]; try reflexivity.
    destruct ((x1 =? 92) && (x2 =? 117)); [|reflexivity].
    destruct (hex4 x3 x4 x5 x6) as [n|]; [|discriminate].
    apply negb_true_iff in Hp. rewrite Hp. reflexivity.
  - destruct (join_split c B) as (Hh & Hl & Bh & Bl & J).
    set (h := 55296 - Z.shiftr 65536 10 + Z.shiftr c 10) in *.
    set (l := 56320 + Z.land c 1023) in *. clearbody h l.
    destruct (hex4_u_escape _ Bh) as (a & b & d & e & U & H). rewrite U.
    destruct (hex4_u_escape _ Bl) as (a' & b' & d' & e' & U' & H'). rewrite U'.
    cbn [app scan_str]. rewrite H. cbn - [is_high hex4 is_low join_surrogates].
    rewrite Hh, H', Hl, J. reflexivity.
Qed.

(** A dumped string scans back to itself. *)
Lemma scan_escaped s : forall R acc,
  forallb wf_cp s = true -> no_split_pair s = true ->
  scan_str (flat_map escape_cp s ++ 34 :: R) acc = Some (rev acc ++ s, R).
Proof.
  induction s as [|c s IH]; intros R acc Hw Hn.
  - cbn. rewrite app_nil_r. reflexivity.
  - cbn [forallb] in Hw. apply andb_true_iff in Hw as [Hc Hw].
    assert (Hn' : no_split_pair s = true).
    { destruct s; [reflexivity|]. cbn [no_split_pair] in Hn. apply andb_true_iff in Hn. tauto. }
    cbn [flat_map]. rewrite <- app_assoc, scan_one by
      (first [ exact Hc
             | intros Hh; destruct s as [|d s]; [apply pair_free_quote|];
               cbn [flat_map forallb] in Hw |- *; apply andb_true_iff in Hw as [Hd _];
               rewrite <- app_assoc, pair_free_escape by exact Hd;
               cbn [no_split_pair] in Hn; rewrite Hh in Hn; cbn in Hn;
               apply andb_true_iff in Hn as [Hn _]; exact Hn ]).
    rewrite IH by assumption. cbn. rewrite <- app_assoc. reflexivity.
Qed.

(** ** Numbers, and what may follow them *)

Lemma follow_ok_cases rest :
  follow_ok rest = true -> rest = [] \/ exists c r, rest = c :: r /\ (c = 44 \/ c = 10).
Proof.
  destruct rest as [|c r]; [auto|]. cbn. intros H. right. exists c, r. split; [reflexivity|].
  apply orb_true_iff in H as [H|H]; apply Z.eqb_eq in H; auto.
Qed.

Ltac follow_cases H :=
  destruct (follow_ok_cases _ H) as [->|(?c & ?r & -> & [-> | ->])].

Lemma take_digits_app s rest :
  follow_ok rest = true ->
  take_digits (s ++ rest) = (fst (take_digits s), snd (take_digits s) ++ rest).
Proof.
  intros Hf. induction s as [|c s IH].
  - follow_cases Hf; reflexivity.
  - cbn [app take_digits]. destruct (is_digit c); [|reflexivity].
    rewrite IH. destruct (take_digits s). reflexivity.
Qed.

Lemma take_frac_app s rest :
  follow_ok rest = true ->
  take_frac (s ++ rest) = (fst (take_frac s), snd (take_frac s) ++ rest).
Proof.
  intros Hf. destruct s as [|c [|d s]].
  - follow_cases Hf; try reflexivity; destruct r; reflexivity.
  - follow_cases Hf; [reflexivity| |]; cbn; rewrite andb_false_r; reflexivity.
  - cbn [app take_frac]. destruct ((c =? 46) && is_digit d); [|reflexivity].
    change (d :: s ++ rest) with ((d :: s) ++ rest). rewrite take_digits_app by exact Hf.
    destruct (take_digits (d :: s)). reflexivity.
Qed.

Lemma take_exp_app s rest :
  follow_ok rest = true ->
  take_exp (s ++ rest) = (fst (take_exp s), snd (take_exp s) ++ rest).
Proof.
  intros Hf. destruct s as [|c r].
  - follow_cases Hf; reflexivity.
  - cbn [app take_exp]. destruct ((c =? 101) || (c =? 69)); [|reflexivity].
    destruct r as [|sg r].
    + follow_cases Hf; reflexivity.
    + cbn [app].
      destruct (sg =? 45); [|destruct (sg =? 43)];
        first [ rewrite (take_digits_app r rest Hf)
              | change (sg :: r ++ rest) with ((sg :: r) ++ rest);
                rewrite (take_digits_app (sg :: r) rest Hf) ];
        match goal with |- context [take_digits ?x] => destruct (take_digits x) as [u r2] end;
        destruct u; reflexivity.
Qed.

Lemma parse_number_app s rest :
  follow_ok rest = true ->
  parse_number (s ++ rest) =
  match parse_number s with Some (v, r) => Some (v, r ++ rest) | None => None end.
Proof.
  intros Hf. unfold parse_number.
  assert (Hs : forall s1, take_digits (s1 ++ rest) = (fst (take_digits s1), snd (take_digits s1) ++ rest))
    by (intros; apply take_digits_app, Hf).
  destruct s as [|c s].
  - follow_cases Hf; reflexivity.
  - cbn [app]. destruct (c =? 45);
      [ rewrite (Hs s) | change (c :: s ++ rest) with ((c :: s) ++ rest); rewrite (Hs (c :: s)) ];
      match goal with |- context [take_digits ?x] => destruct (take_digits x) as [u r] end;
      cbn [fst snd];
      rewrite (take_frac_app r rest Hf); destruct (take_frac r) as [fr r2]; cbn [fst snd];
      rewrite (take_exp_app r2 rest Hf); destruct (take_exp r2) as [ex r3]; cbn [fst snd];
      destruct fr, ex; try destruct (Nat.ltb _ _);
      destruct u as [|u|u|u|u|u|u|u|u|u|u]; try destruct u; reflexivity.
Qed.

Lemma strip_lit_app p s rest :
  forallb (fun c => negb ((c =? 44) || (c =? 10))) p = true -> follow_ok rest = true ->
  strip_lit p (s ++ rest) = match strip_lit p s with Some r => Some (r ++ rest) | None => None end.
Proof.
  intros Hp Hf. revert s. induction p as [|a p IH]; intros s; [reflexivity|].
  cbn [forallb] in Hp. apply andb_true_iff in Hp as [Ha Hp].
  destruct s as [|b s].
  - cbn [app strip_lit]. follow_cases Hf; [reflexivity| |];
      cbn [strip_lit]; replace (a =? _) with false; try reflexivity;
      symmetry; apply Z.eqb_neq; intros ->; discriminate.
  - cbn [app strip_lit]. destruct (a =? b); [apply IH, Hp | reflexivity].
Qed.

Lemma parse_scalar_app s rest :
  follow_ok rest = true ->
  parse_scalar (s ++ rest) =
  match parse_scalar s with Some (v, r) => Some (v, r ++ rest) | None => None end.
Proof.
  intros Hf. unfold parse_scalar.
  repeat rewrite strip_lit_app by (exact Hf || reflexivity).
  repeat match goal with |- context [strip_lit ?p s] => destruct (strip_lit p s); [reflexivity|] end.
  apply parse_number_app, Hf.
Qed.

Lemma take_digits_uint u : take_digits (uint_digits u) = (u, []).
Proof. induction u; cbn [uint_digits take_digits]; try rewrite IHu; reflexivity. Qed.

Lemma nzhead_not_D0 u w : Decimal.nzhead u <> Decimal.D0 w.
Proof. induction u; simpl; congruence. Qed.

Lemma to_uint_no_leading_zero (p : positive) w : Pos.to_uint p <> Decimal.D0 w.
Proof.
  intros E.
  assert (Hn : Pos.to_uint p = Decimal.unorm (Pos.to_uint p)).
  { rewrite <- DecimalPos.Unsigned.to_of, DecimalPos.Unsigned.of_to. reflexivity. }
  rewrite E in Hn. unfold Decimal.unorm in Hn. simpl in Hn.
  destruct (Decimal.nzhead w) eqn:Hz.
  - apply (DecimalPos.Unsigned.to_uint_nonzero p). rewrite E. congruence.
  - exact (nzhead_not_D0 _ _ Hz).
  - congruence. - congruence. - congruence. - congruence. - congruence.
  - congruence. - congruence. - congruence. - congruence.
Qed.

Lemma of_uint_to_uint (p : positive) : Z.of_uint (Pos.to_uint p) = Zpos p.
Proof. unfold Z.of_uint. rewrite DecimalPos.Unsigned.of_to. reflexivity. Qed.

Lemma parse_number_uint (p : positive) (neg : bool) :
  (Decimal.nb_digits (Pos.to_uint p) <= max_str_digits)%nat ->
  parse_number ((if neg then [45] else []) ++ uint_digits (Pos.to_uint p)) =
  Some (PInt (if neg then Zneg p else Zpos p), []).
Proof.
  intros Hn. pose proof (take_digits_uint (Pos.to_uint p)) as Ht.
  pose proof (of_uint_to_uint p) as Hz.
  pose proof (to_uint_no_leading_zero p) as H0.
  pose proof (DecimalPos.Unsigned.to_uint_nonnil p) as Hnil.
  apply Nat.ltb_ge in Hn.
  unfold parse_number.
  destruct (Pos.to_uint p) eqn:E;
    [ congruence | exfalso; eapply H0; reflexivity | .. ];
    destruct neg; cbn [uint_digits app] in Ht |- *;
    cbn -[take_digits uint_digits Z.of_uint Nat.ltb Decimal.nb_digits] in Ht |- *;
    rewrite Ht; cbn -[Z.of_uint Nat.ltb Decimal.nb_digits]; rewrite Hn, Hz; reflexivity.
Qed.

Lemma is_digit_uint u : forallb is_digit (uint_digits u) = true.
Proof. induction u; cbn [uint_digits forallb]; rewrite ?IHu; reflexivity. Qed.

Lemma int_repr_head z :
  (exists c t, int_repr z = c :: t /\ is_digit c = true)
  \/ (exists c t, int_repr z = 45 :: c :: t /\ is_digit c = true).
Proof.
  destruct z as [|p|p].
  - left. exists 48, []. auto.
  - left. unfold int_repr. pose proof (is_digit_uint (Pos.to_uint p)) as H.
    pose proof (DecimalPos.Unsigned.to_uint_nonnil p) as Hnil.
    destruct (uint_digits (Pos.to_uint p)) as [|c t] eqn:E.
    + destruct (Pos.to_uint p); [congruence| ..]; discriminate.
    + exists c, t. cbn in H. apply andb_true_iff in H. tauto.
  - right. unfold int_repr. pose proof (is_digit_uint (Pos.to_uint p)) as H.
    pose proof (DecimalPos.Unsigned.to_uint_nonnil p) as Hnil.
    destruct (uint_digits (Pos.to_uint p)) as [|c t] eqn:E.
    + destruct (Pos.to_uint p); [congruence| ..]; discriminate.
    + exists c, t. cbn in H. apply andb_true_iff in H. tauto.
Qed.

Ltac eval_lits :=
  repeat match goal with
  | |- context [lit ?s] => let v := eval vm_compute in (lit s) in change (lit s) with v
  end.

Ltac neq_digit :=
  repeat match goal with
  | H : is_digit ?c = true |- context [?a =? ?c] =>
      replace (a =? c) with false
        by (symmetry; apply Z.eqb_neq; unfold is_digit in H;
            apply andb_true_iff in H as [H1 H2]; apply Z.leb_le in H1, H2; lia)
  end.

(** A text that starts like a number is read as one. *)
Lemma parse_scalar_num s :
  (exists c t, s = c :: t /\ is_digit c = true)
  \/ (exists c t, s = 45 :: c :: t /\ is_digit c = true) ->
  parse_scalar s = parse_number s.
Proof.
  intros [(c & t & -> & Hc)|(c & t & -> & Hc)]; unfold parse_scalar; eval_lits;
    cbn [strip_lit]; neq_digit; reflexivity.
Qed.

Lemma parse_scalar_int z :
  int_ok z = true -> parse_scalar (int_repr z) = Some (PInt z, []).
Proof.
  intros Hok. rewrite parse_scalar_num by apply int_repr_head.
  destruct z as [|p|p].
  - reflexivity.
  - apply (parse_number_uint p false). cbn in Hok. apply Nat.leb_le, Hok.
  - apply (parse_number_uint p true). cbn in Hok. apply Nat.leb_le, Hok.
Qed.

(** ** Floats *)

Lemma format_repr_head neg ds decpt :
  forallb num_char ds = true ->
  exists c t, format_repr neg ds decpt = c :: t /\ num_char c = true.
Proof.
  intros Hds. unfold format_repr. destruct neg; [exists 45; eexists; split; reflexivity|].
  cbn [app].
  destruct ((decpt <=? -4) || (16 <? decpt)) eqn:Ee.
  - destruct ds as [|d [|d2 r]].
    + do 2 eexists; split; reflexivity.
    + cbn in Hds. rewrite andb_true_r in Hds. do 2 eexists; split; [reflexivity|exact Hds].
    + cbn in Hds. apply andb_true_iff in Hds as [Hd _]. do 2 eexists; split; [reflexivity|exact Hd].
  - apply orb_false_iff in Ee as [E1 _]. apply Z.leb_gt in E1.
    destruct (decpt <=? 0) eqn:E0; [do 2 eexists; split; reflexivity|].
    apply Z.leb_gt in E0.
    destruct (decpt <? Z.of_nat (length ds)).
    + destruct ds as [|d r]; [rewrite firstn_nil; do 2 eexists; split; reflexivity|].
      cbn in Hds. apply andb_true_iff in Hds as [Hd _].
      destruct (Z.to_nat decpt) eqn:En; [lia|].
      do 2 eexists; split; [reflexivity|exact Hd].
    + destruct ds as [|d r].
      * destruct (Z.to_nat (decpt - Z.of_nat (length []))); do 2 eexists; split; reflexivity.
      * cbn in Hds. apply andb_true_iff in Hds as [Hd _].
        do 2 eexists; split; [reflexivity|exact Hd].
Qed.

Lemma num_char_digit c : is_digit c = true -> num_char c = true.
Proof. unfold num_char. intros ->. reflexivity. Qed.

Lemma num_char_int_repr z : forallb num_char (int_repr z) = true.
Proof.
  assert (H : forall u, forallb num_char (uint_digits u) = true).
  { intros u. pose proof (is_digit_uint u) as H. induction (uint_digits u) as [|c l IH]; [reflexivity|].
    cbn in H |- *. apply andb_true_iff in H as [H1 H2]. rewrite num_char_digit, IH; auto. }
  destruct z; cbn [int_repr forallb]; rewrite ?H; reflexivity.
Qed.

Lemma float_text_head f :
  exists c t, float_text f = c :: t /\ (num_char c = true \/ c = 78 \/ c = 73).
Proof.
  unfold float_text. destruct (f_is_nan f); [do 2 eexists; split; [reflexivity|auto]|].
  destruct (f_is_inf f); [destruct (f_sign f); do 2 eexists; split; [reflexivity|auto|reflexivity|auto]|].
  unfold float_repr. destruct (f_is_zero f).
  - destruct (format_repr_head (f_sign f) [48] 1 eq_refl) as (c & t & E & H).
    rewrite E. eauto.
  - destruct (shortest _ _ _ _ _ _) as [c j]. destruct (strip_zeros _ _ _) as [c' j'].
    destruct (format_repr_head (f_sign f) (int_repr c') (Z.of_nat (length (int_repr c')) + j')
                (num_char_int_repr c')) as (c0 & t & E & H).
    rewrite E. eauto.
Qed.

Lemma reads_back_parse f :
  reads_back f = true -> parse_scalar (float_text f) = Some (PFloat f, []).
Proof.
  unfold reads_back. destruct (parse_scalar (float_text f)) as [[v r]|]; [|discriminate].
  destruct v; try discriminate. destruct r; [|discriminate].
  intros H. apply Z.eqb_eq in H. subst. reflexivity.
Qed.

(** ** Layout *)

Lemma skip_ws_spaces n r : skip_ws (repeat 32 n ++ r) = skip_ws r.
Proof. induction n; simpl; auto. Qed.

Lemma skip_ws_nl k r : skip_ws (nl k ++ r) = skip_ws r.
Proof. unfold nl. simpl. apply skip_ws_spaces. Qed.

Lemma num_char_cases c :
  num_char c = true ->
  c = 48 \/ c = 49 \/ c = 50 \/ c = 51 \/ c = 52 \/ c = 53 \/ c = 54 \/ c = 55 \/
  c = 56 \/ c = 57 \/ c = 45 \/ c = 46 \/ c = 101 \/ c = 43.
Proof.
  unfold num_char, is_digit. intros H.
  repeat rewrite orb_true_iff in H. rewrite andb_true_iff, !Z.leb_le, !Z.eqb_eq in H. lia.
Qed.

(** The first character of a dump is not blank and closes nothing. *)
Lemma dump_head lvl v :
  exists c t, dump_val lvl v = c :: t /\ is_ws c = false /\ (c =? 93) = false /\
              (c =? 125) = false.
Proof.
  destruct v as [| [] | z | f | s | [|x xs] | [|[k x] kvs]];
    try (do 2 eexists; split; [reflexivity | repeat split; reflexivity]).
  - cbn [dump_val]. destruct (int_repr_head z) as [(c & t & E & H)|(c & t & E & H)]; rewrite E;
      [|do 2 eexists; split; [reflexivity | repeat split; reflexivity]].
    apply num_char_digit, num_char_cases in H.
    do 2 eexists; split; [reflexivity|].
    repeat destruct H as [H|H]; subst; repeat split; reflexivity.
  - cbn [dump_val]. destruct (float_text_head f) as (c & t & E & [H|[H|H]]); rewrite E;
      try (subst; do 2 eexists; split; [reflexivity | repeat split; reflexivity]).
    apply num_char_cases in H.
    do 2 eexists; split; [reflexivity|].
    repeat destruct H as [H|H]; subst; repeat split; reflexivity.
Qed.

Lemma skip_ws_dump lvl v r : skip_ws (dump_val lvl v ++ r) = dump_val lvl v ++ r.
Proof.
  destruct (dump_head lvl v) as (c & t & E & Hws & _).
  rewrite E. simpl. rewrite Hws. reflexivity.
Qed.

(** A scalar's dump is read by [parse_scalar], whatever follows it. *)
Lemma parse_val_scalar f d lvl v rest :
  (forall xs, v <> PList xs) -> (forall kvs, v <> PDict kvs) -> (forall s, v <> PStr s) ->
  parse_val (S f) d (dump_val lvl v ++ rest) = parse_scalar (dump_val lvl v ++ rest).
Proof.
  intros Hl Hd Hs.
  destruct v as [| [] | z | x | s | xs | kvs];
    try (exfalso; first [eapply Hl; reflexivity | eapply Hd; reflexivity | eapply Hs; reflexivity]);
    try reflexivity.
  - cbn [dump_val]. destruct (int_repr_head z) as [(c & t & E & H)|(c & t & E & H)]; rewrite E;
      [|reflexivity].
    apply num_char_digit, num_char_cases in H.
    repeat destruct H as [H|H]; subst; reflexivity.
  - cbn [dump_val]. destruct (float_text_head x) as (c & t & E & [H|[H|H]]); rewrite E;
      try (subst; reflexivity).
    apply num_char_cases in H.
    repeat destruct H as [H|H]; subst; reflexivity.
Qed.

Lemma skip_ws_colon r : skip_ws (lit ": " ++ r) = 58 :: 32 :: r.
Proof. reflexivity. Qed.

Lemma app_single (c : Z) r : [c] ++ r = c :: r.
Proof. reflexivity. Qed.

Lemma scan_key s R :
  wf_str s = true ->
  scan_str ((flat_map escape_cp s ++ [34]) ++ R) [] = Some (s, R).
Proof.
  unfold wf_str. intros H. apply andb_true_iff in H as [H1 H2].
  rewrite <- app_assoc, app_single, scan_escaped by assumption. reflexivity.
Qed.

(** ** Dicts with distinct keys *)

Lemma ustr_eqb_sym a : forall b, ustr_eqb a b = ustr_eqb b a.
Proof.
  induction a as [|x a IH]; intros [|y b]; cbn; try reflexivity.
  rewrite Z.eqb_sym, IH. reflexivity.
Qed.

Lemma ustr_eqb_eq a : forall b, ustr_eqb a b = true <-> a = b.
Proof.
  induction a as [|x a IH]; intros [|y b]; cbn; split; intros H; try congruence.
  - apply andb_true_iff in H as [H1 H2]. apply Z.eqb_eq in H1. apply IH in H2. congruence.
  - injection H as -> ->. rewrite Z.eqb_refl. apply IH. reflexivity.
Qed.

Lemma key_eqb_sym a b : key_eqb a b = key_eqb b a.
Proof.
  destruct a, b; cbn [key_eqb]; try reflexivity.
  - destruct b, b0; reflexivity.
  - apply Z.eqb_sym.
  - rewrite (Z.eqb_sym f f0).
    destruct (f_is_nan f), (f_is_nan f0), (f_is_zero f), (f_is_zero f0); reflexivity.
  - apply ustr_eqb_sym.
Qed.

Lemma dict_set_fresh d k v :
  forallb (fun kv => negb (key_eqb k (fst kv))) d = true ->
  dict_set d k v = d ++ [(k, v)].
Proof.
  induction d as [|[k' v'] d IH]; simpl; auto.
  intros H. apply andb_true_iff in H as [H1 H2].
  destruct (key_eqb k k'); [discriminate|]. rewrite IH; auto.
Qed.

Lemma fold_dict_set_fresh l : forall d,
  (forall k, In k (map fst l) -> forallb (fun kv => negb (key_eqb k (fst kv))) d = true) ->
  str_keys_distinct l = true ->
  fold_left (fun d kv => dict_set d (fst kv) (snd kv)) l d = d ++ l.
Proof.
  induction l as [|[k v] l IH]; intros d Hfresh Hd; simpl.
  - rewrite List.app_nil_r. reflexivity.
  - simpl in Hd. apply andb_true_iff in Hd as [Hd Hrest].
    apply andb_true_iff in Hd as [_ Hnew].
    rewrite dict_set_fresh by (apply Hfresh; left; reflexivity).
    rewrite IH; [rewrite <- app_assoc; reflexivity | | exact Hrest].
    intros k' Hin. rewrite forallb_app. apply andb_true_iff. split.
    + apply Hfresh. right. exact Hin.
    + simpl. rewrite andb_true_r. rewrite key_eqb_sym.
      rewrite forallb_forall in Hnew. apply in_map_iff in Hin as ([k2 v2] & <- & Hin).
      exact (Hnew _ Hin).
Qed.

Lemma dict_of_pairs_distinct l : str_keys_distinct l = true -> dict_of_pairs l = l.
Proof.
  intros H. unfold dict_of_pairs. rewrite fold_dict_set_fresh; auto.
Qed.

Lemma str_keys_distinct_keys l :
  str_keys_distinct l = true -> forallb (fun kv => is_str_key (fst kv)) l = true.
Proof.
  induction l as [|[k v] l IH]; simpl; auto.
  intros H. apply andb_true_iff in H as [H H2]. apply andb_true_iff in H as [H1 _].
  rewrite H1, IH; auto.
Qed.

(** ** Parsing what was dumped *)

Lemma json_ok_dict fl kvs :
  json_ok fl (PDict kvs) = str_keys_distinct kvs && forallb (fun kv => json_ok fl (snd kv)) kvs.
Proof. reflexivity. Qed.

Lemma json_ok_list fl xs : json_ok fl (PList xs) = forallb (json_ok fl) xs.
Proof. reflexivity. Qed.

Lemma depth_list_elems d xs :
  (d + depth (PList xs) <= max_depth)%nat -> Forall (fun y => (S d + depth y <= max_depth)%nat) xs.
Proof.
  cbn [depth]. intros H.
  assert (Hm : (list_max (map depth xs) <= max_depth - S d)%nat) by lia.
  apply list_max_le in Hm. rewrite Forall_forall in Hm |- *. intros y Hy.
  specialize (Hm (depth y) (in_map _ _ _ Hy)). lia.
Qed.

Lemma depth_dict_elems d kvs :
  (d + depth (PDict kvs) <= max_depth)%nat ->
  Forall (fun kv => (S d + depth (snd kv) <= max_depth)%nat) kvs.
Proof.
  cbn [depth]. intros H.
  assert (Hm : (list_max (map (fun kv => depth (snd kv)) kvs) <= max_depth - S d)%nat) by lia.
  apply list_max_le in Hm. rewrite Forall_forall in Hm |- *. intros y Hy.
  specialize (Hm (depth (snd y)) (in_map (fun kv => depth (snd kv)) _ _ Hy)). lia.
Qed.

Lemma follow_sep lvl (A : ustr) rest :
  (A = [] \/ exists t, A = 44 :: t) -> follow_ok (A ++ nl lvl ++ rest) = true.
Proof. intros [->|(t & ->)]; reflexivity. Qed.

Lemma concat_sep {X} (g : X -> ustr) (xs : list X) :
  concat (map (fun y => 44 :: g y) xs) = [] \/
  exists t, concat (map (fun y => 44 :: g y) xs) = 44 :: t.
Proof. destruct xs; [left; reflexivity | right; eexists; reflexivity]. Qed.

Lemma parse_elems_dump lvl xs : forall x acc g d rest,
  Forall roundtrips (x :: xs) ->
  forallb (json_ok reads_back) (x :: xs) = true ->
  Forall (fun y => (d + depth y <= max_depth)%nat) (x :: xs) ->
  (list_sum (map (fun y => S (need y)) (x :: xs)) <= g)%nat ->
  parse_elems g d (dump_val (S lvl) x
                   ++ concat (map (fun y => 44 :: nl (S lvl) ++ dump_val (S lvl) y) xs)
                   ++ nl lvl ++ 93 :: rest) acc =
  Some (PList (rev acc ++ x :: xs), rest).
Proof.
  induction xs as [|y ys IH]; intros x acc g d rest HF Hw Hd Hs;
    destruct g as [|g]; try (simpl in Hs; lia);
    inversion HF as [|? ? Hx HF']; subst;
    inversion Hd as [|? ? Hdx Hd']; subst;
    simpl in Hw; apply andb_true_iff in Hw as [Hwx Hw];
    simpl in Hs.
  - cbn [parse_elems]. simpl concat.
    rewrite Hx by (auto; lia). rewrite app_nil_l, skip_ws_nl. reflexivity.
  - cbn [parse_elems map concat].
    rewrite Hx by (try lia; auto; reflexivity).
    repeat rewrite <- app_assoc. rewrite <- app_comm_cons.
    cbn [skip_ws is_ws orb Z.eqb Pos.eqb]. cbn iota.
    repeat rewrite <- app_assoc. rewrite skip_ws_nl, skip_ws_dump.
    rewrite IH; [ | exact HF' | exact Hw | exact Hd' | simpl; lia ].
    simpl. rewrite <- app_assoc. reflexivity.
Qed.

Lemma dump_str_key s : dump_key (KStr s) = 34 :: flat_map escape_cp s ++ [34].
Proof. reflexivity. Qed.

Lemma skip_ws_key s r : skip_ws (dump_key (KStr s) ++ r) = dump_key (KStr s) ++ r.
Proof. rewrite dump_str_key. reflexivity. Qed.

Lemma parse_members_dump lvl kvs : forall s x acc g d rest,
  Forall (fun kv => roundtrips (snd kv)) ((KStr s, x) :: kvs) ->
  forallb (fun kv => json_ok reads_back (snd kv)) ((KStr s, x) :: kvs) = true ->
  forallb (fun kv => is_str_key (fst kv)) ((KStr s, x) :: kvs) = true ->
  Forall (fun kv => (d + depth (snd kv) <= max_depth)%nat) ((KStr s, x) :: kvs) ->
  (list_sum (map (fun '(_, y) => S (need y)) ((KStr s, x) :: kvs)) <= g)%nat ->
  parse_members g d (dump_key (KStr s) ++ lit ": " ++ dump_val (S lvl) x
      ++ concat (map (fun '(k', y) => 44 :: nl (S lvl) ++ dump_key k' ++ lit ": "
                                        ++ dump_val (S lvl) y) kvs)
      ++ nl lvl ++ 125 :: rest) acc =
  Some (PDict (dict_of_pairs (rev acc ++ (KStr s, x) :: kvs)), rest).
Proof.
  induction kvs as [|[k' y] kvs IH]; intros s x acc g d rest HF Hw Hk Hd Hs;
    destruct g as [|g]; try (simpl in Hs; lia);
    inversion HF as [|? ? Hx HF']; subst; simpl in Hx;
    inversion Hd as [|? ? Hdx Hd']; subst; simpl in Hdx;
    simpl in Hw; apply andb_true_iff in Hw as [Hwx Hw];
    simpl in Hk; apply andb_true_iff in Hk as [Hks Hk];
    simpl in Hs;
    rewrite dump_str_key, <- app_comm_cons; cbn [parse_members Z.eqb Pos.eqb]; cbn iota;
    rewrite scan_key by exact Hks; cbn iota;
    rewrite skip_ws_colon; cbn [Z.eqb Pos.eqb]; cbn iota;
    change (skip_ws (32 :: ?r)) with (skip_ws r); rewrite skip_ws_dump.
  - simpl concat. rewrite app_nil_l.
    rewrite Hx by (auto; lia). rewrite skip_ws_nl. reflexivity.
  - apply andb_true_iff in Hk as [Hk' Hk].
    destruct k' as [| | | |s']; try discriminate.
    cbn [map concat].
    rewrite Hx by (try lia; auto; reflexivity).
    repeat rewrite <- app_assoc. rewrite <- app_comm_cons.
    cbn [skip_ws is_ws orb Z.eqb Pos.eqb]. cbn iota.
    repeat rewrite <- app_assoc. rewrite skip_ws_nl, skip_ws_key.
    rewrite IH; [ | exact HF' | exact Hw | exact (proj2 (andb_true_iff _ _) (conj Hk' Hk)) | exact Hd' | simpl; lia ].
    simpl. rewrite <- app_assoc. reflexivity.
Qed.

Lemma parse_open_list f d k l x R :
  (d < max_depth)%nat ->
  parse_val (S f) d (91 :: nl k ++ dump_val l x ++ R) =
  parse_elems f (S d) (dump_val l x ++ R) [].
Proof.
  intros Hd. destruct (dump_head l x) as (c & t & E & Hws & Hc & _). rewrite E.
  cbn [parse_val Z.eqb Pos.eqb]. cbn iota.
  replace (Nat.leb max_depth d) with false by (symmetry; apply Nat.leb_gt; exact Hd).
  rewrite skip_ws_nl. cbn [app skip_ws]. rewrite Hws. cbn iota. rewrite Hc.
  reflexivity.
Qed.

Lemma parse_open_dict f d k s R :
  (d < max_depth)%nat ->
  parse_val (S f) d (123 :: nl k ++ dump_key (KStr s) ++ R) =
  parse_members f (S d) (dump_key (KStr s) ++ R) [].
Proof.
  intros Hd. rewrite dump_str_key. cbn [parse_val Z.eqb Pos.eqb]. cbn iota.
  replace (Nat.leb max_depth d) with false by (symmetry; apply Nat.leb_gt; exact Hd).
  rewrite skip_ws_nl. reflexivity.
Qed.

Lemma roundtrips_all v : roundtrips v.
Proof.
  induction v as [| b | z | x | s | xs IH | kvs IH] using pyval_ind';
    intros lvl d f rest Hw Hd Hn Hf; destruct f as [|f]; try (simpl in Hn; lia).
  - reflexivity.
  - destruct b; reflexivity.
  - rewrite parse_val_scalar by discriminate. rewrite parse_scalar_app by exact Hf.
    cbn [dump_val]. rewrite parse_scalar_int by exact Hw. reflexivity.
  - rewrite parse_val_scalar by discriminate. rewrite parse_scalar_app by exact Hf.
    cbn [dump_val]. rewrite reads_back_parse by exact Hw. reflexivity.
  - change (dump_val lvl (PStr s)) with (34 :: flat_map escape_cp s ++ [34]).
    rewrite <- app_comm_cons. cbn [parse_val Z.eqb Pos.eqb]. cbn iota.
    rewrite scan_key by exact Hw. reflexivity.
  - destruct xs as [|x xs].
    + cbn [dump_val]. eval_lits. cbn [app parse_val Z.eqb Pos.eqb]. cbn iota.
      replace (Nat.leb max_depth d) with false by (symmetry; apply Nat.leb_gt; cbn in Hd; lia).
      reflexivity.
    + pose proof (depth_list_elems d _ Hd) as Hde.
      cbn [dump_val]. rewrite <- app_comm_cons. repeat rewrite <- app_assoc.
      rewrite app_single, parse_open_list by (cbn [depth] in Hd; lia).
      rewrite (parse_elems_dump lvl xs x [] f (S d) rest IH); [reflexivity | | exact Hde |].
      * rewrite json_ok_list in Hw. exact Hw.
      * simpl in Hn |- *. lia.
  - destruct kvs as [|[k x] kvs].
    + cbn [dump_val]. eval_lits. cbn [app parse_val Z.eqb Pos.eqb]. cbn iota.
      replace (Nat.leb max_depth d) with false by (symmetry; apply Nat.leb_gt; cbn in Hd; lia).
      reflexivity.
    + pose proof (depth_dict_elems d _ Hd) as Hde.
      rewrite json_ok_dict in Hw. apply andb_true_iff in Hw as [Hdist Hw].
      pose proof (str_keys_distinct_keys _ Hdist) as Hk.
      destruct k as [| | | |s]; try discriminate.
      cbn [dump_val]. rewrite <- app_comm_cons. repeat rewrite <- app_assoc.
      rewrite app_single, parse_open_dict by (cbn [depth] in Hd; lia).
      rewrite (parse_members_dump lvl kvs s x [] f (S d) rest IH Hw Hk Hde);
        [ | simpl in Hn |- *; lia ].
      rewrite app_nil_l, dict_of_pairs_distinct by exact Hdist. reflexivity.
Qed.

Lemma concat_len_ge {X} (g : X -> ustr) (n : X -> nat) xs :
  Forall (fun x => (n x <= length (g x))%nat) xs ->
  (list_sum (map n xs) <= length (concat (map g xs)))%nat.
Proof.
  induction 1 as [|x xs Hx _ IH]; [reflexivity|].
  cbn [map concat]. unfold list_sum in *. cbn [fold_right]. rewrite length_app. lia.
Qed.

Lemma float_text_nonempty f : (1 <= length (float_text f))%nat.
Proof. destruct (float_text_head f) as (c & t & E & _). rewrite E. cbn. lia. Qed.

Lemma int_repr_nonempty z : (1 <= length (int_repr z))%nat.
Proof.
  destruct (int_repr_head z) as [(c & t & E & _)|(c & t & E & _)]; rewrite E; cbn; lia.
Qed.

Lemma need_le_length v : forall lvl, (need v <= length (dump_val lvl v))%nat.
Proof.
  induction v as [| b | z | x | s | xs IH | kvs IH] using pyval_ind'; intros lvl.
  - cbn. lia.
  - destruct b; cbn; lia.
  - apply int_repr_nonempty.
  - apply float_text_nonempty.
  - cbn. lia.
  - destruct xs as [|x xs]; [cbn; lia|].
    inversion IH as [|? ? Hx IH']; subst.
    assert (Hc := concat_len_ge (fun y => 44 :: nl (S lvl) ++ dump_val (S lvl) y)
                                (fun y => S (need y)) xs).
    cbn [dump_val need map list_sum]. cbn [length]. rewrite !length_app.
    specialize (Hx (S lvl)).
    assert (Hf : Forall (fun y => (S (need y) <= length (44%Z :: nl (S lvl) ++ dump_val (S lvl) y))%nat) xs).
    { rewrite Forall_forall in IH' |- *. intros y Hy. specialize (IH' y Hy (S lvl)).
      cbn [length]. rewrite length_app. lia. }
    specialize (Hc Hf). cbn [nl length]. change (list_sum (?a :: ?l)) with (a + list_sum l)%nat. set (C := concat (map _ xs)). set (L := list_sum _) in *. assert (Hc2 : (L <= length C)%nat) by exact Hc. lia.
  - destruct kvs as [|[k x] kvs]; [cbn; lia|].
    inversion IH as [|? ? Hx IH']; subst. cbn [snd] in Hx.
    assert (Hc := concat_len_ge (fun '(k', y) => 44 :: nl (S lvl) ++ dump_key k' ++ lit ": "
                                                   ++ dump_val (S lvl) y)
                                (fun '(_, y) => S (need y)) kvs).
    cbn [dump_val need map list_sum]. cbn [length]. rewrite !length_app.
    specialize (Hx (S lvl)).
    assert (Hf : Forall (fun kv => ((let '(_, y) := kv in S (need y))
                   <= length (let '(k', y) := kv in 44%Z :: nl (S lvl) ++ dump_key k' ++ lit ": "
                                                   ++ dump_val (S lvl) y))%nat) kvs).
    { rewrite Forall_forall in IH' |- *. intros [k' y] Hy. specialize (IH' _ Hy (S lvl)).
      cbn [snd] in IH'. cbn [length]. rewrite !length_app. lia. }
    specialize (Hc Hf). cbn [nl length]. change (list_sum (?a :: ?l)) with (a + list_sum l)%nat. set (C := concat (map _ kvs)). set (L := list_sum _) in *. assert (Hc2 : (L <= length C)%nat) by exact Hc. lia.
Qed.

(** [json.loads(json.dumps(v))] gives [v] back for every value [json.load]
    can produce whose floats read back, nested at most [max_depth] deep. *)
Lemma loads_dumps v :
  json_ok reads_back v = true -> (depth v <= max_depth)%nat -> loads (dumps v) = Some v.
Proof.
  intros Hw Hd. unfold loads, dumps.
  pose proof (skip_ws_dump 0 v []) as E. rewrite List.app_nil_r in E. rewrite E.
  pose proof (roundtrips_all v 0%nat 0%nat (S (length (dump_val 0 v))) [] Hw Hd) as R.
  rewrite List.app_nil_r in R. rewrite R; [reflexivity | | reflexivity].
  pose proof (need_le_length v 0%nat). lia.
Qed.

(** ** What [json.load] produces *)

Lemma utf8_char_src s c r :
  forallb (fun b => 0 <=? b) s = true -> utf8_char s = Some (c, r) ->
  src_cp c = true /\ exists p, s = p ++ r.
Proof.
  intros Hs H. unfold src_cp, wf_cp, is_high, is_low, is_cont in *. destruct s as [|b0 s1]; [discriminate|].
  cbn [forallb] in Hs. apply andb_true_iff in Hs as [H0 Hs]. apply Z.leb_le in H0.
  cbn [utf8_char] in H. unfold is_cont in H.
  destruct (b0 <? 128) eqn:E0.
  { injection H as <- <-. apply Z.ltb_lt in E0. split; [|exists [b0]; reflexivity].
    rewrite !andb_true_iff, !negb_true_iff, !andb_false_iff, !Z.leb_le, !Z.ltb_lt, !Z.leb_gt.
    lia. }
  destruct ((194 <=? b0) && (b0 <=? 223)) eqn:E1.
  { destruct s1 as [|b1 s2]; [discriminate|]. cbn iota in H.
    destruct ((128 <=? b1) && (b1 <=? 191)) eqn:E2; [|discriminate].
    injection H as <- <-. rewrite !andb_true_iff, !Z.leb_le in E1, E2.
    split; [|exists [b0; b1]; reflexivity].
    rewrite !andb_true_iff, !negb_true_iff, !andb_false_iff, !Z.leb_le, !Z.ltb_lt, !Z.leb_gt.
    lia. }
  destruct ((224 <=? b0) && (b0 <=? 239)) eqn:E3.
  { destruct s1 as [|b1 [|b2 s3]]; try discriminate. cbn iota zeta in H.
    match type of H with (if ?C then _ else _) = _ => destruct C eqn:E4; [|discriminate] end.
    injection H as <- <-. split; [|exists [b0; b1; b2]; reflexivity].
    rewrite !andb_true_iff, !Z.leb_le in E3.
    destruct (Z.eqb_spec b0 224); destruct (Z.eqb_spec b0 237);
      rewrite !andb_true_iff, !Z.leb_le in E4;
      rewrite !andb_true_iff, !negb_true_iff, !andb_false_iff, !Z.leb_le, !Z.ltb_lt, !Z.leb_gt;
      lia. }
  destruct ((240 <=? b0) && (b0 <=? 244)) eqn:E5; [|discriminate].
  destruct s1 as [|b1 [|b2 [|b3 s4]]]; try discriminate. cbn iota zeta in H.
  match type of H with (if ?C then _ else _) = _ => destruct C eqn:E4; [|discriminate] end.
  injection H as <- <-. split; [|exists [b0; b1; b2; b3]; reflexivity].
  rewrite !andb_true_iff, !Z.leb_le in E5.
  destruct (Z.eqb_spec b0 240); destruct (Z.eqb_spec b0 244);
    rewrite !andb_true_iff, !Z.leb_le in E4;
    rewrite !andb_true_iff, !negb_true_iff, !andb_false_iff, !Z.leb_le, !Z.ltb_lt, !Z.leb_gt;
    lia.
Qed.

Lemma forallb_app_inv {X} (P : X -> bool) p r :
  forallb P (p ++ r) = true -> forallb P r = true.
Proof. rewrite forallb_app. intros H. apply andb_true_iff in H. apply H. Qed.

Lemma utf8_dec_src fuel : forall s u,
  forallb (fun b => 0 <=? b) s = true -> utf8_dec fuel s = Some u -> forallb src_cp u = true.
Proof.
  induction fuel as [|f IH]; intros s u Hs H; destruct s as [|b s1];
    try (injection H as <-; reflexivity); try discriminate.
  cbn [utf8_dec] in H.
  destruct (utf8_char (b :: s1)) as [[c r]|] eqn:E; [|discriminate].
  destruct (utf8_dec f r) as [u'|] eqn:E2; [|discriminate].
  cbn in H. injection H as <-.
  destruct (utf8_char_src _ _ _ Hs E) as [Hc [p Hp]].
  cbn [forallb]. rewrite Hc. cbn. apply (IH r); [|exact E2].
  rewrite Hp in Hs. exact (forallb_app_inv _ _ _ Hs).
Qed.

Lemma utf8_decode_src txt u : utf8_decode txt = Some u -> forallb src_cp u = true.
Proof.
  unfold utf8_decode. apply utf8_dec_src. unfold bytes.
  rewrite forallb_forall. intros b Hb. apply in_map_iff in Hb as (a & <- & _).
  apply Z.leb_le. lia.
Qed.

Lemma hex_val_range c n : hex_val c = Some n -> 0 <= n < 16.
Proof.
  unfold hex_val. intros H.
  destruct ((48 <=? c) && (c <=? 57)) eqn:E1;
    [injection H as <-; rewrite andb_true_iff, !Z.leb_le in E1; lia|].
  destruct ((97 <=? c) && (c <=? 102)) eqn:E2;
    [injection H as <-; rewrite andb_true_iff, !Z.leb_le in E2; lia|].
  destruct ((65 <=? c) && (c <=? 70)) eqn:E3;
    [injection H as <-; rewrite andb_true_iff, !Z.leb_le in E3; lia|discriminate].
Qed.

Lemma hex4_range a b c d n : hex4 a b c d = Some n -> 0 <= n < 65536.
Proof.
  unfold hex4. intros H.
  destruct (hex_val a) as [x1|] eqn:E1; [|discriminate].
  destruct (hex_val b) as [x2|] eqn:E2; [|discriminate].
  destruct (hex_val c) as [x3|] eqn:E3; [|discriminate].
  destruct (hex_val d) as [x4|] eqn:E4; [|discriminate].
  apply hex_val_range in E1, E2, E3, E4.
  assert (P4 : 2 ^ 4 = 16) by reflexivity.
  assert (L : forall a0 b0, 0 <= b0 < 16 -> Z.lor (a0 * 16) b0 = a0 * 16 + b0).
  { intros a0 b0 Hb. rewrite <- P4, <- Z.shiftl_mul_pow2 by lia.
    apply lor_shiftl_small; rewrite ?P4; lia. }
  rewrite !Z.shiftl_mul_pow2, !P4 in H by lia.
  rewrite !L in H by lia.
  assert (Hn : n = ((x1 * 16 + x2) * 16 + x3) * 16 + x4) by congruence.
  lia.
Qed.

Lemma land_1023 x : 0 <= Z.land x 1023 < 1024.
Proof.
  change 1023 with (Z.ones 10). rewrite Z.land_ones by lia.
  apply Z.mod_pos_bound. reflexivity.
Qed.

Lemma join_range h l : 65536 <= join_surrogates h l < 1114112.
Proof.
  unfold join_surrogates. pose proof (land_1023 h). pose proof (land_1023 l).
  rewrite lor_shiftl_small, Z.shiftl_mul_pow2 by (try (change (2 ^ 10) with 1024); lia).
  change (2 ^ 10) with 1024. lia.
Qed.

Lemma nsp_snoc l : forall a x,
  no_split_pair (l ++ [a; x]) = no_split_pair (l ++ [a]) && negb (is_high a && is_low x).
Proof.
  induction l as [|b l IH]; intros a x.
  - cbn. rewrite !andb_true_r. reflexivity.
  - destruct l as [|c l].
    + cbn. rewrite !andb_true_r. reflexivity.
    + specialize (IH a x). cbn in IH |- *. rewrite IH. rewrite andb_assoc. reflexivity.
Qed.

(** Pushing a code point on the scanner's output (kept last first). *)
Lemma push_ok x acc :
  wf_cp x = true ->
  (forall a t, acc = a :: t -> is_high a = true -> is_low x = false) ->
  forallb wf_cp acc = true -> no_split_pair (rev acc) = true ->
  forallb wf_cp (x :: acc) = true /\ no_split_pair (rev (x :: acc)) = true.
Proof.
  intros Hx Hh Hw Hn. cbn [forallb]. rewrite Hx, Hw. split; [reflexivity|].
  destruct acc as [|a t]; [reflexivity|].
  cbn [rev] in Hn |- *. rewrite <- app_assoc. cbn [app]. rewrite nsp_snoc, Hn.
  cbn. destruct (is_high a) eqn:E; [rewrite (Hh a t eq_refl E)|]; reflexivity.
Qed.

Lemma small_cp_ok x : 0 <= x < 55296 -> wf_cp x = true /\ is_high x = false /\ is_low x = false.
Proof.
  unfold wf_cp, is_high, is_low. intros H.
  rewrite !andb_true_iff, !andb_false_iff, !Z.leb_le, !Z.ltb_lt, !Z.leb_gt. lia.
Qed.

Lemma src_cp_ok x : src_cp x = true -> wf_cp x = true /\ is_high x = false /\ is_low x = false.
Proof.
  unfold src_cp. rewrite !andb_true_iff, !negb_true_iff. tauto.
Qed.

Lemma join_ok h l :
  wf_cp (join_surrogates h l) = true /\ is_high (join_surrogates h l) = false /\
  is_low (join_surrogates h l) = false.
Proof.
  pose proof (join_range h l). unfold wf_cp, is_high, is_low.
  rewrite !andb_true_iff, !andb_false_iff, !Z.leb_le, !Z.ltb_lt, !Z.leb_gt. lia.
Qed.

Lemma simple_escape_small e c : simple_escape e = Some c -> 0 <= c < 55296.
Proof.
  unfold simple_escape. intros H.
  repeat match type of H with
  | (if ?C then _ else _) = _ => destruct C; [injection H as <-; lia|]
  end. discriminate.
Qed.

Lemma forallb_rev {X} (P : X -> bool) l : forallb P (rev l) = forallb P l.
Proof.
  induction l as [|a l IH]; [reflexivity|]. cbn [rev]. rewrite forallb_app, IH. cbn.
  rewrite andb_true_r. apply andb_comm.
Qed.

Ltac suffix_step H := let p := fresh "p" in destruct H as [p ->];
  eexists; rewrite app_comm_cons; try rewrite !app_comm_cons; reflexivity.

Lemma scan_str_inv n : forall s acc cs r,
  (length s <= n)%nat -> forallb src_cp s = true ->
  forallb wf_cp acc = true -> no_split_pair (rev acc) = true ->
  (forall a t, acc = a :: t -> is_high a = true -> low_esc_free s = true) ->
  scan_str s acc = Some (cs, r) ->
  wf_str cs = true /\ exists p, s = p ++ r.
Proof.
  induction n as [|n IH]; intros s acc cs r Hl Hs Hw Hn Hh H;
    destruct s as [|c s1]; try discriminate; [cbn in Hl; lia|].
  cbn [length] in Hl. cbn [forallb] in Hs. apply andb_true_iff in Hs as [Hc Hs].
  cbn [scan_str] in H.
  destruct (c =? 34) eqn:E34.
  { injection H as <- <-. split; [|exists [c]; reflexivity].
    unfold wf_str. rewrite forallb_rev, Hw, Hn. reflexivity. }
  destruct (c =? 92) eqn:E92.
  - destruct s1 as [|e s2]; [discriminate|].
    cbn [forallb] in Hs. apply andb_true_iff in Hs as [He Hs].
    destruct (e =? 117) eqn:E117.
    + destruct s2 as [|h1 [|h2 [|h3 [|h4 s3]]]]; try discriminate.
      cbn [forallb] in Hs. rewrite !andb_true_iff in Hs. destruct Hs as [? [? [? [? Hs]]]].
      destruct (hex4 h1 h2 h3 h4) as [m|] eqn:Ex; [|discriminate].
      pose proof (hex4_range _ _ _ _ _ Ex) as Hm.
      assert (Hlow : forall a t, acc = a :: t -> is_high a = true -> is_low m = false).
      { intros a t -> Ha. specialize (Hh a t eq_refl Ha). cbn in Hh.
        apply Z.eqb_eq in E92, E117. subst. cbn in Hh. rewrite Ex in Hh.
        apply negb_true_iff in Hh. exact Hh. }
      assert (Hwm : wf_cp m = true) by (unfold wf_cp; rewrite andb_true_iff, Z.leb_le, Z.ltb_lt; lia).
      destruct (push_ok m acc Hwm Hlow Hw Hn) as [Hw' Hn'].
      assert (Hl3 : (length s3 <= n)%nat) by (cbn in Hl; lia).
      destruct (is_high m) eqn:Hhi.
      * destruct s3 as [|b [|v [|k1 [|k2 [|k3 [|k4 s4]]]]]];
          try (destruct (IH _ _ _ _ Hl3 Hs Hw' Hn' (fun a t E _ => eq_refl) H) as [Hc' Hp];
               split; [exact Hc'|]; destruct Hp as [p ->];
               exists (c :: e :: h1 :: h2 :: h3 :: h4 :: p); reflexivity).
        destruct ((b =? 92) && (v =? 117)) eqn:Ebv.
        -- destruct (hex4 k1 k2 k3 k4) as [m2|] eqn:Ex2; [|discriminate].
           destruct (is_low m2) eqn:Hlo.
           ++ cbn [forallb] in Hs. rewrite !andb_true_iff in Hs.
              destruct Hs as [? [? [? [? [? [? Hs]]]]]].
              destruct (join_ok m m2) as [Hj1 [Hj2 Hj3]].
              destruct (push_ok _ acc Hj1 (fun _ _ _ _ => Hj3) Hw Hn) as [Hw'' Hn''].
              assert (Hl4 : (length s4 <= n)%nat) by (cbn in Hl; lia).
              destruct (IH _ _ _ _ Hl4 Hs Hw'' Hn''
                          (fun a t E Ha => ltac:(injection E as <- _; congruence)) H)
                as [Hc' [p ->]].
              split; [exact Hc'|].
              exists (c :: e :: h1 :: h2 :: h3 :: h4 :: b :: v :: k1 :: k2 :: k3 :: k4 :: p).
              reflexivity.
           ++ assert (Hf : low_esc_free (b :: v :: k1 :: k2 :: k3 :: k4 :: s4) = true)
                by (cbn; rewrite Ebv, Ex2, Hlo; reflexivity).
              destruct (IH _ _ _ _ Hl3 Hs Hw' Hn' (fun _ _ _ _ => Hf) H) as [Hc' [p Hp]].
              split; [exact Hc'|]. rewrite Hp.
              exists (c :: e :: h1 :: h2 :: h3 :: h4 :: p). reflexivity.
        -- assert (Hf : low_esc_free (b :: v :: k1 :: k2 :: k3 :: k4 :: s4) = true)
             by (cbn; rewrite Ebv; reflexivity).
           destruct (IH _ _ _ _ Hl3 Hs Hw' Hn' (fun _ _ _ _ => Hf) H) as [Hc' [p Hp]].
           split; [exact Hc'|]. rewrite Hp.
           exists (c :: e :: h1 :: h2 :: h3 :: h4 :: p). reflexivity.
      * destruct (IH _ _ _ _ Hl3 Hs Hw' Hn'
                    (fun a t E Ha => ltac:(injection E as <- _; congruence)) H) as [Hc' [p ->]].
        split; [exact Hc'|]. exists (c :: e :: h1 :: h2 :: h3 :: h4 :: p). reflexivity.
    + destruct (simple_escape e) as [c'|] eqn:Es; [|discriminate].
      destruct (small_cp_ok c' (simple_escape_small _ _ Es)) as [H1 [H2 H3]].
      destruct (push_ok _ acc H1 (fun _ _ _ _ => H3) Hw Hn) as [Hw' Hn'].
      assert (Hl2 : (length s2 <= n)%nat) by (cbn in Hl; lia).
      destruct (IH _ _ _ _ Hl2 Hs Hw' Hn'
                  (fun a t E Ha => ltac:(injection E as <- _; congruence)) H) as [Hc' [p ->]].
      split; [exact Hc'|]. exists (c :: e :: p). reflexivity.
  - destruct (c <? 32); [discriminate|].
    destruct (src_cp_ok c Hc) as [H1 [H2 H3]].
    destruct (push_ok _ acc H1 (fun _ _ _ _ => H3) Hw Hn) as [Hw' Hn'].
    assert (Hl1 : (length s1 <= n)%nat) by lia.
    destruct (IH _ _ _ _ Hl1 Hs Hw' Hn'
                (fun a t E Ha => ltac:(injection E as <- _; congruence)) H) as [Hc' [p ->]].
    split; [exact Hc'|]. exists (c :: p). reflexivity.
Qed.

Lemma sfx_refl (s : ustr) : exists p, s = p ++ s.
Proof. exists []. reflexivity. Qed.

Lemma sfx_cons c (s r : ustr) : (exists p, s = p ++ r) -> exists p, c :: s = p ++ r.
Proof. intros [p ->]. exists (c :: p). reflexivity. Qed.

Lemma sfx_trans (s t r : ustr) :
  (exists p, s = p ++ t) -> (exists q, t = q ++ r) -> exists p, s = p ++ r.
Proof. intros [p ->] [q ->]. exists (p ++ q). apply app_assoc. Qed.

Lemma sfx_src s r : (exists p, s = p ++ r) -> forallb src_cp s = true -> forallb src_cp r = true.
Proof. intros [p ->]. apply forallb_app_inv. Qed.

Lemma skip_ws_sfx s : exists p, s = p ++ skip_ws s.
Proof.
  induction s as [|c s IH]; [exists []; reflexivity|].
  cbn [skip_ws]. destruct (is_ws c); [apply sfx_cons, IH | apply sfx_refl].
Qed.

Lemma take_digits_sfx s : exists p, s = p ++ snd (take_digits s).
Proof.
  induction s as [|c s IH]; [exists []; reflexivity|].
  cbn [take_digits]. destruct (is_digit c); [|apply sfx_refl].
  destruct (take_digits s) as [u r]. apply sfx_cons, IH.
Qed.

Lemma take_frac_sfx s : exists p, s = p ++ snd (take_frac s).
Proof.
  destruct s as [|c [|d r]]; try apply sfx_refl. cbn [take_frac].
  destruct ((c =? 46) && is_digit d); [|apply sfx_refl].
  pose proof (take_digits_sfx (d :: r)) as H.
  destruct (take_digits (d :: r)) as [w r']. apply sfx_cons, H.
Qed.

Lemma take_exp_sfx s : exists p, s = p ++ snd (take_exp s).
Proof.
  destruct s as [|c r]; [apply sfx_refl|]. cbn [take_exp].
  destruct ((c =? 101) || (c =? 69)); [|apply sfx_refl].
  destruct (match r with
            | sg :: r' => if sg =? 45 then (true, r') else if sg =? 43 then (false, r') else (false, r)
            | [] => (false, r) end) as [neg r1] eqn:E.
  assert (H1 : exists p, r = p ++ r1).
  { destruct r as [|sg r']; [injection E as _ <-; apply sfx_refl|].
    destruct (sg =? 45); [injection E as _ <-; exists [sg]; reflexivity|].
    destruct (sg =? 43); injection E as _ <-; [exists [sg]; reflexivity | apply sfx_refl]. }
  pose proof (take_digits_sfx r1) as H2.
  destruct (take_digits r1) as [w r2]. cbn [snd] in H2.
  destruct w; try (apply sfx_refl); apply sfx_cons; exact (sfx_trans _ _ _ H1 H2).
Qed.

Lemma int_ok_of_uint u (neg : bool) : (Decimal.nb_digits u <= max_str_digits)%nat ->
  int_ok (if neg then - Z.of_uint u else Z.of_uint u) = true.
Proof.
  intros H. unfold Z.of_uint.
  destruct (Pos.of_uint u) as [|p] eqn:E; [destruct neg; reflexivity|].
  assert (Hp : Pos.to_uint p = Decimal.unorm u).
  { rewrite <- (DecimalPos.Unsigned.to_of u), E. reflexivity. }
  assert (Hu : u <> Decimal.Nil) by (intros ->; discriminate).
  pose proof (DecimalFacts.nb_digits_unorm u Hu).
  assert (Hz : int_ok (Zpos p) = true /\ int_ok (Zneg p) = true).
  { unfold int_ok. rewrite Hp. split; apply Nat.leb_le; lia. }
  destruct neg; [exact (proj2 Hz) | exact (proj1 Hz)].
Qed.

Lemma parse_number_ok s v r : parse_number s = Some (v, r) ->
  json_ok (fun _ => true) v = true /\ depth v = 0%nat /\ exists p, s = p ++ r.
Proof.
  unfold parse_number. intros H.
  destruct (match s with c :: s' => if c =? 45 then (true, s') else (false, s) | [] => (false, s) end)
    as [neg s1] eqn:Es.
  assert (H1 : exists p, s = p ++ s1).
  { destruct s as [|c s']; [injection Es as _ <-; apply sfx_refl|].
    destruct (c =? 45); injection Es as _ <-; [exists [c]; reflexivity | apply sfx_refl]. }
  pose proof (take_digits_sfx s1) as H2.
  destruct (take_digits s1) as [u r0]. cbn [snd] in H2.
  pose proof (take_frac_sfx r0) as H3.
  destruct (take_frac r0) as [fr r2]. cbn [snd] in H3.
  pose proof (take_exp_sfx r2) as H4.
  destruct (take_exp r2) as [ex r3]. cbn [snd] in H4.
  cbv zeta in H.
  assert (K : forall X : option (pyval * ustr),
            match u with
            | Decimal.Nil => None
            | Decimal.D0 Decimal.Nil => X
            | Decimal.D0 _ => None
            | _ => X
            end = Some (v, r) -> X = Some (v, r))
    by (intros X; destruct u as [|[]| | | | | | | | |]; cbn; congruence).
  apply K in H. clear K.
  pose proof (sfx_trans _ _ _ H1 H2) as H12.
  pose proof (sfx_trans _ _ _ H12 H3) as H123.
  pose proof (sfx_trans _ _ _ H123 H4) as H1234.
  destruct fr as [w|]; [|destruct ex as [e|]]; cbn iota in H.
  - injection H as <- <-. auto.
  - injection H as <- <-. auto.
  - destruct (Nat.ltb max_str_digits (Decimal.nb_digits u)) eqn:Elt; [discriminate|].
    injection H as <- <-. apply Nat.ltb_ge in Elt.
    split; [apply int_ok_of_uint; exact Elt|]. auto.
Qed.

Lemma strip_lit_sfx p s r : strip_lit p s = Some r -> exists q, s = q ++ r.
Proof.
  revert s. induction p as [|a p IH]; intros s H; cbn in H.
  - injection H as <-. apply sfx_refl.
  - destruct s as [|b s]; [discriminate|].
    destruct (a =? b); [apply sfx_cons, IH, H | discriminate].
Qed.

Lemma parse_scalar_ok s v r : parse_scalar s = Some (v, r) ->
  json_ok (fun _ => true) v = true /\ depth v = 0%nat /\ exists p, s = p ++ r.
Proof.
  unfold parse_scalar. intros H.
  repeat match type of H with
  | match strip_lit ?P s with Some _ => _ | None => _ end = _ =>
      let E := fresh "E" in
      destruct (strip_lit P s) as [r'|] eqn:E;
      [injection H as <- <-; split; [reflexivity|split; [reflexivity|exact (strip_lit_sfx _ _ _ E)]]|]
  end.
  apply parse_number_ok, H.
Qed.


Lemma dict_set_KV (K : pykey -> Prop) (V : pyval -> Prop) d k v :
  (forall kv, In kv d -> K (fst kv) /\ V (snd kv)) -> K k -> V v ->
  forall kv, In kv (dict_set d k v) -> K (fst kv) /\ V (snd kv).
Proof.
  induction d as [|[k' v'] d IH]; intros Hd Hk Hv kv Hin; cbn in Hin.
  - destruct Hin as [<-|[]]. split; assumption.
  - destruct (key_eqb k k'); destruct Hin as [<-|Hin].
    + split; [apply (Hd (k', v')); left; reflexivity | exact Hv].
    + apply Hd; right; exact Hin.
    + apply Hd; left; reflexivity.
    + apply IH; auto. intros kv' H'; apply Hd; right; exact H'.
Qed.

Lemma dict_of_pairs_KV (K : pykey -> Prop) (V : pyval -> Prop) l :
  (forall kv, In kv l -> K (fst kv) /\ V (snd kv)) ->
  forall kv, In kv (dict_of_pairs l) -> K (fst kv) /\ V (snd kv).
Proof.
  unfold dict_of_pairs.
  assert (G : forall d, (forall kv, In kv d -> K (fst kv) /\ V (snd kv)) ->
                (forall kv, In kv l -> K (fst kv) /\ V (snd kv)) ->
                forall kv, In kv (fold_left (fun d kv => dict_set d (fst kv) (snd kv)) l d) ->
                K (fst kv) /\ V (snd kv)).
  { induction l as [|x l IH]; intros d Hd Hl; cbn; [exact Hd|].
    apply IH; [|intros kv Hin; apply Hl; right; exact Hin].
    destruct (Hl x (or_introl eq_refl)) as [Hk Hv].
    apply dict_set_KV; assumption. }
  intros Hl. apply G; [intros _ []|exact Hl].
Qed.

Lemma dict_set_keys d k v kv :
  In kv (dict_set d k v) -> In (fst kv) (map fst d) \/ fst kv = k.
Proof.
  intros Hin.
  apply (dict_set_KV (fun k0 => In k0 (map fst d) \/ k0 = k) (fun _ => True) d k v);
    [| right; reflexivity | exact I | exact Hin].
  intros kv' H'. split; [left; apply in_map, H' | exact I].
Qed.

Lemma dict_set_distinct d k v :
  str_keys_distinct d = true -> is_str_key k = true -> str_keys_distinct (dict_set d k v) = true.
Proof.
  induction d as [|[k' v'] d IH]; intros Hd Hk.
  - cbn. rewrite Hk. reflexivity.
  - cbn [str_keys_distinct] in Hd. apply andb_true_iff in Hd as [Hd1 Hd].
    apply andb_true_iff in Hd1 as [Hk' Hf].
    cbn [dict_set]. destruct (key_eqb k k') eqn:E.
    + cbn [str_keys_distinct]. rewrite Hk', Hf, Hd. reflexivity.
    + cbn [str_keys_distinct]. rewrite Hk', IH by assumption. rewrite andb_true_r. cbn.
      apply forallb_forall. intros kv Hin.
      apply dict_set_keys in Hin as [Hin|Hin].
      * rewrite forallb_forall in Hf. apply in_map_iff in Hin as (kv1 & Hkv & Hin1).
        rewrite <- Hkv. exact (Hf _ Hin1).
      * rewrite Hin, key_eqb_sym, E. reflexivity.
Qed.

Lemma dict_of_pairs_distinct_str l :
  (forall kv, In kv l -> is_str_key (fst kv) = true) -> str_keys_distinct (dict_of_pairs l) = true.
Proof.
  unfold dict_of_pairs.
  assert (G : forall d, str_keys_distinct d = true ->
                (forall kv, In kv l -> is_str_key (fst kv) = true) ->
                str_keys_distinct (fold_left (fun d kv => dict_set d (fst kv) (snd kv)) l d) = true).
  { induction l as [|x l IH]; intros d Hd Hl; cbn; [exact Hd|].
    apply IH; [|intros kv Hin; apply Hl; right; exact Hin].
    apply dict_set_distinct; [exact Hd | apply Hl; left; reflexivity]. }
  intros Hl. apply G; [reflexivity|exact Hl].
Qed.

Lemma depth_list_bound d M xs : (d <= M)%nat ->
  (forall y, In y xs -> (d + depth y <= M)%nat) -> (d + depth (PList xs) <= S M)%nat.
Proof.
  intros Hd H. cbn [depth].
  assert (list_max (map depth xs) <= M - d)%nat.
  { apply list_max_le, Forall_forall. intros k Hk. apply in_map_iff in Hk as (y & <- & Hy).
    specialize (H y Hy). lia. }
  lia.
Qed.

Lemma depth_dict_bound d M kvs : (d <= M)%nat ->
  (forall kv, In kv kvs -> (d + depth (snd kv) <= M)%nat) -> (d + depth (PDict kvs) <= S M)%nat.
Proof.
  intros Hd H. cbn [depth].
  assert (list_max (map (fun kv => depth (snd kv)) kvs) <= M - d)%nat.
  { apply list_max_le, Forall_forall. intros k Hk. apply in_map_iff in Hk as (y & <- & Hy).
    specialize (H y Hy). lia. }
  lia.
Qed.

Lemma parse_inv f :
  (forall d s v r, (d <= max_depth)%nat -> forallb src_cp s = true ->
     parse_val f d s = Some (v, r) ->
     json_ok (fun _ => true) v = true /\ (d + depth v <= max_depth)%nat /\ exists p, s = p ++ r) /\
  (forall d s acc v r, (1 <= d <= max_depth)%nat -> forallb src_cp s = true ->
     (forall y, In y acc -> json_ok (fun _ => true) y = true /\ (d + depth y <= max_depth)%nat) ->
     parse_elems f d s acc = Some (v, r) ->
     json_ok (fun _ => true) v = true /\ (d + depth v <= S max_depth)%nat /\ exists p, s = p ++ r) /\
  (forall d s acc v r, (1 <= d <= max_depth)%nat -> forallb src_cp s = true ->
     (forall kv, In kv acc -> is_str_key (fst kv) = true /\
        (json_ok (fun _ => true) (snd kv) = true /\ (d + depth (snd kv) <= max_depth)%nat)) ->
     parse_members f d s acc = Some (v, r) ->
     json_ok (fun _ => true) v = true /\ (d + depth v <= S max_depth)%nat /\ exists p, s = p ++ r).
Proof.
  induction f as [|f [IHv [IHe IHm]]];
    [split; [|split]; intros; discriminate|].
  split; [|split].
  - (* a value *)
    intros d s v r Hd Hs H. destruct s as [|c s1]; [discriminate|].
    pose proof Hs as Hs1. cbn [forallb] in Hs1. apply andb_true_iff in Hs1 as [_ Hs1].
    cbn [parse_val] in H.
    destruct (c =? 34).
    { destruct (scan_str s1 []) as [[cs r']|] eqn:Es; [|discriminate].
      injection H as <- <-.
      destruct (scan_str_inv (length s1) s1 [] cs r' (le_n _) Hs1 eq_refl eq_refl
                  (fun a t E _ => ltac:(discriminate E)) Es) as [Hc Hp].
      split; [exact Hc|]. split; [cbn; lia|]. apply sfx_cons, Hp. }
    destruct (c =? 123).
    { destruct (Nat.leb max_depth d) eqn:Ed; [discriminate|]. apply Nat.leb_gt in Ed.
      pose proof (skip_ws_sfx s1) as Hw.
      destruct (skip_ws s1) as [|c2 s3]; [discriminate|].
      destruct (c2 =? 125).
      - injection H as <- <-. split; [reflexivity|]. split; [cbn; lia|].
        apply sfx_cons. apply (sfx_trans _ _ _ Hw). exists [c2]. reflexivity.
      - destruct (IHm (S d) (c2 :: s3) [] v r ltac:(lia) (sfx_src _ _ Hw Hs1)
                    (fun _ Hin => match Hin with end) H) as [Hv [Hdv Hp]].
        split; [exact Hv|]. split; [lia|]. apply sfx_cons. exact (sfx_trans _ _ _ Hw Hp). }
    destruct (c =? 91).
    { destruct (Nat.leb max_depth d) eqn:Ed; [discriminate|]. apply Nat.leb_gt in Ed.
      pose proof (skip_ws_sfx s1) as Hw.
      destruct (skip_ws s1) as [|c2 s3]; [discriminate|].
      destruct (c2 =? 93).
      - injection H as <- <-. split; [reflexivity|]. split; [cbn; lia|].
        apply sfx_cons. apply (sfx_trans _ _ _ Hw). exists [c2]. reflexivity.
      - destruct (IHe (S d) (c2 :: s3) [] v r ltac:(lia) (sfx_src _ _ Hw Hs1)
                    (fun _ Hin => match Hin with end) H) as [Hv [Hdv Hp]].
        split; [exact Hv|]. split; [lia|]. apply sfx_cons. exact (sfx_trans _ _ _ Hw Hp). }
    destruct (parse_scalar_ok _ _ _ H) as [Hv [Hdv Hp]].
    split; [exact Hv|]. split; [lia|exact Hp].
  - (* the elements of an array *)
    intros d s acc v r Hd Hs Hacc H. cbn [parse_elems] in H.
    destruct (parse_val f d s) as [[v0 r0]|] eqn:E0; [|discriminate].
    destruct (IHv d s v0 r0 ltac:(lia) Hs E0) as [Hv0 [Hd0 Hp0]].
    pose proof (skip_ws_sfx r0) as Hw.
    destruct (skip_ws r0) as [|c r1]; [discriminate|].
    assert (Hall : forall y, In y (v0 :: acc) ->
                     json_ok (fun _ => true) y = true /\ (d + depth y <= max_depth)%nat)
      by (intros y [<-|Hy]; [split; assumption | apply Hacc, Hy]).
    destruct (c =? 93).
    + injection H as <- <-. split; [|split].
      * cbn [json_ok]. apply forallb_forall. intros y Hy. apply Hall, in_rev, Hy.
      * apply depth_list_bound; [lia|]. intros y Hy. apply Hall, in_rev, Hy.
      * apply (sfx_trans _ _ _ Hp0). apply (sfx_trans _ _ _ Hw). exists [c]. reflexivity.
    + destruct (c =? 44); [|discriminate].
      pose proof (skip_ws_sfx r1) as Hw1.
      assert (Hr : exists p, s = p ++ skip_ws r1).
      { apply (sfx_trans _ _ _ Hp0). apply (sfx_trans _ _ _ Hw). apply sfx_cons, Hw1. }
      destruct (IHe d (skip_ws r1) (v0 :: acc) v r Hd (sfx_src _ _ Hr Hs) Hall H)
        as [Hv [Hdv Hp]].
      split; [exact Hv|]. split; [exact Hdv|]. exact (sfx_trans _ _ _ Hr Hp).
  - (* the members of an object *)
    intros d s acc v r Hd Hs Hacc H. cbn [parse_members] in H.
    destruct s as [|c s1]; [discriminate|].
    pose proof Hs as Hs1. cbn [forallb] in Hs1. apply andb_true_iff in Hs1 as [_ Hs1].
    destruct (c =? 34); [|discriminate].
    destruct (scan_str s1 []) as [[k r0]|] eqn:Es; [|discriminate].
    destruct (scan_str_inv (length s1) s1 [] k r0 (le_n _) Hs1 eq_refl eq_refl
                (fun a t E _ => ltac:(discriminate E)) Es) as [Hk Hp0].
    pose proof (skip_ws_sfx r0) as Hw.
    destruct (skip_ws r0) as [|c2 r2]; [discriminate|].
    destruct (c2 =? 58); [|discriminate].
    pose proof (skip_ws_sfx r2) as Hw2.
    assert (Hr2 : exists p, c :: s1 = p ++ skip_ws r2).
    { apply sfx_cons. apply (sfx_trans _ _ _ Hp0). apply (sfx_trans _ _ _ Hw).
      apply sfx_cons, Hw2. }
    destruct (parse_val f d (skip_ws r2)) as [[v0 r3]|] eqn:E0; [|discriminate].
    destruct (IHv d _ v0 r3 ltac:(lia) (sfx_src _ _ Hr2 Hs) E0) as [Hv0 [Hd0 Hp3]].
    pose proof (skip_ws_sfx r3) as Hw3.
    destruct (skip_ws r3) as [|c3 r4]; [discriminate|].
    assert (Hall : forall kv, In kv ((KStr k, v0) :: acc) -> is_str_key (fst kv) = true /\
                     (json_ok (fun _ => true) (snd kv) = true /\ (d + depth (snd kv) <= max_depth)%nat))
      by (intros kv [<-|Hkv]; [split; [exact Hk | split; assumption] | apply Hacc, Hkv]).
    assert (Hr4 : exists p, c :: s1 = p ++ r4).
    { apply (sfx_trans _ _ _ Hr2). apply (sfx_trans _ _ _ Hp3). apply (sfx_trans _ _ _ Hw3).
      exists [c3]. reflexivity. }
    destruct (c3 =? 125).
    + injection H as <- <-.
      assert (Hdp : forall kv, In kv (dict_of_pairs (rev ((KStr k, v0) :: acc))) ->
                 is_str_key (fst kv) = true /\
                 (json_ok (fun _ => true) (snd kv) = true /\ (d + depth (snd kv) <= max_depth)%nat)).
      { apply (dict_of_pairs_KV (fun k0 => is_str_key k0 = true)
                 (fun y => json_ok (fun _ => true) y = true /\ (d + depth y <= max_depth)%nat)).
        intros kv Hkv. apply Hall, in_rev, Hkv. }
      split; [|split].
      * cbn [json_ok]. apply andb_true_iff. split.
        -- apply dict_of_pairs_distinct_str. intros kv Hkv. apply Hall, in_rev, Hkv.
        -- apply forallb_forall. intros kv Hkv. apply Hdp, Hkv.
      * apply depth_dict_bound; [lia|]. intros kv Hkv. apply Hdp, Hkv.
      * exact Hr4.
    + destruct (c3 =? 44); [|discriminate].
      pose proof (skip_ws_sfx r4) as Hw4.
      assert (Hr : exists p, c :: s1 = p ++ skip_ws r4) by exact (sfx_trans _ _ _ Hr4 Hw4).
      destruct (IHm d (skip_ws r4) ((KStr k, v0) :: acc) v r Hd (sfx_src _ _ Hr Hs) Hall H)
        as [Hv [Hdv Hp]].
      split; [exact Hv|]. split; [exact Hdv|]. exact (sfx_trans _ _ _ Hr Hp).
Qed.

(** What [json.loads] returns for a text decoded from UTF-8: ints within
    the digit limit, well-formed strings, objects with distinct [str]
    keys, nested at most [max_depth] deep. *)
Lemma loads_ok s v :
  forallb src_cp s = true -> loads s = Some v ->
  json_ok (fun _ => true) v = true /\ (depth v <= max_depth)%nat.
Proof.
  unfold loads. intros Hs H.
  destruct (parse_val (S (length (skip_ws s))) 0 (skip_ws s)) as [[v0 r]|] eqn:E; [|discriminate].
  destruct (skip_ws r); [|discriminate]. injection H as <-.
  destruct (proj1 (parse_inv _) 0%nat (skip_ws s) v0 r ltac:(lia)
              (sfx_src _ _ (skip_ws_sfx s) Hs) E) as [Hv [Hd _]].
  split; [exact Hv | exact Hd].
Qed.

Lemma load_text_ok txt v :
  load_text txt = Some v -> json_ok (fun _ => true) v = true /\ (depth v <= max_depth)%nat.
Proof.
  unfold load_text. destruct (utf8_decode txt) as [s|] eqn:E; [|discriminate].
  apply loads_ok, (utf8_decode_src _ _ E).
Qed.

(** The floats apart, [json_ok fl] is [json_ok] for every float. *)
Lemma json_ok_floats fl v :
  json_ok fl v = json_ok (fun _ => true) v && forallb fl (floats v).
Proof.
  induction v as [| b | z | x | s | xs IH | kvs IH] using pyval_ind'; cbn [json_ok floats forallb];
    rewrite ?andb_true_r; try reflexivity.
  - induction xs as [|x xs IHxs]; [reflexivity|].
    inversion IH as [|? ? Hx IH']; subst.
    cbn [forallb flat_map]. rewrite forallb_app, Hx, IHxs by exact IH'.
    destruct (json_ok (fun _ => true) x), (forallb fl (floats x)),
             (forallb (json_ok (fun _ => true)) xs); reflexivity.
  - rewrite <- !andb_assoc. f_equal.
    induction kvs as [|[k x] kvs IHk]; [reflexivity|].
    inversion IH as [|? ? Hx IH']; subst. cbn [snd] in Hx.
    cbn [forallb flat_map snd]. rewrite forallb_app, Hx, IHk by exact IH'.
    destruct (json_ok (fun _ => true) x), (forallb fl (floats x)),
             (forallb (fun kv => json_ok (fun _ => true) (snd kv)) kvs); reflexivity.
Qed.

End JsonFacts.


(* ================================================================== *)
(** * Facts about the working directory and the monad *)

Module CliFacts.
Import Json Cli CliProps.

Lemma path_eqb_eq p q : path_eqb p q = true <-> p = q.
Proof.
  revert q; induction p as [|a p IH]; intros [|b q]; cbn; try (split; congruence).
  rewrite andb_true_iff, String.eqb_eq, IH.
  split; [intros [-> ->]; reflexivity | intros H; injection H; auto].
Qed.

Lemma path_eqb_refl p : path_eqb p p = true.
Proof. apply path_eqb_eq; reflexivity. Qed.

Lemma path_eqb_neq p q : p <> q -> path_eqb p q = false.
Proof.
  intros H. destruct (path_eqb p q) eqn:E; [apply path_eqb_eq in E; congruence | reflexivity].
Qed.

Lemma fs_lookup_put m p n q :
  fs_lookup (fs_put m p n) q = if path_eqb q p then Some n else fs_lookup m q.
Proof.
  induction m as [|[p' n'] m IH]; cbn.
  - destruct (path_eqb q p); reflexivity.
  - destruct (path_eqb p p') eqn:E1; cbn.
    + apply path_eqb_eq in E1; subst p'. destruct (path_eqb q p); reflexivity.
    + destruct (path_eqb q p') eqn:E2.
      * apply path_eqb_eq in E2; subst p'.
        destruct (path_eqb q p) eqn:E3; [|reflexivity].
        apply path_eqb_eq in E3; subst. rewrite path_eqb_refl in E1; discriminate.
      * exact IH.
Qed.

Lemma fs_lookup_put_other m p n q : q <> p -> fs_lookup (fs_put m p n) q = fs_lookup m q.
Proof. intros H. rewrite fs_lookup_put, path_eqb_neq by exact H. reflexivity. Qed.

Lemma fs_lookup_put_same m p n : fs_lookup (fs_put m p n) p = Some n.
Proof. rewrite fs_lookup_put, path_eqb_refl. reflexivity. Qed.

(** ** Running a bind *)

Lemma bind_runs {A B} (x : M A) (k : A -> M B) m a m1 ev1 r m2 ev2 :
  x m = (Ret a, m1, ev1) -> k a m1 = (r, m2, ev2) -> bind x k m = (r, m2, ev1 ++ ev2).
Proof. intros H1 H2. unfold bind. rewrite H1, H2. reflexivity. Qed.

Lemma bind_raise {A B} (x : M A) (k : A -> M B) m e m1 ev1 :
  x m = (Raise e, m1, ev1) -> bind x k m = (Raise e, m1, ev1).
Proof. intros H1. unfold bind. rewrite H1. reflexivity. Qed.

Lemma runs_ev {A} (x : M A) m r m' ev ev' :
  x m = (r, m', ev') -> ev' = ev -> x m = (r, m', ev).
Proof. intros H ->. exact H. Qed.

(** ** Properties of all events of a run *)

Section Holds.
Variable Phi : list event -> Prop.
Hypothesis Phi_nil : Phi [].
Hypothesis Phi_app : forall e1 e2, Phi e1 -> Phi e2 -> Phi (e1 ++ e2).

Lemma holds_ret {A} (a : A) : holds Phi (ret a).
Proof. intros m. exact Phi_nil. Qed.

Lemma holds_raise {A} e : holds Phi (@raise A e).
Proof. intros m. exact Phi_nil. Qed.

Lemma holds_query {A} (f : fsmap -> A) : holds Phi (query f).
Proof. intros m. exact Phi_nil. Qed.

Lemma holds_bind {A B} (x : M A) (k : A -> M B) :
  holds Phi x -> (forall a, holds Phi (k a)) -> holds Phi (bind x k).
Proof.
  intros Hx Hk m. unfold bind. specialize (Hx m).
  destruct (x m) as [[[a|e] m1] ev1]; cbn in *; [|exact Hx].
  specialize (Hk a m1). destruct (k a m1) as [[r m2] ev2]. cbn in *. auto.
Qed.

Lemma holds_for {A} (l : list A) (f : A -> M unit) :
  (forall x, In x l -> holds Phi (f x)) -> holds Phi (for_ l f).
Proof.
  induction l as [|x l IH]; intros H; cbn.
  - apply holds_ret.
  - apply holds_bind; [apply H; left; reflexivity | intros _; apply IH; intros y Hy; apply H; right; exact Hy].
Qed.

End Holds.

Lemma Forall_app_iff {A} (P : A -> Prop) l1 l2 : Forall P l1 -> Forall P l2 -> Forall P (l1 ++ l2).
Proof. intros H1 H2. apply Forall_app; split; assumption. Qed.

End CliFacts.

(* ================================================================== *)
(** * Import *)

Module ImportFacts.
Import Json Cli CliProps CliFacts.

Section ImportRun.
Variable docker : list string -> completed.
Variables now_stamp now_iso cwd_abs : string.
Variable volume_tgz : string -> string.
Variable tar_gz : list (path * node) -> string.
Variable untar : string -> option (list (path * node)).
Variable sha256_hex : string -> string.
Variable size_mb : nat -> string.
Variable listdir : listing.
Variable partial_tgz : string -> option string.

Lemma exists_b_lookup m p n : fs_lookup m p = Some n -> exists_b m p = true.
Proof. intros H. unfold exists_b. rewrite H. destruct p; reflexivity. Qed.




Lemma mkdir_keeps_file p m m1 ev q d :
  mkdir p m = (Ret tt, m1, ev) -> fs_lookup m q = Some (FileN d) -> fs_lookup m1 q = Some (FileN d).
Proof.
  intros H Hq. unfold mkdir in H.
  destruct (is_dir_b m p) eqn:E1; [injection H; intros; subst; exact Hq|].
  destruct (exists_b m p) eqn:E2; [discriminate|].
  destruct (is_dir_b m (parent p)) eqn:E3.
  - injection H; intros; subst. rewrite fs_lookup_put_other; [exact Hq|].
    intros ->. rewrite (exists_b_lookup _ _ _ Hq) in E2. discriminate.
  - destruct (exists_b m (parent p)); discriminate.
Qed.

(** After the archive is unpacked into [backups/restore_temp], the import
    fails with "Invalid backup structure" when that directory holds no
    subdirectory, and otherwise goes on with the first subdirectory in
    listing order, whatever other subdirectories there are. *)
Lemma import_backup_root (backup_file : path) (skip_volumes : bool) (m m1 : fsmap)
    (data : string) (members : list (path * node)) (evc : list event) :
  fs_lookup m backup_file = Some (FileN data) ->
  verify_checksum sha256_hex backup_file m = (Ret true, m, evc) ->
  mkdir restore_temp m = (Ret tt, m1, []) ->
  untar data = Some members ->
  let m2 := extract_members restore_temp members m1 in
  is_dir_b m2 restore_temp = true ->
  let pre := header_events "Importing Local AI Package" ++ evc
             ++ [Out "Extracting backup archive..."] in
  (filter (is_dir_b m2) (listdir m2 restore_temp) = [] ->
     import_environment docker cwd_abs untar sha256_hex listdir backup_file skip_volumes m
     = (Ret false, m2, pre ++ [Out "Invalid backup structure"]))
  /\ (forall restore_dir others,
        filter (is_dir_b m2) (listdir m2 restore_temp) = restore_dir :: others ->
        import_environment docker cwd_abs untar sha256_hex listdir backup_file skip_volumes m
        = let '(r, m3, ev) := restore_from docker cwd_abs listdir restore_dir skip_volumes m2 in
          (r, m3, pre ++ ev)).
Proof.
  intros Hb Hv Hd Hu m2 Hr pre.
  assert (Hb1 := mkdir_keeps_file _ _ _ _ _ _ Hd Hb).
  assert (Prefix : forall (k : M bool) r m3 ev,
    locate_root docker cwd_abs listdir skip_volumes m2 = (r, m3, ev) ->
    import_environment docker cwd_abs untar sha256_hex listdir backup_file skip_volumes m
    = (r, m3, pre ++ ev)).
  { intros _ r m3 ev Hl. eapply runs_ev.
    { unfold import_environment.
      eapply bind_runs; [reflexivity|]. cbv beta.
      eapply bind_runs; [reflexivity|]. cbv beta. rewrite (exists_b_lookup _ _ _ Hb). cbv [negb].
      eapply bind_runs; [exact Hv|]. cbv beta iota.
      eapply bind_runs; [reflexivity|]. cbv beta.
      eapply bind_runs; [exact Hd|]. cbv beta.
      eapply bind_runs.
      { unfold extract_archive.
        eapply bind_runs; [unfold read_file; rewrite Hb1; reflexivity|]. cbv beta.
        rewrite Hu. reflexivity. }
      exact Hl. }
    unfold pre, header_events. repeat rewrite <- app_assoc. cbn [app].
    rewrite ?app_nil_r. reflexivity. }
  split.
  - intros Hf. apply (Prefix (ret false)).
    eapply runs_ev.
    { unfold locate_root.
      eapply bind_runs; [unfold iterdir; rewrite Hr; reflexivity|]. cbv beta.
      eapply bind_runs; [reflexivity|]. cbv beta. rewrite Hf.
      eapply bind_runs; reflexivity. }
    reflexivity.
  - intros restore_dir others Hf.
    destruct (restore_from docker cwd_abs listdir restore_dir skip_volumes m2) as [[r m3] ev] eqn:E.
    apply (Prefix (ret false)).
    eapply runs_ev.
    { unfold locate_root.
      eapply bind_runs; [unfold iterdir; rewrite Hr; reflexivity|]. cbv beta.
      eapply bind_runs; [reflexivity|]. cbv beta. rewrite Hf. exact E. }
    reflexivity.
Qed.

End ImportRun.

(** ** The commands an import starts *)

Section Events.
Variable docker : list string -> completed.
Variable cwd_abs : string.
Variable untar : string -> option (list (path * node)).
Variable sha256_hex : string -> string.
Variable listdir : listing.
Variable Phi : list event -> Prop.
Hypothesis Phi_nil : Phi [].
Hypothesis Phi_app : forall e1 e2, Phi e1 -> Phi e2 -> Phi (e1 ++ e2).
Hypothesis Phi_out : forall s, Phi [Out s].
Hypothesis Phi_cp : forall a b, Phi [Cmd ["cp"; a; b]%string].
Hypothesis Phi_rm : forall p, Phi [Cmd ["rm"; "-rf"; p]%string].

Lemma holds_print s : holds Phi (print s).
Proof. intros m. apply Phi_out. Qed.

Lemma holds_silent {A} (x : M A) : (forall m, snd (x m) = []) -> holds Phi x.
Proof. intros H m. rewrite H. exact Phi_nil. Qed.

Lemma holds_mkdir p : holds Phi (mkdir p).
Proof.
  apply holds_silent. intros m. unfold mkdir.
  destruct (is_dir_b m p), (exists_b m p), (is_dir_b m (parent p)), (exists_b m (parent p));
    reflexivity.
Qed.

Lemma holds_read_file p : holds Phi (read_file p).
Proof.
  apply holds_silent. intros m. unfold read_file.
  destruct (fs_lookup m p) as [[]|]; reflexivity.
Qed.

Lemma holds_iterdir p : holds Phi (iterdir listdir p).
Proof.
  apply holds_silent. intros m. unfold iterdir.
  destruct (is_dir_b m p), (exists_b m p); reflexivity.
Qed.

Lemma holds_cp a b : holds Phi (cp a b).
Proof. intros m. apply Phi_cp. Qed.

Lemma holds_rm_rf p : holds Phi (rm_rf p).
Proof. intros m. apply Phi_rm. Qed.

Lemma holds_json_load t : holds Phi (json_load t).
Proof.
  unfold json_load. destruct (utf8_decode t) as [u|]; [destruct (loads u)|];
    first [apply holds_ret | apply holds_raise]; exact Phi_nil.
Qed.

Lemma holds_print_u prefix s : holds Phi (print_u prefix s).
Proof.
  unfold print_u. destruct (utf8_encode s); [apply holds_print | apply holds_raise; exact Phi_nil].
Qed.

Lemma holds_as_dict v : holds Phi (as_dict v).
Proof. unfold as_dict. destruct v; first [apply holds_ret | apply holds_raise]; exact Phi_nil. Qed.

Lemma holds_extract_archive b d : holds Phi (extract_archive untar b d).
Proof.
  unfold extract_archive. apply (holds_bind Phi Phi_app); [apply holds_read_file|].
  intros data. destruct (untar data).
  - apply holds_silent. reflexivity.
  - apply holds_raise. exact Phi_nil.
Qed.

Ltac walk_with t :=
  repeat first
    [ t
    | apply holds_print | apply holds_print_u | apply holds_mkdir | apply holds_read_file | apply holds_iterdir
    | apply holds_cp | apply holds_rm_rf | apply holds_json_load | apply holds_as_dict
    | apply holds_extract_archive
    | apply (holds_ret Phi Phi_nil) | apply (holds_raise Phi Phi_nil)
    | apply (holds_query Phi Phi_nil)
    | apply (holds_bind Phi Phi_app); [ | intros ? ]
    | apply (holds_for Phi Phi_nil Phi_app); intros ? ?
    | progress cbn [negb andb]
    | match goal with |- holds _ (if ?b then _ else _) => destruct b end
    | match goal with |- holds _ (match ?l with [] => _ | _ :: _ => _ end) => destruct l end ].

Ltac walk := walk_with fail.

Lemma holds_restore_configs d : holds Phi (restore_configs listdir d).
Proof. unfold restore_configs, restore_config_file. walk. Qed.

(** Every event list of an import satisfies [Phi] when the volume restore
    does (it only runs when volumes are not skipped). *)
Lemma holds_import backup_file skip_volumes :
  (skip_volumes = false -> forall d, holds Phi (restore_volumes docker cwd_abs listdir d)) ->
  holds Phi (import_environment docker cwd_abs untar sha256_hex listdir backup_file skip_volumes).
Proof.
  intros Hvol.
  unfold import_environment, print_header, verify_checksum, locate_root, restore_from.
  destruct skip_volumes.
  - walk.
  - walk_with ltac:(apply Hvol; reflexivity).
Qed.

End Events.

Lemma holds_run (Phi : list event -> Prop) docker argv t :
  Phi [Cmd argv] -> holds Phi (run docker argv t).
Proof.
  intros H m. unfold run.
  destruct t as [t|]; [destruct (t <? duration (docker argv))|]; exact H.
Qed.

Lemma stop_first_app e1 e2 : stop_first e1 -> stop_first e2 -> stop_first (e1 ++ e2).
Proof.
  intros H1 H2 pre argv post Heq Hv.
  apply app_eq_app in Heq. destruct Heq as [l [[-> E] | [-> E]]].
  - destruct l as [|x l].
    + cbn in E. exfalso. apply (H2 [] argv post); [symmetry; exact E | exact Hv].
    + injection E as Ex Ep. subst x post.
      apply (H1 pre argv l); [reflexivity | exact Hv].
  - apply in_or_app. right. apply (H2 l argv post); [exact E | exact Hv].
Qed.

Lemma stop_first_single e :
  (forall argv, e = Cmd argv -> is_volume_step argv = false) -> stop_first [e].
Proof.
  intros H pre argv post Heq Hv. destruct pre as [|x pre].
  - injection Heq as ->. rewrite (H argv eq_refl) in Hv. discriminate.
  - injection Heq as _ Heq. destruct pre; discriminate.
Qed.

Lemma stop_first_after_stop ev : stop_first (Cmd stop_argv :: ev).
Proof.
  intros pre argv post Heq Hv. destruct pre as [|x pre].
  - injection Heq as E _. subst argv. discriminate Hv.
  - injection Heq as -> _. left. reflexivity.
Qed.

Lemma holds_stop_then {A} docker (k : completed -> M A) :
  holds stop_first (bind (run docker stop_argv None) k).
Proof.
  intros m. unfold bind. cbn [run].
  destruct (k (docker stop_argv) m) as [[r m2] ev2]. apply stop_first_after_stop.
Qed.

Lemma holds_restore_volumes_stop_first docker cwd_abs listdir d :
  holds stop_first (restore_volumes docker cwd_abs listdir d).
Proof.
  unfold restore_volumes.
  apply (holds_bind _ stop_first_app); [intros m; apply stop_first_single; intros ? E; discriminate E | intros _].
  apply (holds_bind _ stop_first_app); [intros m; apply stop_first_single; intros ? E; discriminate E | intros _].
  apply holds_stop_then.
Qed.

Lemma holds_restore_volumes_commands docker cwd_abs listdir d :
  holds (Forall (event_ok (import_command cwd_abs))) (restore_volumes docker cwd_abs listdir d).
Proof.
  assert (Happ : forall e1 e2 : list event, Forall (event_ok (import_command cwd_abs)) e1 ->
            Forall (event_ok (import_command cwd_abs)) e2 ->
            Forall (event_ok (import_command cwd_abs)) (e1 ++ e2))
    by (intros; apply Forall_app; split; assumption).
  assert (Hnil : Forall (event_ok (import_command cwd_abs)) []) by constructor.
  unfold restore_volumes, import_docker_volume, glob_tar_gz.
  repeat first
    [ apply (holds_bind _ Happ); [ | intros ? ]
    | apply (holds_for _ Hnil Happ); intros ? ?
    | apply (holds_ret _ Hnil) | apply (holds_query _ Hnil)
    | match goal with |- holds _ (if ?b then _ else _) => destruct b end
    ].
  all: first
    [ apply holds_run; constructor; [|constructor]; cbn [event_ok]; unfold import_command
    | intros m; cbn; repeat constructor ].
  - do 2 right; left; reflexivity.
  - do 3 right; left; eexists; reflexivity.
  - do 4 right; do 2 eexists; reflexivity.
Qed.


(** ** When the stop command is started *)

Lemma sor_bind_first {A B} (x : M A) (k : A -> M B) m :
  stops_or_raises (x m) -> stops_or_raises (bind x k m).
Proof.
  unfold bind, stops_or_raises. destruct (x m) as [[[a|e] m1] ev1]; cbn.
  - destruct (k a m1) as [[r m2] ev2]. intros [H|[e H]]; [left; apply in_or_app; left; exact H|discriminate].
  - intros _. right. exists e. reflexivity.
Qed.

Lemma sor_bind_any {A B} (x : M A) (k : A -> M B) m :
  (forall a m1 ev1, x m = (Ret a, m1, ev1) -> stops_or_raises (k a m1)) ->
  stops_or_raises (bind x k m).
Proof.
  intros H. unfold bind, stops_or_raises. destruct (x m) as [[[a|e] m1] ev1] eqn:E; cbn.
  - specialize (H a m1 ev1 eq_refl). unfold stops_or_raises in H.
    destruct (k a m1) as [[r m2] ev2]. cbn in *.
    destruct H as [H|H]; [left; apply in_or_app; right; exact H | right; exact H].
  - right. exists e. reflexivity.
Qed.

Lemma sor_restore_volumes docker cwd_abs listdir d m :
  stops_or_raises (restore_volumes docker cwd_abs listdir d m).
Proof.
  unfold restore_volumes.
  apply sor_bind_any. intros ? ? ? _.
  apply sor_bind_any. intros ? ? ? _.
  apply sor_bind_first. left. left. reflexivity.
Qed.

Lemma sor_prefix {A} (t : res A * fsmap * list event) pre :
  stops_or_raises t -> stops_or_raises (let '(r, m3, ev) := t in (r, m3, pre ++ ev)).
Proof.
  destruct t as [[r m3] ev]. unfold stops_or_raises. cbn.
  intros [H|H]; [left; apply in_or_app; right; exact H | right; exact H].
Qed.

Lemma json_load_text txt v : load_text txt = Some v -> json_load txt = ret v.
Proof.
  unfold load_text, json_load. destruct (utf8_decode txt); [|discriminate].
  intros ->. reflexivity.
Qed.

(** A restore that does not skip volumes, from a root whose manifest is a
    dict with format "full", starts the stop command unless it raises. *)
Lemma restore_from_full_stops docker cwd_abs listdir restore_dir m txt kvs :
  fs_lookup m (restore_dir ++ ["manifest.json"%string]) = Some (FileN txt) ->
  load_text txt = Some (PDict kvs) -> is_full kvs = true ->
  stops_or_raises (restore_from docker cwd_abs listdir restore_dir false m).
Proof.
  intros Hf Hl Hfull. unfold restore_from.
  eapply sor_bind_any. intros e m1 ev1 E. unfold path_exists, query in E.
  injection E as <- <- _. rewrite (exists_b_lookup _ _ _ Hf). cbn [negb].
  eapply sor_bind_any. intros t m2 ev2 E. unfold read_file in E. rewrite Hf in E.
  injection E as <- <- _.
  eapply sor_bind_any. intros v m3 ev3 E. rewrite (json_load_text _ _ Hl) in E.
  injection E as <- <- _.
  eapply sor_bind_any. intros d m4 ev4 E. cbn in E. injection E as <- <- _.
  do 6 (apply sor_bind_any; intros ? ? ? _).
  rewrite Hfull. cbn [negb andb].
  apply sor_bind_first. apply sor_restore_volumes.
Qed.

(** C9: in every import run, whatever its outcome: with [--skip-volumes]
    the command stopping the services is never started; every command
    creating or filling a volume comes after that stop command; every
    command the import starts is a copy, a removal, the stop command, a
    volume creation or an unpacking into a volume, so no service is ever
    started again; and without [--skip-volumes], when the archive passes
    the checksum check, is unpacked, and the manifest of the backup root the
    import picks is a dict whose format is "full", the stop command is
    started (before any volume command, by the second point) unless the run
    ends in an exception. *)
Theorem import_service_commands docker cwd_abs untar sha256_hex listdir
    (backup_file : path) (skip_volumes : bool) (m : fsmap) :
  let run := import_environment docker cwd_abs untar sha256_hex listdir backup_file skip_volumes m in
  let ev := snd run in
  (skip_volumes = true -> ~ In (Cmd stop_argv) ev)
  /\ stop_first ev
  /\ Forall (event_ok (import_command cwd_abs)) ev
  /\ (skip_volumes = false ->
      forall m1 data members evc restore_dir others txt kvs,
      fs_lookup m backup_file = Some (FileN data) ->
      verify_checksum sha256_hex backup_file m = (Ret true, m, evc) ->
      mkdir restore_temp m = (Ret tt, m1, []) ->
      untar data = Some members ->
      let m2 := extract_members restore_temp members m1 in
      is_dir_b m2 restore_temp = true ->
      filter (is_dir_b m2) (listdir m2 restore_temp) = restore_dir :: others ->
      fs_lookup m2 (restore_dir ++ ["manifest.json"%string]) = Some (FileN txt) ->
      load_text txt = Some (PDict kvs) ->
      is_full kvs = true ->
      stops_or_raises run).
Proof.
  intros run ev. split; [|split; [|split]].
  - intros Hs Hin. subst skip_volumes.
    assert (H : Forall (fun e => e <> Cmd stop_argv) ev).
    { apply (holds_import docker cwd_abs untar sha256_hex listdir (Forall (fun e => e <> Cmd stop_argv))).
      - constructor.
      - intros; apply Forall_app; split; assumption.
      - intros; constructor; [discriminate | constructor].
      - intros; constructor; [unfold stop_argv; discriminate | constructor].
      - intros; constructor; [unfold stop_argv; discriminate | constructor].
      - discriminate. }
    rewrite Forall_forall in H. exact (H _ Hin eq_refl).
  - apply (holds_import docker cwd_abs untar sha256_hex listdir stop_first).
    + intros pre argv post Heq. destruct pre; discriminate.
    + exact stop_first_app.
    + intros s. apply stop_first_single. intros ? E; discriminate E.
    + intros a b. apply stop_first_single. intros argv E. injection E as <-. reflexivity.
    + intros p. apply stop_first_single. intros argv E. injection E as <-. reflexivity.
    + intros _ d. apply holds_restore_volumes_stop_first.
  - apply (holds_import docker cwd_abs untar sha256_hex listdir (Forall (event_ok (import_command cwd_abs)))).
    + constructor.
    + intros; apply Forall_app; split; assumption.
    + intros s. constructor; [exact I | constructor].
    + intros a b. constructor; [|constructor]. left. do 2 eexists. reflexivity.
    + intros p. constructor; [|constructor]. right. left. eexists. reflexivity.
    + intros _ d. apply holds_restore_volumes_commands.
  - intros Hs m1 data members evc restore_dir others txt kvs Hb Hv Hd Hu m2 Hr Hf Hm Hl Hfull.
    subst skip_volumes. unfold run.
    rewrite (proj2 (import_backup_root docker cwd_abs untar sha256_hex listdir backup_file false
                      m m1 data members evc Hb Hv Hd Hu Hr) restore_dir others Hf).
    apply sor_prefix. exact (restore_from_full_stops _ _ _ _ _ _ _ Hm Hl Hfull).
Qed.

(** C3, a defect of the code: an archive that unpacks into two top-level
    directories [a] and [b], each with a manifest, is not refused. Whatever
    the order in which the file system lists them, the import goes on with
    one of them, returns [True] and reports completion, and never prints
    "Invalid backup structure". *)
Theorem import_two_roots_accepted (listdir : listing) :
  listing_ok listdir ->
  let '(r, _, ev) :=
    import_environment Sample.docker_a_fails Sample.cwd Sample.untar Sample.sha256_hex listdir
      Sample.archive_path false (Sample.fs_with_archive Sample.two_manifests) in
  r = Ret true /\ ~ In (Out "Invalid backup structure") ev /\ In (Out "Import Complete!") ev.
Proof.
  intros Hl.
  set (m0 := Sample.fs_with_archive Sample.two_manifests).
  set (m1 := m0 ++ [(restore_temp, DirN)]).
  set (m2 := extract_members restore_temp Sample.two_manifests m1).
  assert (Hc : children m2 restore_temp
               = [restore_temp ++ ["a"%string]; restore_temp ++ ["b"%string]])
    by (vm_compute; reflexivity).
  pose proof (Hl m2 restore_temp) as Hp. rewrite Hc in Hp.
  apply Permutation_sym, Permutation_length_2_inv in Hp.
  assert (Root := fun rd others =>
    proj2 (import_backup_root Sample.docker_a_fails Sample.cwd Sample.untar
             Sample.sha256_hex listdir Sample.archive_path false m0 m1
             (Sample.tar_gz Sample.two_manifests) Sample.two_manifests []
             ltac:(vm_compute; reflexivity) ltac:(vm_compute; reflexivity)
             ltac:(vm_compute; reflexivity) ltac:(vm_compute; reflexivity)
             ltac:(vm_compute; reflexivity)) rd others).
  destruct Hp as [E|E]; fold m2 in Root; rewrite E in Root.
  - rewrite (Root (restore_temp ++ ["a"%string]) [restore_temp ++ ["b"%string]]
               ltac:(vm_compute; reflexivity)).
    vm_compute. split; [reflexivity | split].
    + intros H. repeat (destruct H as [H|H]; [discriminate H|]). exact H.
    + repeat (first [left; reflexivity | right]).
  - rewrite (Root (restore_temp ++ ["b"%string]) [restore_temp ++ ["a"%string]]
               ltac:(vm_compute; reflexivity)).
    vm_compute. split; [reflexivity | split].
    + intros H. repeat (destruct H as [H|H]; [discriminate H|]). exact H.
    + repeat (first [left; reflexivity | right]).
Qed.

(** C4, refuted: importing an archive whose backup root has no manifest
    returns [False] without removing [backups/restore_temp]; no [rm -rf]
    (indeed no command at all) is run. *)
Theorem import_missing_manifest_keeps_scratch :
  let '(r, m', ev) :=
    import_environment Sample.docker_a_fails Sample.cwd Sample.untar Sample.sha256_hex
      Sample.listdir Sample.archive_path false (Sample.fs_with_archive Sample.no_manifest) in
  r = Ret false /\ last ev (Out "") = Out "Manifest not found in backup"
  /\ is_dir_b m' restore_temp = true /\ cmds ev = [].
Proof. vm_compute. repeat split; reflexivity. Qed.



(** A full, non-skipped import of an archive with one backup root: the run
    meets every hypothesis of the last part of C9. *)
Lemma import_service_commands_witness :
  stops_or_raises
    (import_environment Sample.docker_a_fails Sample.cwd Sample.untar Sample.sha256_hex
       Sample.listdir Sample.archive_path false (Sample.fs_with_archive Sample.full_root)).
Proof.
  refine (proj2 (proj2 (proj2 (import_service_commands Sample.docker_a_fails Sample.cwd
            Sample.untar Sample.sha256_hex Sample.listdir Sample.archive_path false
            (Sample.fs_with_archive Sample.full_root))))
            eq_refl (Sample.fs_with_archive Sample.full_root ++ [(restore_temp, DirN)])
            (Sample.tar_gz Sample.full_root) Sample.full_root [] (restore_temp ++ ["a"%string]) []
            (string_of_bytes (dumps Sample.manifest_full))
            [(KStr (lit "format"), PStr (lit "full"))] _ _ _ _ _ _ _ _ _).
  all: vm_compute; reflexivity.
Defined.

Lemma import_two_roots_accepted_witness :
  listing_ok Sample.listdir
  /\ let '(r, _, ev) :=
       import_environment Sample.docker_a_fails Sample.cwd Sample.untar Sample.sha256_hex
         Sample.listdir Sample.archive_path false (Sample.fs_with_archive Sample.two_manifests) in
     r = Ret true /\ ~ In (Out "Invalid backup structure") ev /\ In (Out "Import Complete!") ev.
Proof.
  assert (Hl : listing_ok Sample.listdir) by (intros m p; apply Permutation_refl).
  split; [exact Hl | exact (import_two_roots_accepted Sample.listdir Hl)].
Defined.

End ImportFacts.

(* ================================================================== *)
(** * Restoring the configuration files *)

Module ConfigFacts.
Import Json Cli CliProps CliFacts.

Lemma path_eqb_length p q : path_eqb p q = true -> length p = length q.
Proof. intros H. apply path_eqb_eq in H. subst. reflexivity. Qed.

Lemma fs_lookup_put_long m t n p :
  length t < length p -> fs_lookup (fs_put m t n) p = fs_lookup m p.
Proof.
  intros H. apply fs_lookup_put_other. intros ->. lia.
Qed.

(** A copy to a top-level name writes at most two levels deep. *)
Lemma cp_effect_deep src x m p :
  3 <= length p -> fs_lookup (cp_effect src [x] m) p = fs_lookup m p.
Proof.
  intros H. unfold cp_effect.
  destruct (fs_lookup m src) as [[d|]|]; [|reflexivity|reflexivity].
  destruct (is_dir_b m [x]); cbn [app];
    destruct (is_dir_b m _); [reflexivity| |reflexivity|];
    (destruct (is_dir_b m _); [|reflexivity]);
    apply fs_lookup_put_long; cbn [length]; lia.
Qed.

Lemma restore_step_deep m q p :
  3 <= length p -> fs_lookup (restore_step m q) p = fs_lookup m p.
Proof. apply cp_effect_deep. Qed.

Lemma fold_restore_deep qs m p :
  3 <= length p -> fs_lookup (fold_left restore_step qs m) p = fs_lookup m p.
Proof.
  revert m. induction qs as [|q qs IH]; intros m H; cbn; [reflexivity|].
  rewrite IH by exact H. apply restore_step_deep. exact H.
Qed.

Lemma restore_config_file_run q m :
  restore_config_file q m
  = if is_file_b m q then (Ret tt, restore_step m q, restore_events q) else (Ret tt, m, []).
Proof. unfold restore_config_file, is_file, query, bind. cbn. destruct (is_file_b m q); reflexivity. Qed.

Lemma for_restore_config_file (l : list path) (m : fsmap) :
  Forall (fun q => 3 <= length q) l ->
  for_ l restore_config_file m
  = (Ret tt, fold_left restore_step (filter (is_file_b m) l) m,
     flat_map restore_events (filter (is_file_b m) l)).
Proof.
  revert m. induction l as [|q l IH]; intros m Hl; [reflexivity|].
  inversion Hl as [|? ? Hq Hl']; subst.
  cbn [for_ filter].
  assert (Hf : filter (is_file_b (restore_step m q)) l = filter (is_file_b m) l).
  { apply filter_ext_in. intros q' Hin. unfold is_file_b.
    rewrite restore_step_deep; [reflexivity|].
    rewrite Forall_forall in Hl'. exact (Hl' q' Hin). }
  pose proof (restore_config_file_run q m) as Hq1.
  destruct (is_file_b m q) eqn:Ef.
  - rewrite <- Hf. cbn [fold_left flat_map].
    eapply bind_runs; [exact Hq1|]. apply IH. exact Hl'.
  - eapply runs_ev.
    { eapply bind_runs; [exact Hq1|]. apply IH. exact Hl'. }
    reflexivity.
Qed.

Lemma children_length m p q : In q (children m p) -> length q = S (length p).
Proof.
  unfold children. rewrite in_map_iff. intros [[q' n] [<- Hin]].
  apply filter_In in Hin as [_ Hc]. cbn in Hc. unfold is_child in Hc.
  apply andb_true_iff in Hc as [_ Hc]. apply Nat.eqb_eq. exact Hc.
Qed.

Lemma is_dir_b_exists_b m p : is_dir_b m p = true -> exists_b m p = true.
Proof.
  unfold is_dir_b, exists_b. destruct p; [reflexivity|].
  destruct (fs_lookup m _) as [[]|]; congruence.
Qed.

(** C10: restoring the configuration files of a backup root [d] whose
    [configs] directory exists copies exactly the regular files directly
    inside [configs], in the order the file system lists them, each to its
    name in the working directory; an entry that is a directory, such as
    the [searxng] group, is neither copied nor descended into. *)
Theorem restore_configs_top_level_files (listdir : listing) (d : path) (m : fsmap) :
  listing_ok listdir ->
  1 <= length d ->
  is_dir_b m (d ++ ["configs"%string]) = true ->
  let qs := filter (is_file_b m) (listdir m (d ++ ["configs"%string])) in
  restore_configs listdir d m
  = (Ret tt, fold_left restore_step qs m,
     Out "Restoring configuration files..." :: flat_map restore_events qs)
  /\ (forall q, In q qs ->
        is_child (d ++ ["configs"%string]) q = true /\ is_file_b m q = true).
Proof.
  intros Hl Hd Hc qs. split.
  - unfold restore_configs.
    eapply runs_ev.
    { eapply bind_runs; [reflexivity|]. cbv beta.
      eapply bind_runs; [unfold path_exists, query; rewrite (is_dir_b_exists_b _ _ Hc); reflexivity|]. cbv beta iota.
      eapply bind_runs; [unfold iterdir; rewrite Hc; reflexivity|]. cbv beta.
      apply for_restore_config_file. apply Forall_forall. intros q Hq.
      apply (Permutation_in _ (Hl m _)), children_length in Hq. rewrite Hq, length_app. cbn. lia. }
    reflexivity.
  - intros q Hq. unfold qs in Hq. apply filter_In in Hq as [Hq Hf]. split; [|exact Hf].
    apply (Permutation_in _ (Hl m _)) in Hq. unfold children in Hq. apply in_map_iff in Hq as [[q' n] [<- Hin]].
    apply filter_In in Hin as [_ Hch]. exact Hch.
Qed.

Lemma restore_configs_top_level_files_witness :
  cmds (snd (restore_configs Sample.listdir_rev Sample.root_a Sample.fs_nested_configs))
  = [["cp"; "backups/restore_temp/a/configs/.env"; ".env"]]%string.
Proof.
  rewrite (proj1 (restore_configs_top_level_files Sample.listdir_rev Sample.root_a
                    Sample.fs_nested_configs ltac:(intros m p; symmetry; apply Permutation_rev)
                    ltac:(vm_compute; lia) ltac:(vm_compute; reflexivity))).
  vm_compute. reflexivity.
Defined.

End ConfigFacts.

(* ================================================================== *)
(** * Exports *)

Module ExportFacts.
Import Json Cli CliProps CliFacts.

Lemma get_docker_volumes_run docker m :
  get_docker_volumes docker m = (Ret (listed_volumes docker), m, [Cmd volume_ls_argv]).
Proof.
  unfold get_docker_volumes, listed_volumes, volume_ls_argv, bind, run.
  destruct (Z.eqb (returncode (docker _)) 0); reflexivity.
Qed.

Lemma get_running_containers_run docker m :
  get_running_containers docker m = (Ret (listed_containers docker), m, [Cmd ps_argv]).
Proof.
  unfold get_running_containers, listed_containers, ps_argv, bind, run.
  destruct (Z.eqb (returncode (docker _)) 0); reflexivity.
Qed.

(** The run of [collect_metadata] up to the test for the bootstrap file. *)
Ltac collect_prefix :=
  unfold collect_metadata;
  eapply bind_runs; [reflexivity|]; cbv beta;
  eapply bind_runs; [apply get_running_containers_run|]; cbv beta;
  eapply bind_runs; [apply get_docker_volumes_run|]; cbv beta zeta;
  eapply bind_runs; [unfold path_exists, query; reflexivity|]; cbv beta.

(** ** Reading and merging the bootstrap metadata touches nothing *)

Lemma pure_ret {A} (a : A) : pure (ret a).
Proof. exists (Ret a). reflexivity. Qed.

Lemma pure_raise {A} e : pure (@raise A e).
Proof. exists (Raise e). reflexivity. Qed.

Lemma pure_bind {A B} (x : M A) (k : A -> M B) :
  pure x -> (forall a, pure (k a)) -> pure (bind x k).
Proof.
  intros [[a|e] Hx] Hk.
  - destruct (Hk a) as [r Hr]. exists r. intros m. unfold bind. rewrite Hx, Hr. reflexivity.
  - exists (Raise e). intros m. unfold bind. rewrite Hx. reflexivity.
Qed.

Ltac pure_cases :=
  repeat match goal with
         | |- pure (match ?e with _ => _ end) => destruct e
         end;
  first [apply pure_ret | apply pure_raise].

Lemma update_pair_pure x : pure (update_pair x).
Proof. unfold update_pair. pure_cases. Qed.

Lemma update_pairs_pure xs : pure (update_pairs xs).
Proof.
  induction xs as [|x xs IH]; cbn [update_pairs]; [apply pure_ret|].
  apply pure_bind; [apply update_pair_pure | intros kv].
  apply pure_bind; [exact IH | intros kvs; apply pure_ret].
Qed.

Lemma dict_update_pure d v : pure (dict_update d v).
Proof.
  unfold dict_update. destruct v as [| | | |s|xs|kvs]; try apply pure_raise.
  - destruct s; [apply pure_ret | apply pure_raise].
  - apply pure_bind; [apply update_pairs_pure | intros kvs; apply pure_ret].
  - apply pure_ret.
Qed.

Lemma json_load_pure txt : pure (json_load txt).
Proof. unfold json_load. pure_cases. Qed.

Lemma bootstrap_not_dir : bootstrap_file <> [].
Proof. discriminate. Qed.

(** [collect_metadata] changes nothing, and what it returns and prints
    depends only on what lies at [.bootstrap_metadata.json]. *)
Lemma collect_metadata_frame docker now_iso format m m1 :
  fs_lookup m1 bootstrap_file = fs_lookup m bootstrap_file ->
  exists r ev, collect_metadata docker now_iso format m = (r, m, ev)
               /\ collect_metadata docker now_iso format m1 = (r, m1, ev).
Proof.
  intros E.
  destruct (fs_lookup m bootstrap_file) as [[txt|]|] eqn:Eb; unfold bootstrap_file in *.
  - assert (Hx : exists_b m [".bootstrap_metadata.json"%string] = true)
      by (eapply ImportFacts.exists_b_lookup; exact Eb).
    assert (Hx1 : exists_b m1 [".bootstrap_metadata.json"%string] = true)
      by (eapply ImportFacts.exists_b_lookup; exact E).
    destruct (json_load_pure txt) as [[v|e] Hj].
    + destruct (dict_update_pure
                  [(KStr (lit "version"), PStr (lit "1.0"));
                   (KStr (lit "timestamp"), PStr (lit now_iso));
                   (KStr (lit "format"), PStr (fsdecode format));
                   (KStr (lit "containers"),
                    PList (map (fun n => PStr (lit n)) (listed_containers docker)));
                   (KStr (lit "volumes"),
                    PList (map (fun n => PStr (lit n)) (listed_volumes docker)))]%string v)
        as [r Hd].
      exists r. eexists. split.
      * collect_prefix. rewrite Hx.
        eapply bind_runs; [unfold read_file; rewrite Eb; reflexivity|]. cbv beta.
        eapply bind_runs; [apply Hj|]. apply Hd.
      * collect_prefix. rewrite Hx1.
        eapply bind_runs; [unfold read_file; rewrite E; reflexivity|]. cbv beta.
        eapply bind_runs; [apply Hj|]. apply Hd.
    + exists (Raise e). eexists. split.
      * collect_prefix. rewrite Hx.
        eapply bind_runs; [unfold read_file; rewrite Eb; reflexivity|]. cbv beta.
        apply bind_raise. apply Hj.
      * collect_prefix. rewrite Hx1.
        eapply bind_runs; [unfold read_file; rewrite E; reflexivity|]. cbv beta.
        apply bind_raise. apply Hj.
  - assert (Hx : exists_b m [".bootstrap_metadata.json"%string] = true)
      by (eapply ImportFacts.exists_b_lookup; exact Eb).
    assert (Hx1 : exists_b m1 [".bootstrap_metadata.json"%string] = true)
      by (eapply ImportFacts.exists_b_lookup; exact E).
    exists (Raise IsADirectoryError). eexists. split.
    + collect_prefix. rewrite Hx. apply bind_raise. unfold read_file. rewrite Eb. reflexivity.
    + collect_prefix. rewrite Hx1. apply bind_raise. unfold read_file. rewrite E. reflexivity.
  - assert (Hx : exists_b m [".bootstrap_metadata.json"%string] = false)
      by (unfold exists_b; rewrite Eb; reflexivity).
    assert (Hx1 : exists_b m1 [".bootstrap_metadata.json"%string] = false)
      by (unfold exists_b; rewrite E; reflexivity).
    exists (Ret (base_metadata docker now_iso format)). eexists. split.
    + collect_prefix. rewrite Hx. reflexivity.
    + collect_prefix. rewrite Hx1. reflexivity.
Qed.

Lemma collect_metadata_absent docker now_iso format m :
  fs_lookup m bootstrap_file = None ->
  collect_metadata docker now_iso format m
  = (Ret (base_metadata docker now_iso format), m,
     [Out "Collecting metadata..."%string; Cmd ps_argv; Cmd volume_ls_argv]).
Proof.
  intros Eb. unfold bootstrap_file in Eb.
  assert (Hex : exists_b m [".bootstrap_metadata.json"%string] = false)
    by (unfold exists_b; rewrite Eb; reflexivity).
  eapply runs_ev; [collect_prefix; rewrite Hex; reflexivity | reflexivity].
Qed.

(** ** The metadata as a JSON value *)

Lemma bind_ret_inv {A B} (x : M A) (k : A -> M B) m b m2 ev :
  bind x k m = (Ret b, m2, ev) ->
  exists a m1 ev1, x m = (Ret a, m1, ev1) /\ exists ev2, k a m1 = (Ret b, m2, ev2).
Proof.
  unfold bind. destruct (x m) as [[[a|e] m1] ev1]; [|discriminate].
  destruct (k a m1) as [[r m3] ev3] eqn:E. intros H. injection H as -> -> _.
  exists a, m1, ev1. split; [reflexivity|]. exists ev3. exact E.
Qed.

(** What the metadata may hold: keys well-formed when they are strings,
    values that [json.load] can produce, nested below an object. *)
Definition meta_key (k : pykey) : Prop := key_wf k = true.
Definition meta_val (v : pyval) : Prop :=
  json_ok (fun _ => true) v = true /\ (S (depth v) <= max_depth)%nat.

Lemma dict_set_kd d k v : keys_distinct d = true -> keys_distinct (dict_set d k v) = true.
Proof.
  induction d as [|[k0 v0] d IH]; cbn [dict_set keys_distinct]; [reflexivity|].
  intros H. apply andb_true_iff in H as [Hf Hd].
  destruct (key_eqb k k0) eqn:E; cbn [keys_distinct fst].
  - rewrite Hf, Hd. reflexivity.
  - rewrite IH by exact Hd. rewrite andb_true_r. apply forallb_forall.
    intros kv Hin. destruct (JsonFacts.dict_set_keys d k v kv Hin) as [Hk | ->].
    + apply in_map_iff in Hk as [kv' [Ek Hin']]. rewrite forallb_forall in Hf.
      rewrite <- Ek. exact (Hf kv' Hin').
    + rewrite JsonFacts.key_eqb_sym, E. reflexivity.
Qed.

Lemma dict_set_all_ok d kvs :
  keys_distinct d = true ->
  (forall kv, In kv d -> meta_key (fst kv) /\ meta_val (snd kv)) ->
  (forall kv, In kv kvs -> meta_key (fst kv) /\ meta_val (snd kv)) ->
  keys_distinct (dict_set_all d kvs) = true
  /\ (forall kv, In kv (dict_set_all d kvs) -> meta_key (fst kv) /\ meta_val (snd kv)).
Proof.
  unfold dict_set_all. revert d.
  induction kvs as [|[k v] kvs IH]; intros d Hd Hdv Hkvs; cbn [fold_left]; [auto|].
  apply IH.
  - apply dict_set_kd. exact Hd.
  - apply JsonFacts.dict_set_KV; [exact Hdv | exact (proj1 (Hkvs _ (or_introl eq_refl)))
                                 | exact (proj2 (Hkvs _ (or_introl eq_refl)))].
  - intros kv Hin. exact (Hkvs kv (or_intror Hin)).
Qed.

Lemma kd_str_keys kvs :
  keys_distinct kvs = true -> (forall kv, In kv kvs -> meta_key (fst kv)) ->
  (forall kv, In kv kvs -> exists s, fst kv = KStr s) -> str_keys_distinct kvs = true.
Proof.
  induction kvs as [|[k v] kvs IH]; intros Hd Hk Hs; [reflexivity|].
  cbn [keys_distinct] in Hd. apply andb_true_iff in Hd as [Hf Hd].
  cbn [str_keys_distinct]. rewrite Hf, IH; [|exact Hd | intros kv Hin; apply Hk; right; exact Hin
                                           | intros kv Hin; apply Hs; right; exact Hin].
  destruct (Hs (k, v) (or_introl eq_refl)) as [s Es]. cbn [fst] in Es. subst k.
  pose proof (Hk (KStr s, v) (or_introl eq_refl)) as H. unfold meta_key in H. cbn in H |- *.
  rewrite H. reflexivity.
Qed.

Lemma lit_meta_val s : meta_val (PStr (lit s)).
Proof.
  split; [|cbn; unfold max_depth; lia]. cbn [json_ok]. unfold wf_str, lit, bytes.
  apply andb_true_iff. split.
  - apply forallb_forall. intros c Hc. apply in_map_iff in Hc as [a [<- _]].
    unfold wf_cp. pose proof (Ascii.nat_ascii_bounded a). apply andb_true_iff. lia.
  - generalize (list_ascii_of_string s). intros l.
    induction l as [|a l IH]; [reflexivity|]. destruct l as [|b l]; [reflexivity|].
    cbn [map no_split_pair] in *. rewrite IH.
    pose proof (Ascii.nat_ascii_bounded a).
    replace (is_high (Z.of_nat (nat_of_ascii a))) with false; [reflexivity|].
    symmetry. unfold is_high. apply andb_false_iff. left. apply Z.leb_gt. lia.
Qed.

Lemma fsdec_cps fuel s :
  forallb (fun b => (0 <=? b)%Z && (b <? 256)%Z) s = true ->
  forallb (fun c => wf_cp c && negb (is_high c)) (fsdec fuel s) = true.
Proof.
  revert s. induction fuel as [|f IH]; intros s Hs; destruct s as [|b s1]; try reflexivity.
  cbn [fsdec]. cbn [forallb] in Hs. apply andb_true_iff in Hs as [Hb Hs1].
  destruct (utf8_char (b :: s1)) as [[c r]|] eqn:Eu.
  - assert (Hnn : forallb (fun b => 0 <=? b)%Z (b :: s1) = true).
    { cbn [forallb]. apply andb_true_iff in Hb as [Hb _]. rewrite Hb. cbn.
      apply forallb_forall. intros x Hx. rewrite forallb_forall in Hs1.
      specialize (Hs1 x Hx). apply andb_true_iff in Hs1. tauto. }
    destruct (JsonFacts.utf8_char_src _ _ _ Hnn Eu) as [Hc [p Ep]].
    cbn [forallb]. apply JsonFacts.src_cp_ok in Hc as (Hc1 & Hc2 & _).
    rewrite Hc1, Hc2. cbn [negb andb]. apply IH.
    assert (Hall : forallb (fun b => (0 <=? b)%Z && (b <? 256)%Z) (b :: s1) = true)
      by (cbn [forallb]; rewrite Hb, Hs1; reflexivity).
    rewrite Ep in Hall. rewrite forallb_app in Hall. apply andb_true_iff in Hall. tauto.
  - cbn [forallb]. apply andb_true_iff in Hb as [Hb1 Hb2].
    apply Z.leb_le in Hb1. apply Z.ltb_lt in Hb2.
    replace (wf_cp (56320 + b)) with true
      by (symmetry; unfold wf_cp; apply andb_true_iff; split; [apply Z.leb_le | apply Z.ltb_lt]; lia).
    replace (is_high (56320 + b)) with false
      by (symmetry; unfold is_high; apply andb_false_iff; right; apply Z.leb_gt; lia).
    cbn [negb andb]. apply IH. exact Hs1.
Qed.

Lemma nsp_no_high s : forallb (fun c => negb (is_high c)) s = true -> no_split_pair s = true.
Proof.
  induction s as [|a s IH]; intros H; [reflexivity|].
  cbn [forallb] in H. apply andb_true_iff in H as [Ha H].
  destruct s as [|b s]; [reflexivity|].
  cbn [no_split_pair]. apply negb_true_iff in Ha. rewrite Ha. cbn [andb negb]. apply IH. exact H.
Qed.

Lemma bytes_range s : forallb (fun b => (0 <=? b)%Z && (b <? 256)%Z) (bytes s) = true.
Proof.
  apply forallb_forall. intros b Hb. unfold bytes in Hb. apply in_map_iff in Hb as [a [<- _]].
  pose proof (Ascii.nat_ascii_bounded a). apply andb_true_iff. split; [apply Z.leb_le | apply Z.ltb_lt]; lia.
Qed.

Lemma fsdecode_meta_val s : meta_val (PStr (fsdecode s)).
Proof.
  split; [|cbn; unfold max_depth; lia]. cbn [json_ok]. unfold wf_str, fsdecode.
  pose proof (fsdec_cps (String.length s) (bytes s) (bytes_range s)) as H.
  rewrite forallb_forall in H. apply andb_true_iff. split.
  - apply forallb_forall. intros c Hc. specialize (H c Hc). apply andb_true_iff in H. tauto.
  - apply nsp_no_high. apply forallb_forall. intros c Hc. specialize (H c Hc).
    apply andb_true_iff in H. tauto.
Qed.

Lemma lits_meta_val l : meta_val (PList (map (fun n => PStr (lit n)) l)).
Proof.
  split.
  - cbn [json_ok]. apply forallb_forall. intros x Hx. apply in_map_iff in Hx as [n [<- _]].
    exact (proj1 (lit_meta_val n)).
  - pose proof (JsonFacts.depth_list_bound 1 991 (map (fun n => PStr (lit n)) l) ltac:(lia)) as Hb.
    assert (Hb' : (1 + depth (PList (map (fun n => PStr (lit n)) l)) <= S 991)%nat).
    { apply Hb. intros y Hy. apply in_map_iff in Hy as [n [<- _]]. cbn. lia. }
    unfold max_depth. lia.
Qed.

Lemma base_metadata_ok docker now_iso format :
  keys_distinct (base_metadata docker now_iso format) = true
  /\ forall kv, In kv (base_metadata docker now_iso format) -> meta_key (fst kv) /\ meta_val (snd kv).
Proof.
  split; [reflexivity|].
  intros kv Hin. unfold base_metadata in Hin.
  repeat (destruct Hin as [<-|Hin]; [split; [reflexivity | cbn [snd]] |]);
    try destruct Hin.
  - apply lit_meta_val.
  - apply lit_meta_val.
  - apply fsdecode_meta_val.
  - apply lits_meta_val.
  - apply lits_meta_val.
Qed.

Lemma json_load_ret txt v m m' ev : json_load txt m = (Ret v, m', ev) -> load_text txt = Some v.
Proof.
  unfold json_load, load_text. destruct (utf8_decode txt) as [u|]; [|discriminate].
  destruct (loads u) as [w|]; [|discriminate]. intros H. injection H as -> _ _. reflexivity.
Qed.

Lemma update_pair_ok x m kv m' ev :
  update_pair x m = (Ret kv, m', ev) -> json_ok (fun _ => true) x = true ->
  (S (depth x) <= max_depth)%nat -> meta_key (fst kv) /\ meta_val (snd kv).
Proof.
  intros H Hj Hd. unfold update_pair in H.
  destruct x as [| | | |s|xs|kvs]; unfold ret, raise in H; try discriminate H.
  - destruct s as [|a [|b [|c s]]]; try discriminate H.
    injection H as <- _ _. cbn [json_ok] in Hj. unfold wf_str in Hj. cbn [forallb no_split_pair] in Hj.
    repeat rewrite andb_true_iff in Hj. destruct Hj as [[Ha [Hb _]] _].
    cbn [fst snd]. unfold meta_key, meta_val, key_wf. cbn [json_ok depth]. unfold wf_str.
    cbn [forallb no_split_pair]. rewrite Ha, Hb. split; [reflexivity | split; [reflexivity | unfold max_depth; lia]].
  - destruct xs as [|k [|v [|w xs]]]; try discriminate H.
    destruct (key_of_val k) as [k'|] eqn:Ek; [|discriminate H].
    injection H as <- _ _. cbn [json_ok forallb] in Hj. repeat rewrite andb_true_iff in Hj.
    destruct Hj as [Hk [Hv _]]. cbn [depth map list_max fold_right] in Hd.
    cbn [fst snd]. split.
    + unfold meta_key. destruct k; cbn in Ek; try discriminate Ek; injection Ek as <-;
        try reflexivity. exact Hk.
    + split; [exact Hv | lia].
  - destruct kvs as [|[k1 x1] l]; [discriminate H|].
    destruct l as [|[k2 x2] l]; [discriminate H|]. destruct l; [|discriminate H].
    injection H as <- _ _. cbn [json_ok str_keys_distinct forallb fst snd] in Hj.
    repeat match goal with H : _ && _ = true |- _ => apply andb_true_iff in H as [? ?] end.
    assert (Hk1 : is_str_key k1 = true) by assumption.
    assert (Hk2 : is_str_key k2 = true) by assumption.
    cbn [fst snd]. split.
    + unfold meta_key. destruct k1; try discriminate Hk1. exact Hk1.
    + destruct k2; try discriminate Hk2. split; [exact Hk2 | cbn; unfold max_depth; lia].
Qed.

Lemma update_pairs_ok xs : forall m kvs m' ev,
  update_pairs xs m = (Ret kvs, m', ev) -> forallb (json_ok (fun _ => true)) xs = true ->
  (forall x, In x xs -> S (depth x) <= max_depth)%nat ->
  forall kv, In kv kvs -> meta_key (fst kv) /\ meta_val (snd kv).
Proof.
  induction xs as [|x xs IH]; intros m kvs m' ev H Hj Hd; cbn [update_pairs] in H.
  - injection H as <- _ _. intros kv [].
  - apply bind_ret_inv in H as (kv0 & m1 & ev1 & H1 & ev2 & H).
    apply bind_ret_inv in H as (kvs0 & m2 & ev3 & H2 & ev4 & H).
    injection H as <- _ _. cbn [forallb] in Hj. apply andb_true_iff in Hj as [Hx Hxs].
    intros kv [<- | Hin].
    + exact (update_pair_ok x m kv0 m1 ev1 H1 Hx (Hd x (or_introl eq_refl))).
    + exact (IH m1 kvs0 m2 ev3 H2 Hxs (fun y Hy => Hd y (or_intror Hy)) kv Hin).
Qed.

Lemma dict_update_ok d v m md m' ev :
  dict_update d v m = (Ret md, m', ev) -> json_ok (fun _ => true) v = true ->
  (depth v <= max_depth)%nat ->
  exists kvs, md = dict_set_all d kvs
              /\ forall kv, In kv kvs -> meta_key (fst kv) /\ meta_val (snd kv).
Proof.
  intros H Hj Hd. unfold dict_update in H.
  destruct v as [| | | |s|xs|kvs]; unfold ret, raise in H; try discriminate H.
  - destruct s; [|discriminate H]. injection H as <- _ _. exists []. split; [reflexivity | intros kv []].
  - apply bind_ret_inv in H as (kvs & m1 & ev1 & H1 & ev2 & H). injection H as <- _ _.
    exists kvs. split; [reflexivity|].
    eapply update_pairs_ok; [exact H1 | exact Hj |].
    intros x Hx. pose proof (JsonFacts.depth_list_elems 0 xs ltac:(exact Hd)) as Hf.
    rewrite Forall_forall in Hf. exact (Hf x Hx).
  - injection H as <- _ _. exists kvs. split; [reflexivity|].
    rewrite JsonFacts.json_ok_dict in Hj. apply andb_true_iff in Hj as [Hk Hv].
    pose proof (JsonFacts.str_keys_distinct_keys kvs Hk) as Hk'.
    pose proof (JsonFacts.depth_dict_elems 0 kvs ltac:(exact Hd)) as Hf.
    rewrite forallb_forall in Hk', Hv. rewrite Forall_forall in Hf.
    intros kv Hin. split.
    + specialize (Hk' kv Hin). unfold meta_key. destruct (fst kv); try discriminate Hk'. exact Hk'.
    + split; [exact (Hv kv Hin) | exact (Hf kv Hin)].
Qed.

Lemma collect_metadata_file docker now_iso format m txt :
  fs_lookup m bootstrap_file = Some (FileN txt) ->
  forall r m2 ev2,
    bind (json_load txt) (dict_update (base_metadata docker now_iso format)) m = (r, m2, ev2) ->
    collect_metadata docker now_iso format m
    = (r, m2, [Out "Collecting metadata..."%string; Cmd ps_argv; Cmd volume_ls_argv] ++ ev2).
Proof.
  intros Eb r m2 ev2 H. unfold bootstrap_file in Eb.
  assert (Hx : exists_b m [".bootstrap_metadata.json"%string] = true)
    by (eapply ImportFacts.exists_b_lookup; exact Eb).
  eapply runs_ev.
  { collect_prefix. rewrite Hx.
    eapply bind_runs; [unfold read_file; rewrite Eb; reflexivity|]. cbv beta. exact H. }
  reflexivity.
Qed.

(** The metadata [collect_metadata] returns: the base fields updated with
    the bootstrap file's entries, each a value [json.load] produces. *)
Lemma collect_metadata_meta docker now_iso format m md m' ev :
  collect_metadata docker now_iso format m = (Ret md, m', ev) ->
  exists kvs, md = dict_set_all (base_metadata docker now_iso format) kvs
              /\ forall kv, In kv kvs -> meta_key (fst kv) /\ meta_val (snd kv).
Proof.
  intros H.
  destruct (fs_lookup m bootstrap_file) as [[txt|]|] eqn:Eb.
  - destruct (json_load_pure txt) as [r Hj].
    destruct (bind (json_load txt) (dict_update (base_metadata docker now_iso format)) m)
      as [[r2 m2] ev2] eqn:Eu.
    rewrite (collect_metadata_file docker now_iso format m txt Eb r2 m2 ev2 Eu) in H.
    injection H as -> -> _.
    apply bind_ret_inv in Eu as (v & m1 & ev1 & H1 & ev3 & H2).
    destruct (JsonFacts.load_text_ok txt v (json_load_ret txt v m m1 ev1 H1)) as [Hok Hd].
    exact (dict_update_ok _ _ _ _ _ _ H2 Hok Hd).
  - destruct (collect_metadata_frame docker now_iso format m m eq_refl) as [r [ev0 [E _]]].
    assert (Hr : collect_metadata docker now_iso format m
                 = (Raise IsADirectoryError, m, [Out "Collecting metadata..."%string;
                                                 Cmd ps_argv; Cmd volume_ls_argv])).
    { unfold bootstrap_file in Eb.
      assert (Hx : exists_b m [".bootstrap_metadata.json"%string] = true)
        by (eapply ImportFacts.exists_b_lookup; exact Eb).
      eapply runs_ev; [collect_prefix; rewrite Hx; apply bind_raise; unfold read_file;
                       rewrite Eb; reflexivity | reflexivity]. }
    rewrite Hr in H. discriminate H.
  - rewrite collect_metadata_absent in H by exact Eb. injection H as <- _ _.
    exists []. split; [reflexivity | intros kv []].
Qed.

(** C8, as the code behaves: the metadata [export_environment] writes as
    [manifest.json] reads back with [json.loads] as the same dict, every
    key and value kept in its place, NaN and infinities included, whenever
    all its keys are strings (the bootstrap file is absent, holds an
    object, or holds pairs whose keys are strings) and the [repr] of each
    of its floats reads back as that float. *)
Theorem manifest_roundtrip docker now_iso format m md m' ev :
  collect_metadata docker now_iso format m = (Ret md, m', ev) ->
  (forall kv, In kv md -> exists s, fst kv = KStr s) ->
  forallb reads_back (floats (PDict md)) = true ->
  loads (dumps (PDict md)) = Some (PDict md).
Proof.
  intros H Hs Hf.
  destruct (collect_metadata_meta docker now_iso format m md m' ev H) as [kvs [-> Hk]].
  destruct (base_metadata_ok docker now_iso format) as [Hbd Hbv].
  destruct (dict_set_all_ok _ kvs Hbd Hbv Hk) as [Hd Hm].
  apply JsonFacts.loads_dumps.
  - rewrite JsonFacts.json_ok_floats, Hf, andb_true_r, JsonFacts.json_ok_dict.
    rewrite (kd_str_keys _ Hd (fun kv Hin => proj1 (Hm kv Hin)) Hs). cbn [andb].
    apply forallb_forall. intros kv Hin. exact (proj1 (proj2 (Hm kv Hin))).
  - pose proof (JsonFacts.depth_dict_bound 0 991 (dict_set_all (base_metadata docker now_iso format) kvs)
                  ltac:(lia)) as Hb.
    apply Hb. intros kv Hin. destruct (Hm kv Hin) as [_ [_ Hd']]. unfold max_depth in Hd'. lia.
Qed.

Lemma manifest_roundtrip_witness :
  exists md m' ev,
    collect_metadata Sample.docker_one_volume "2025-01-01T12:00:00" "full"
      (Sample.fs_bootstrap Sample.bootstrap_dict) = (Ret md, m', ev)
    /\ (forall kv, In kv md -> exists s, fst kv = KStr s)
    /\ forallb reads_back (floats (PDict md)) = true
    /\ loads (dumps (PDict md)) = Some (PDict md).
Proof.
  do 3 eexists.
  assert (H1 : collect_metadata Sample.docker_one_volume "2025-01-01T12:00:00" "full"
                 (Sample.fs_bootstrap Sample.bootstrap_dict) = (Ret _, _, _))
    by (vm_compute; reflexivity).
  assert (H2 : forall kv, In kv (dict_set_all (base_metadata Sample.docker_one_volume
                 "2025-01-01T12:00:00" "full") [(KStr (lit "environment"), PStr (lit "private"));
                 (KStr (lit "services"), PList [PStr (lit "ollama"); PInt 3; PFloat nan_bits;
                   PFloat (inf_bits false); PFloat 4591870180066957722])])
               -> exists s, fst kv = KStr s).
  { intros kv Hin. vm_compute in Hin.
    repeat (destruct Hin as [<-|Hin]; [eexists; reflexivity|]). destruct Hin. }
  refine (conj H1 (conj H2 (conj _ (manifest_roundtrip _ _ _ _ _ _ _ H1 H2 _))));
    vm_compute; reflexivity.
Defined.

(** C8, refuted: a bootstrap file holding [[[1, "x"]]] is merged with
    [dict.update] as the [int] key [1]; [json.dump] writes it as the string
    ["1"], so the manifest read back has the key ["1"] and not [1]. *)
Lemma manifest_int_key_not_preserved :
  let '(r, _, _) := collect_metadata Sample.docker_one_volume "2025-01-01T12:00:00" "full"
                      (Sample.fs_bootstrap Sample.bootstrap_pairs) in
  match r with
  | Ret md =>
      dict_get md (KInt 1) = Some (PStr (lit "x"))
      /\ match loads (dumps (PDict md)) with
         | Some (PDict md2) =>
             dict_get md2 (KInt 1) = None /\ dict_get md2 (KStr (lit "1")) = Some (PStr (lit "x"))
         | _ => False
         end
  | Raise _ => False
  end.
Proof. vm_compute. repeat split. Qed.

(** ** A volume helper that times out *)

Lemma export_docker_volume_timeout docker cwd_abs volume_tgz partial_tgz v dir m :
  300 < duration (docker (export_argv cwd_abs v dir)) ->
  export_docker_volume docker cwd_abs volume_tgz partial_tgz v dir m
  = (Raise TimeoutExpired, leave_partial partial_tgz v dir m,
     [Out ("  Exporting volume: " ++ v)%string; Cmd (export_argv cwd_abs v dir)]).
Proof.
  intros H. unfold export_docker_volume, run_export_helper, run, bind, print.
  cbv beta iota zeta. apply Nat.ltb_lt in H. rewrite H. reflexivity.
Qed.

Lemma export_docker_volume_in_time docker cwd_abs volume_tgz partial_tgz v dir m :
  duration (docker (export_argv cwd_abs v dir)) <= 300 ->
  exists b m' ev, export_docker_volume docker cwd_abs volume_tgz partial_tgz v dir m = (Ret b, m', ev).
Proof.
  intros H. apply Nat.ltb_ge in H.
  unfold export_docker_volume, run_export_helper, run, bind, print.
  cbv beta iota zeta. rewrite H.
  destruct (Z.eqb (returncode (docker (export_argv cwd_abs v dir))) 0) eqn:E;
    cbv beta iota zeta; rewrite ?E; do 3 eexists; reflexivity.
Qed.

Lemma last_cmds_app ev1 ev2 c :
  last (cmds ev2) [] = c -> cmds ev2 <> [] -> last (cmds (ev1 ++ ev2)) [] = c.
Proof.
  intros H Hne. unfold cmds in *. rewrite flat_map_app.
  destruct (exists_last Hne) as [l [x Ex]]. rewrite Ex in H |- *.
  rewrite app_assoc, last_last. rewrite last_last in H. exact H.
Qed.

(** A loop over [pre ++ v :: post] whose body returns on [pre] and raises
    on [v] raises with the events of [v] last. *)
Lemma for_raises_at {A} (f : A -> M unit) pre v post e ev_v m :
  (forall w, In w pre -> forall m, exists m' ev, f w m = (Ret tt, m', ev)) ->
  (forall m, exists m', f v m = (Raise e, m', ev_v)) ->
  exists m' ev0, for_ (pre ++ v :: post) f m = (Raise e, m', ev0 ++ ev_v).
Proof.
  revert m. induction pre as [|w pre IH]; intros m Hpre Hv.
  - destruct (Hv m) as [m' Hm]. exists m', []. cbn. unfold bind. rewrite Hm. reflexivity.
  - destruct (Hpre w (or_introl eq_refl) m) as [m1 [ev1 Hw]].
    destruct (IH m1 (fun w' Hin => Hpre w' (or_intror Hin)) Hv) as [m2 [ev0 Hr]].
    exists m2, (ev1 ++ ev0). cbn [app for_]. unfold bind at 1. rewrite Hw.
    change (for_ (pre ++ v :: post) f) with (for_ (pre ++ v :: post) f).
    rewrite Hr. rewrite app_assoc. reflexivity.
Qed.

(** C7: when the helper exporting a volume [v] outlives its 300 s timeout,
    the [TimeoutExpired] it raises is not caught: [export_volumes] raises it,
    and the helper of [v] is the last command started, so no volume listed
    after [v] is exported. *)
Theorem export_volume_timeout_propagates docker cwd_abs volume_tgz partial_tgz export_dir m m1
    (pre : list string) (v : string) (post : list string) :
  mkdir (export_dir ++ ["volumes"%string]) m = (Ret tt, m1, []) ->
  listed_volumes docker = pre ++ v :: post ->
  (forall w, In w pre ->
     duration (docker (export_argv cwd_abs w (export_dir ++ ["volumes"%string]))) <= 300) ->
  300 < duration (docker (export_argv cwd_abs v (export_dir ++ ["volumes"%string]))) ->
  let '(r, _, ev) := export_volumes docker cwd_abs volume_tgz partial_tgz export_dir m in
  r = Raise TimeoutExpired
  /\ last (cmds ev) [] = export_argv cwd_abs v (export_dir ++ ["volumes"%string]).
Proof.
  intros Hmk Hls Hpre Hv.
  set (vdir := export_dir ++ ["volumes"%string]) in *.
  destruct (for_raises_at
              (fun volume => _ <- export_docker_volume docker cwd_abs volume_tgz partial_tgz volume vdir ;; ret tt)
              pre v post TimeoutExpired
              [Out ("  Exporting volume: " ++ v)%string; Cmd (export_argv cwd_abs v vdir)] m1)
    as [m' [ev0 Hf]].
  - intros w Hw m0.
    destruct (export_docker_volume_in_time docker cwd_abs volume_tgz partial_tgz w vdir m0 (Hpre w Hw))
      as [b [m2 [ev Hb]]].
    exists m2, (ev ++ []). unfold bind at 1. rewrite Hb. reflexivity.
  - intros m0. exists (leave_partial partial_tgz v vdir m0).
    unfold bind at 1. rewrite export_docker_volume_timeout by exact Hv. reflexivity.
  - assert (E : export_volumes docker cwd_abs volume_tgz partial_tgz export_dir m
                = (Raise TimeoutExpired, m',
                   [Out "Exporting Docker volumes..."%string] ++ ([] ++ ([Cmd volume_ls_argv]
                     ++ (ev0 ++ [Out ("  Exporting volume: " ++ v)%string;
                                 Cmd (export_argv cwd_abs v vdir)]))))).
    { unfold export_volumes. eapply bind_runs; [reflexivity|].
      eapply bind_runs; [exact Hmk|].
      eapply bind_runs; [apply get_docker_volumes_run|].
      cbv beta. rewrite Hls. exact Hf. }
    rewrite E. split; [reflexivity|].
    rewrite !app_assoc. apply last_cmds_app; [reflexivity | discriminate].
Qed.

Lemma export_volume_timeout_propagates_witness :
  let '(r, _, ev) := export_volumes Sample.docker_a_slow Sample.cwd Sample.volume_tgz
                       Sample.no_partial Sample.export_dir_nightly Sample.fs_nightly in
  r = Raise TimeoutExpired
  /\ last (cmds ev) [] = export_argv Sample.cwd "localai_a"
                           (Sample.export_dir_nightly ++ ["volumes"%string]).
Proof.
  refine (export_volume_timeout_propagates Sample.docker_a_slow Sample.cwd Sample.volume_tgz
            Sample.no_partial Sample.export_dir_nightly Sample.fs_nightly
            (Sample.fs_nightly ++ [(Sample.export_dir_nightly ++ ["volumes"%string], DirN)])
            [] "localai_a" ["localai_b"%string] _ _ _ _).
  - vm_compute. reflexivity.
  - vm_compute. reflexivity.
  - intros w [].
  - vm_compute. lia.
Defined.

(** The whole export of the two volumes above, the first one timing out:
    the export raises, writes no archive and no checksum, leaves its
    directory [backups/nightly] behind, and never starts the helper of the
    second volume. *)
Lemma export_timeout_leaves_no_archive :
  let '(r, m', ev) :=
    export_environment Sample.docker_a_slow "20250101_120000" "2025-01-01T12:00:00"
      Sample.cwd Sample.volume_tgz Sample.tar_gz Sample.sha256_hex Sample.size_mb
      Sample.no_partial (Some "nightly"%string) "full" Sample.fs_backups in
  r = Raise TimeoutExpired
  /\ fs_lookup m' ["backups"; "nightly.tar.gz"]%string = None
  /\ fs_lookup m' ["backups"; "nightly.tar.gz.sha256"]%string = None
  /\ is_dir_b m' Sample.export_dir_nightly = true
  /\ cmds ev = [ps_argv; volume_ls_argv; volume_ls_argv;
                export_argv Sample.cwd "localai_a" (Sample.export_dir_nightly ++ ["volumes"%string])].
Proof. vm_compute. repeat split; reflexivity. Qed.

(** ** Helpers that fail or succeed in time *)




(** ** Entries and lookups *)








Lemma fs_lookup_rm_rf m p q :
  fs_lookup (fs_rm_rf m p) q = if is_prefix p q then None else fs_lookup m q.
Proof.
  unfold fs_rm_rf. induction m as [|[q' n] m IH]; cbn.
  - destruct (is_prefix p q); reflexivity.
  - destruct (is_prefix p q') eqn:E1; cbn.
    + rewrite IH. destruct (path_eqb q q') eqn:E2; [|reflexivity].
      apply path_eqb_eq in E2. subst. rewrite E1. reflexivity.
    + destruct (path_eqb q q') eqn:E2; [|exact IH].
      apply path_eqb_eq in E2. subst. rewrite E1. reflexivity.
Qed.










Lemma string_length_app s t : String.length (s ++ t) = String.length s + String.length t.
Proof. induction s as [|c s IH]; cbn; [reflexivity|]. rewrite IH. reflexivity. Qed.

Lemma string_append_assoc (s t u : string) : (s ++ (t ++ u))%string = ((s ++ t) ++ u)%string.
Proof. induction s as [|c s IH]; [reflexivity|]. cbn. rewrite IH. reflexivity. Qed.

Lemma string_app_neq s t : t <> EmptyString -> s <> (s ++ t)%string.
Proof.
  intros Ht E. apply (f_equal String.length) in E. rewrite string_length_app in E.
  destruct t; [contradiction|]. cbn in E. lia.
Qed.





(** ** The tar members of a directory *)




(** ** Steps of a run *)




Lemma write_file_ret p d m u m1 ev : write_file p d m = (Ret u, m1, ev) -> m1 = fs_put m p (FileN d).
Proof.
  unfold write_file. destruct (is_dir_b m p); [discriminate|].
  destruct (is_dir_b m (parent p)); [|discriminate]. intros H. injection H as _ <- _. reflexivity.
Qed.

Lemma read_file_ret p m d m1 ev : read_file p m = (Ret d, m1, ev) -> m1 = m /\ fs_lookup m p = Some (FileN d).
Proof.
  unfold read_file. destruct (fs_lookup m p) as [[x|]|]; try discriminate.
  intros H. injection H as <- <- _. auto.
Qed.


Lemma tar_create_ret tar_gz archive dir arcname m u m1 ev :
  tar_create tar_gz archive dir arcname m = (Ret u, m1, ev) ->
  m1 = fs_put m archive (FileN (tar_gz (tar_members m dir arcname))).
Proof.
  unfold tar_create. destruct (is_dir_b m archive); [discriminate|].
  destruct (negb (is_dir_b m (parent archive))); [discriminate|].
  destruct (negb (exists_b m dir)); [discriminate|].
  intros H. injection H as _ <- _. reflexivity.
Qed.

Lemma print_ret msg m u m1 ev : print msg m = (Ret u, m1, ev) -> m1 = m.
Proof. intros H. injection H as _ <- _. reflexivity. Qed.


Lemma rm_rf_ret p m u m1 ev : rm_rf p m = (Ret u, m1, ev) -> m1 = fs_rm_rf m p.
Proof. intros H. injection H as _ <- _. reflexivity. Qed.

Ltac peel H Hs m1 :=
  let a := fresh "a" in let e1 := fresh "ev" in let e2 := fresh "ev" in
  apply bind_ret_inv in H as (a & m1 & e1 & Hs & e2 & H); cbv beta zeta in H.

(** ** What [copy_configs] touches *)

Section Pres.
Variable Inv : fsmap -> Prop.






(** An invariant kept by every write below [c]. *)
Variable c : path.
Hypothesis Hput : forall m t n, is_prefix c t = true -> Inv m -> Inv (fs_put m t n).



End Pres.


(** ** Runs of [copy_configs] *)











(** ** [LocalAICLI()]: [backups] made sure to exist *)

Lemma mkdir_backups m :
  (forall d, fs_lookup m backup_dir <> Some (FileN d)) ->
  mkdir backup_dir m = (Ret tt, CliMore.with_backups m, []).
Proof.
  intros Hbk. unfold mkdir, CliMore.with_backups.
  destruct (is_dir_b m backup_dir) eqn:E; [reflexivity|].
  unfold exists_b. unfold is_dir_b in E. unfold backup_dir in *.
  destruct (fs_lookup m ["backups"%string]) as [[d|]|] eqn:L;
    [exfalso; exact (Hbk d eq_refl) | discriminate E | reflexivity].
Qed.

Lemma with_backups_lookup m q : q <> backup_dir -> fs_lookup (CliMore.with_backups m) q = fs_lookup m q.
Proof.
  intros H. unfold CliMore.with_backups. destruct (is_dir_b m backup_dir); [reflexivity|].
  apply fs_lookup_put_other. exact H.
Qed.










End ExportFacts.

(* ================================================================== *)
(** * More properties of the commands *)

Module MoreFacts.
Import Json Cli CliProps CliMore JsonFacts CliFacts ExportFacts.


Lemma las_app (s t : string) :
  list_ascii_of_string (s ++ t) = list_ascii_of_string s ++ list_ascii_of_string t.
Proof. induction s as [|c s IH]; cbn; [reflexivity | rewrite IH; reflexivity]. Qed.

Lemma split_char_no_sep sep a rest cur :
  forallb (fun c => negb (Ascii.eqb c sep)) a = true ->
  split_char_acc sep (a ++ sep :: rest) cur = (rev cur ++ a) :: split_char_acc sep rest [].
Proof.
  revert cur; induction a as [|c a IH]; intros cur H; cbn in *.
  - rewrite Ascii.eqb_refl, app_nil_r. reflexivity.
  - apply andb_true_iff in H as [Hc H]. apply negb_true_iff in Hc. rewrite Hc, IH by exact H.
    cbn. rewrite <- app_assoc. reflexivity.
Qed.

Lemma split_char_last sep a cur :
  forallb (fun c => negb (Ascii.eqb c sep)) a = true ->
  split_char_acc sep a cur = [rev cur ++ a].
Proof.
  revert cur; induction a as [|c a IH]; intros cur H; cbn in *.
  - rewrite app_nil_r. reflexivity.
  - apply andb_true_iff in H as [Hc H]. apply negb_true_iff in Hc. rewrite Hc, IH by exact H.
    cbn. rewrite <- app_assoc. reflexivity.
Qed.

Lemma nl_isspace : py_isspace ch_nl = true.
Proof. reflexivity. Qed.

Lemma no_ws_no_nl a :
  forallb (fun c => negb (py_isspace c)) a = true ->
  forallb (fun c => negb (Ascii.eqb c ch_nl)) a = true.
Proof.
  induction a as [|c a IH]; cbn; [reflexivity|].
  intros H. apply andb_true_iff in H as [Hc H]. rewrite IH by exact H.
  destruct (Ascii.eqb_spec c ch_nl) as [->|]; [discriminate|reflexivity].
Qed.

Lemma name_lines_ascii names :
  list_ascii_of_string (name_lines names)
  = flat_map (fun n => list_ascii_of_string n ++ [ch_nl]) names.
Proof.
  induction names as [|n names IH]; [reflexivity|].
  cbn [name_lines flat_map]. rewrite las_app. cbn. rewrite IH, <- app_assoc. reflexivity.
Qed.

Lemma drop_ws_rev_nonws l t :
  forallb (fun c => negb (py_isspace c)) l = true -> l <> [] -> drop_ws (rev l ++ t) = rev l ++ t.
Proof.
  intros H Hne. destruct (rev l) as [|x r] eqn:E.
  - apply (f_equal (@rev ascii)) in E. rewrite rev_involutive in E. cbn in E. congruence.
  - cbn. assert (Hx : In x l) by (apply in_rev; rewrite E; left; reflexivity).
    rewrite forallb_forall in H. specialize (H x Hx). apply negb_true_iff in H. rewrite H. reflexivity.
Qed.

Lemma split_lines init (b : list ascii) :
  Forall (fun n => no_ws n = true) init ->
  forallb (fun c => negb (Ascii.eqb c ch_nl)) b = true ->
  split_char_acc ch_nl (flat_map (fun n => list_ascii_of_string n ++ [ch_nl]) init ++ b) []
  = map list_ascii_of_string init ++ [b].
Proof.
  induction init as [|n init IH]; intros Hi Hb; cbn [flat_map map app].
  - rewrite split_char_last by exact Hb. reflexivity.
  - inversion Hi as [|? ? Hn Hi']; subst.
    rewrite <- !app_assoc. cbn [app]. rewrite split_char_no_sep by (apply no_ws_no_nl; exact Hn).
    rewrite IH by assumption. reflexivity.
Qed.

Lemma drop_ws_nonws c r : py_isspace c = false -> drop_ws (c :: r) = c :: r.
Proof. intros H. cbn. rewrite H. reflexivity. Qed.

Lemma good_name_ascii n :
  n <> EmptyString -> no_ws n = true ->
  exists c r, list_ascii_of_string n = c :: r /\ py_isspace c = false
              /\ forallb (fun c => negb (py_isspace c)) (c :: r) = true.
Proof.
  intros Hne Hw. unfold no_ws in Hw. destruct n as [|c s]; [congruence|].
  cbn in Hw |- *. exists c, (list_ascii_of_string s). split; [reflexivity|].
  apply andb_true_iff in Hw as [Hc Hw]. apply negb_true_iff in Hc.
  split; [exact Hc|]. rewrite Hc, Hw. reflexivity.
Qed.


Lemma parse_names_lines (names : list string) :
  Forall (fun n => n <> EmptyString /\ no_ws n = true) names ->
  parse_names (name_lines names) = names.
Proof.
  intros Hn. destruct names as [|n0 names0] eqn:En; [reflexivity|].
  rewrite <- En in *. assert (Hne : names <> []) by (subst; discriminate). clear En.
  destruct (exists_last Hne) as (init & last & ->).
  unfold parse_names, py_strip, py_split_char. rewrite name_lines_ascii.
  rewrite flat_map_app. cbn [flat_map]. rewrite app_nil_r.
  apply Forall_app in Hn as [Hi Hl]. inversion Hl as [|? ? [Hle Hlw] _]; subst.
  destruct (good_name_ascii last Hle Hlw) as (c & r & Elast & Hc & Hall).
  set (A := flat_map (fun n => list_ascii_of_string n ++ [ch_nl]) init).
  assert (Hfront : drop_ws (A ++ list_ascii_of_string last ++ [ch_nl])
                   = A ++ list_ascii_of_string last ++ [ch_nl]).
  { unfold A. destruct init as [|n1 init].
    - cbn [flat_map app]. rewrite Elast. apply drop_ws_nonws, Hc.
    - inversion Hi as [|? ? [H1e H1w] _]; subst.
      destruct (good_name_ascii n1 H1e H1w) as (c1 & r1 & E1 & Hc1 & _).
      cbn [flat_map]. rewrite E1. cbn [app]. apply drop_ws_nonws, Hc1. }
  rewrite Hfront. clear Hfront.
  rewrite rev_app_distr, (rev_app_distr (list_ascii_of_string last)). cbn [rev app].
  cbn [drop_ws]. rewrite nl_isspace.
  rewrite drop_ws_rev_nonws by (rewrite Elast; first [exact Hall | discriminate]).
  rewrite rev_app_distr, !rev_involutive, list_ascii_of_string_of_list_ascii.
  unfold A. rewrite split_lines.
  - rewrite map_app, map_map. cbn [map]. rewrite string_of_list_ascii_of_string.
    rewrite (map_ext _ (fun x => x) string_of_list_ascii_of_string), map_id.
    rewrite filter_app. cbn [filter].
    replace (negb (String.eqb last EmptyString)) with true
      by (destruct (String.eqb_spec last EmptyString); [congruence | reflexivity]).
    f_equal. apply forallb_filter_id. apply forallb_forall.
    intros x Hx. rewrite Forall_forall in Hi. destruct (Hi x Hx) as [Hxe _].
    destruct (String.eqb_spec x EmptyString); [congruence | reflexivity].
  - rewrite Forall_forall in Hi |- *. intros x Hx. apply Hi, Hx.
  - rewrite Elast. apply no_ws_no_nl, Hall.
Qed.


Lemma replace_no_dot (a rest : list ascii) fuel :
  forallb (fun c => negb (Ascii.eqb c ".")) a = true -> length a < fuel ->
  replace_acc fuel (a ++ "."%char :: rest) ("."%char :: rest) [] = a.
Proof.
  revert fuel; induction a as [|c a IH]; intros fuel Ha Hf; destruct fuel as [|f]; cbn in Hf; try lia.
  - cbn [app replace_acc]. cbn [strip_prefix]. rewrite Ascii.eqb_refl.
    assert (E : forall r, strip_prefix r r = Some []).
    { induction r as [|x r IHr]; cbn; [reflexivity | rewrite Ascii.eqb_refl; exact IHr]. }
    rewrite E. cbn. destruct f; reflexivity.
  - cbn in Ha. apply andb_true_iff in Ha as [Hc Ha]. apply negb_true_iff in Hc.
    cbn [app replace_acc strip_prefix]. rewrite Ascii.eqb_sym, Hc.
    rewrite IH by (assumption || lia). reflexivity.
Qed.

Lemma nth_no_dot (a : list ascii) b i :
  forallb (fun c => negb (Ascii.eqb c ".")) a = true -> i < length a ->
  Ascii.eqb (nth i (a ++ b) " "%char) "."%char = false.
Proof.
  intros Ha Hi. rewrite app_nth1 by exact Hi.
  rewrite forallb_forall in Ha. apply negb_true_iff, Ha, nth_In, Hi.
Qed.

Lemma filter_none {A} (f : A -> bool) l : (forall x, In x l -> f x = false) -> filter f l = [].
Proof.
  induction l as [|x l IH]; intros H; cbn; [reflexivity|].
  rewrite H by (left; reflexivity). apply IH. intros y Hy. apply H. right. exact Hy.
Qed.

Lemma py_stem_tar_gz (v : string) :
  no_dot v = true -> py_stem (v ++ ".tar.gz") = (v ++ ".tar")%string.
Proof.
  intros Hv. unfold py_stem, no_dot in *. rewrite las_app.
  set (a := list_ascii_of_string v) in *.
  cbn [list_ascii_of_string].
  set (b := ["."; "t"; "a"; "r"; "."; "g"; "z"]%char).
  replace (length (a ++ b)) with (length a + 7) by (rewrite length_app; reflexivity).
  rewrite seq_app, filter_app.
  replace (filter _ (seq 0 (length a))) with (@nil nat).
  2:{ symmetry. apply filter_none.
      intros i Hi. apply in_seq in Hi. apply nth_no_dot; [exact Hv | lia]. }
  replace (seq (0 + length a) 7)
    with [length a + 0; length a + 1; length a + 2; length a + 3; length a + 4;
          length a + 5; length a + 6] by (cbn; repeat f_equal; lia).
  cbn [filter]. rewrite !app_nth2_plus. cbn [nth b Ascii.eqb Bool.eqb andb filter rev app].
  replace (0 <? length a + 4) with true by (symmetry; apply Nat.ltb_lt; lia).
  replace (length a + 4 <? length a + 7 - 1) with true by (symmetry; apply Nat.ltb_lt; lia).
  cbn [andb]. rewrite firstn_app, firstn_all2 by lia.
  replace (length a + 4 - length a) with 4 by lia. cbn.
  unfold a. clear. induction v as [|c v IH]; cbn; [reflexivity | rewrite IH; reflexivity].
Qed.

(** Volume names round-trip between export and import: the archive
    [export_docker_volume] writes for a volume [v] without a dot is named
    [<v>.tar.gz], and [import_environment] recovers [v] from that name with
    [volume_backup.stem.replace(".tar", "")], whatever directory holds it. *)
Theorem volume_name_of_tar_gz (dir : path) (v : string) :
  no_dot v = true -> volume_name_of (dir ++ [(v ++ ".tar.gz")%string]) = v.
Proof.
  intros Hv. unfold volume_name_of, basename. rewrite last_last.
  rewrite py_stem_tar_gz by exact Hv. unfold py_replace. rewrite las_app. cbn [list_ascii_of_string].
  rewrite replace_no_dot by (exact Hv || (rewrite length_app; cbn; lia)).
  apply string_of_list_ascii_of_string.
Qed.


Lemma export_ret_state docker now_stamp now_iso cwd_abs volume_tgz tar_gz sha256_hex size_mb partial_tgz
    (output : option string) (format : string) (m : fsmap) (archive : path) (m' : fsmap)
    (ev : list event) :
  export_environment docker now_stamp now_iso cwd_abs volume_tgz tar_gz sha256_hex size_mb
    partial_tgz output format m = (Ret archive, m', ev) ->
  let name := export_name now_stamp output in
  let dir := backup_dir ++ [name] in
  archive = backup_dir ++ [(name ++ ".tar.gz")%string]
  /\ exists m8,
       let data := tar_gz (tar_members m8 dir name) in
       m' = fs_rm_rf (fs_put (fs_put m8 archive (FileN data))
                             (backup_dir ++ [(name ++ ".tar.gz.sha256")%string])
                             (FileN (sha256_hex data ++ "  " ++ name ++ ".tar.gz" ++ nl_str)))
                     dir.
Proof.
  intros H name dir.
  unfold export_environment in H. cbv zeta in H. fold name in H. fold dir in H.
  peel H H1 m1. peel H H2 m2. peel H H3 m3. peel H H4 m4. peel H H5 m5. peel H H6 m6.
  peel H H7 m7. peel H H8 m8. peel H H9 m9. apply tar_create_ret in H9. subst m9.
  peel H H10 m10. apply print_ret in H10. subst m10.
  peel H H11 m11. apply read_file_ret in H11 as [-> Hdata].
  rewrite fs_lookup_put_same in Hdata. injection Hdata as <-.
  peel H H12 m12. apply write_file_ret in H12. subst m12.
  peel H H13 m13. apply rm_rf_ret in H13. subst m13.
  peel H H14 m14. apply print_ret in H14. subst m14.
  peel H H15 m15. apply print_ret in H15. subst m15.
  peel H H16 m16. apply print_ret in H16. subst m16.
  peel H H17 m17. apply print_ret in H17. subst m17.
  injection H as <- <- _.
  split; [reflexivity|]. exists m8. reflexivity.
Qed.

Lemma split_ws_nonws a s cur :
  forallb (fun c => negb (py_isspace c)) a = true ->
  split_ws_acc (a ++ s) cur = split_ws_acc s (rev a ++ cur).
Proof.
  revert cur; induction a as [|c a IH]; intros cur H; [reflexivity|].
  cbn in H. apply andb_true_iff in H as [Hc H]. apply negb_true_iff in Hc.
  cbn [app split_ws_acc]. rewrite Hc, IH by exact H. cbn. rewrite <- app_assoc. reflexivity.
Qed.

Lemma py_split_ws_word (h t : string) :
  h <> EmptyString -> no_ws h = true ->
  exists rest, py_split_ws (h ++ " " ++ t) = h :: rest.
Proof.
  intros Hne Hw. unfold py_split_ws. rewrite las_app. cbn [list_ascii_of_string].
  rewrite split_ws_nonws by exact Hw. rewrite app_nil_r.
  destruct (rev (list_ascii_of_string h)) as [|x xs] eqn:E.
  - destruct h; [congruence|]. cbn in E. destruct (rev (list_ascii_of_string h)); discriminate.
  - cbn [split_ws_acc]. replace (py_isspace " "%char) with true by reflexivity.
    assert (E2 : rev (x :: xs) = list_ascii_of_string h) by (rewrite <- E; apply rev_involutive).
    change (list_ascii_of_string (" " ++ t)) with (" "%char :: list_ascii_of_string t).
    cbn [split_ws_acc]. replace (py_isspace " "%char) with true by reflexivity.
    eexists. cbn [map]. rewrite E2, string_of_list_ascii_of_string. reflexivity.
Qed.

Lemma verify_match sha256_hex (backup_file : path) (m : fsmap) (data txt : string)
    (rest : list string) :
  fs_lookup m backup_file = Some (FileN data) ->
  fs_lookup m (sidecar_of backup_file) = Some (FileN txt) ->
  py_split_ws txt = sha256_hex data :: rest ->
  verify_checksum sha256_hex backup_file m
  = (Ret true, m, [Out "Verifying checksum..."; Out "Checksum verified"]).
Proof.
  intros Hb Hs Ht.
  eapply runs_ev.
  { unfold verify_checksum.
    eapply bind_runs; [reflexivity|]. cbv beta. rewrite (ImportFacts.exists_b_lookup _ _ _ Hs).
    eapply bind_runs; [reflexivity|]. cbv beta.
    eapply bind_runs; [unfold read_file; rewrite Hs; reflexivity|]. cbv beta.
    eapply bind_runs; [rewrite Ht; reflexivity|]. cbv beta.
    eapply bind_runs; [unfold read_file; rewrite Hb; reflexivity|]. cbv beta.
    rewrite String.eqb_refl. eapply bind_runs; reflexivity. }
  reflexivity.
Qed.

Lemma not_prefix_sibling (name s : string) :
  s <> EmptyString ->
  is_prefix (backup_dir ++ [name]) (backup_dir ++ [(name ++ s)%string]) = false.
Proof.
  intros Hs. unfold backup_dir. cbn [app is_prefix]. rewrite String.eqb_refl. cbn [andb is_prefix].
  destruct (String.eqb_spec name (name ++ s)) as [E|]; [|reflexivity].
  exfalso. exact (string_app_neq name s Hs E).
Qed.

(** An archive produced by a successful [export_environment] passes
    [import_environment]'s checksum check in the resulting working
    directory, for any digest function whose digests are non-empty and
    contain no whitespace. *)
Theorem export_archive_passes_checksum docker now_stamp now_iso cwd_abs volume_tgz tar_gz
    sha256_hex size_mb partial_tgz (output : option string) (format : string) (m : fsmap)
    (archive : path) (m' : fsmap) (ev : list event) :
  (forall d, sha256_hex d <> EmptyString /\ no_ws (sha256_hex d) = true) ->
  export_environment docker now_stamp now_iso cwd_abs volume_tgz tar_gz sha256_hex size_mb
    partial_tgz output format m = (Ret archive, m', ev) ->
  verify_checksum sha256_hex archive m'
  = (Ret true, m', [Out "Verifying checksum..."; Out "Checksum verified"]).
Proof.
  intros Hsha H. apply export_ret_state in H as [-> [m8 ->]].
  set (name := export_name now_stamp output).
  set (data := tar_gz (tar_members m8 (backup_dir ++ [name]) name)).
  destruct (Hsha data) as [Hne Hw].
  destruct (py_split_ws_word (sha256_hex data) (" " ++ name ++ ".tar.gz" ++ nl_str) Hne Hw)
    as [rest Hsplit].
  eapply verify_match with (rest := rest).
  - rewrite fs_lookup_rm_rf, not_prefix_sibling by discriminate.
    rewrite fs_lookup_put_other, fs_lookup_put_same; [reflexivity|].
    unfold backup_dir. cbn [app]. intros E. injection E as E.
    exact (string_app_neq (name ++ ".tar.gz") ".sha256" ltac:(discriminate)
             (eq_trans E (string_append_assoc name ".tar.gz" ".sha256"))).
  - replace (sidecar_of (backup_dir ++ [(name ++ ".tar.gz")%string]))
      with (backup_dir ++ [(name ++ ".tar.gz.sha256")%string]).
    2:{ unfold sidecar_of, basename, backup_dir. cbn [app removelast last].
        rewrite <- string_append_assoc. reflexivity. }
    rewrite fs_lookup_rm_rf, not_prefix_sibling by discriminate.
    rewrite fs_lookup_put_same. reflexivity.
  - exact Hsplit.
Qed.




Lemma import_missing_run docker cwd_abs untar sha256_hex listdir (backup_file : path)
    (skip_volumes : bool) (m : fsmap) :
  backup_file <> [] -> fs_lookup m backup_file = None ->
  import_environment docker cwd_abs untar sha256_hex listdir backup_file skip_volumes m
  = (Ret false, m, header_events "Importing Local AI Package"
                     ++ [Out ("Backup file not found: " ++ render backup_file)]).
Proof.
  intros Hne Hl.
  eapply runs_ev.
  { unfold import_environment.
    eapply bind_runs; [reflexivity|]. cbv beta.
    eapply bind_runs; [reflexivity|]. cbv beta.
    replace (exists_b m backup_file) with false
      by (unfold exists_b; destruct backup_file; [contradiction | rewrite Hl; reflexivity]).
    cbv [negb]. eapply bind_runs; reflexivity. }
  reflexivity.
Qed.


(** When the backup file cannot be read as a gzip tar archive and no
    sidecar exists, [import_environment] raises [ReadError] from
    [tarfile.open], leaving behind the freshly created
    [backups/restore_temp] directory. *)
Theorem import_unreadable_archive docker cwd_abs untar sha256_hex listdir (backup_file : path)
    (skip_volumes : bool) (m : fsmap) (data : string) :
  fs_lookup m backup_file = Some (FileN data) ->
  fs_lookup m (sidecar_of backup_file) = None ->
  untar data = None ->
  is_dir_b m backup_dir = true ->
  fs_lookup m restore_temp = None ->
  import_environment docker cwd_abs untar sha256_hex listdir backup_file skip_volumes m
  = (Raise ReadError, fs_put m restore_temp DirN,
     header_events "Importing Local AI Package" ++ [Out "Extracting backup archive..."]).
Proof.
  intros Hb Hs Hu Hd Hr.
  assert (Hb' : fs_lookup (fs_put m restore_temp DirN) backup_file = Some (FileN data)).
  { rewrite fs_lookup_put_other; [exact Hb|]. intros ->. rewrite Hr in Hb. discriminate. }
  eapply runs_ev.
  { unfold import_environment.
    eapply bind_runs; [reflexivity|]. cbv beta.
    eapply bind_runs; [reflexivity|]. cbv beta. rewrite (ImportFacts.exists_b_lookup _ _ _ Hb).
    cbv [negb].
    eapply bind_runs.
    { unfold verify_checksum. eapply bind_runs; [reflexivity|]. cbv beta.
      assert (He : exists_b m (sidecar_of backup_file) = false).
      { unfold sidecar_of in *. destruct (removelast backup_file) as [|y q]; cbn [app] in *;
          unfold exists_b; rewrite Hs; reflexivity. }
      rewrite He. reflexivity. }
    cbv beta.
    eapply bind_runs; [reflexivity|]. cbv beta.
    eapply bind_runs.
    { unfold mkdir. unfold is_dir_b at 1, exists_b at 1. unfold restore_temp at 1 2.
      cbn [app]. fold restore_temp. rewrite Hr. cbn iota beta.
      replace (parent restore_temp) with backup_dir by reflexivity. rewrite Hd. reflexivity. }
    cbv beta. apply bind_raise.
    unfold extract_archive. eapply bind_runs; [unfold read_file; rewrite Hb'; reflexivity|].
    cbv beta. rewrite Hu. reflexivity. }
  unfold header_events. repeat rewrite <- app_assoc. reflexivity.
Qed.




Lemma run_tool_run docker installed argv prog rest m :
  argv = prog :: rest -> installed prog = true ->
  run_tool docker installed argv m = (Ret (docker argv), m, [Cmd argv]).
Proof. intros -> H. unfold run_tool. rewrite H. reflexivity. Qed.










Lemma univ_nl_nl rest : univ_nl (ch_nl :: rest) = ch_nl :: univ_nl rest.
Proof. reflexivity. Qed.


























Lemma str_key k0 s : is_str_key k0 = true -> key_eqb (KStr s) k0 = true -> k0 = KStr s.
Proof.
  destruct k0; try discriminate. intros _ H. cbn in H. apply ustr_eqb_eq in H. congruence.
Qed.

Lemma dict_get_set_str d k v s :
  dict_get (dict_set d (KStr k) v) (KStr s)
  = if ustr_eqb s k then Some v else dict_get d (KStr s).
Proof.
  induction d as [|[k0 v0] d IH]; cbn [dict_set dict_get].
  - cbn [key_eqb]. reflexivity.
  - destruct (key_eqb (KStr k) k0) eqn:E.
    + cbn [dict_get]. destruct k0; try discriminate. cbn [key_eqb] in *.
      apply ustr_eqb_eq in E. subst. destruct (ustr_eqb s _); reflexivity.
    + cbn [dict_get]. rewrite IH.
      destruct (ustr_eqb s k) eqn:Hs; [|reflexivity].
      apply ustr_eqb_eq in Hs. subst s. rewrite E. reflexivity.
Qed.

Lemma dict_get_fresh kvs k :
  forallb (fun kv => negb (key_eqb k (fst kv))) kvs = true -> dict_get kvs k = None.
Proof.
  induction kvs as [|[k0 v0] kvs IH]; cbn; [reflexivity|].
  intros H. apply andb_true_iff in H as [H1 H2]. apply negb_true_iff in H1.
  rewrite H1. exact (IH H2).
Qed.

Lemma dict_set_all_get kvs : forall d s,
  str_keys_distinct kvs = true ->
  dict_get (dict_set_all d kvs) (KStr s)
  = match dict_get kvs (KStr s) with Some v => Some v | None => dict_get d (KStr s) end.
Proof.
  unfold dict_set_all.
  induction kvs as [|[k0 v0] kvs IH]; intros d s H; [reflexivity|].
  cbn [str_keys_distinct] in H. apply andb_true_iff in H as [H Hr].
  apply andb_true_iff in H as [Hk Hf].
  destruct k0 as [| | | |k]; try discriminate. cbn [fold_left fst snd].
  rewrite IH by exact Hr. cbn [dict_get key_eqb].
  destruct (ustr_eqb s k) eqn:Hs.
  - apply ustr_eqb_eq in Hs. subst s.
    rewrite dict_get_fresh by exact Hf. rewrite dict_get_set_str.
    replace (ustr_eqb k k) with true by (symmetry; apply ustr_eqb_eq; reflexivity). reflexivity.
  - rewrite dict_get_set_str, Hs. reflexivity.
Qed.

(** [metadata.update(bootstrap_meta)] in [export_environment]: when
    [.bootstrap_metadata.json] holds a text that [json.load] reads as a
    JSON object (any object: floats, [NaN], escapes and nesting within
    [json]'s limits included), the metadata maps every key of that object
    to the object's value (overriding [version], [timestamp], [format],
    [containers] and [volumes] when it names them) and keeps the collected
    value of every other key; the working directory is unchanged. *)
Theorem collect_metadata_bootstrap docker now_iso format (m : fsmap) (txt : string)
    (kvs : list (pykey * pyval)) :
  fs_lookup m bootstrap_file = Some (FileN txt) -> load_text txt = Some (PDict kvs) ->
  exists md ev,
    collect_metadata docker now_iso format m = (Ret md, m, ev)
    /\ forall k, dict_get md (KStr k)
                 = match dict_get kvs (KStr k) with
                   | Some v => Some v
                   | None => dict_get (base_metadata docker now_iso format) (KStr k)
                   end.
Proof.
  intros Eb El.
  assert (Hd : str_keys_distinct kvs = true).
  { apply load_text_ok in El as [El _]. rewrite json_ok_dict in El.
    apply andb_true_iff in El as [El _]. exact El. }
  assert (Hex : exists_b m [".bootstrap_metadata.json"%string] = true)
    by (eapply ImportFacts.exists_b_lookup; exact Eb).
  exists (dict_set_all (base_metadata docker now_iso format) kvs). eexists. split.
  - collect_prefix. rewrite Hex.
    eapply bind_runs; [unfold read_file; unfold bootstrap_file in Eb; rewrite Eb; reflexivity|]. cbv beta.
    eapply bind_runs; [rewrite (ImportFacts.json_load_text _ _ El); reflexivity|]. reflexivity.
  - intros k. apply dict_set_all_get. exact Hd.
Qed.



(** When [backups] is a regular file, every command given to [main]
    fails with [FileExistsError] in [LocalAICLI()] before printing or
    running anything, and nothing is changed. *)
Theorem cli_backups_is_file docker installed help_text now_stamp now_iso cwd_abs volume_tgz
    tar_gz untar sha256_hex size_mb listdir partial_tgz script_effect (a : args) (m : fsmap) (d : string) :
  a <> ArgsNone -> fs_lookup m backup_dir = Some (FileN d) ->
  cli_main docker installed help_text now_stamp now_iso cwd_abs volume_tgz tar_gz untar
    sha256_hex size_mb listdir partial_tgz script_effect a m = (Raise FileExistsError, m, []).
Proof.
  intros Ha Hb.
  assert (Hm : mkdir backup_dir m = (Raise FileExistsError, m, [])).
  { assert (H1 : is_dir_b m backup_dir = false) by (unfold is_dir_b, backup_dir in *; rewrite Hb; reflexivity).
    assert (H2 : exists_b m backup_dir = true) by (unfold exists_b, backup_dir in *; rewrite Hb; reflexivity).
    unfold mkdir. rewrite H1, H2. reflexivity. }
  destruct a; [congruence| ..]; cbn [cli_main]; apply bind_raise; exact Hm.
Qed.




Lemma run_script_run docker installed script_effect argv prog rest m :
  argv = prog :: rest -> installed prog = true ->
  run_script docker installed script_effect argv m
  = (Ret (docker argv), script_effect argv m, [Cmd argv]).
Proof. intros Ha Hp. unfold run_script. rewrite (run_tool_run docker installed argv prog rest m Ha Hp). reflexivity. Qed.

(** The [encrypt], [setup-gitea] and [sync-infisical] commands of
    [main] exit with 0 whatever the script they run returns. The working
    directory they leave is what the script makes of it, after
    [LocalAICLI()] has created [backups] when it was missing. *)
Theorem cli_scripts_exit_zero docker installed help_text now_stamp now_iso cwd_abs volume_tgz
    tar_gz untar sha256_hex size_mb listdir partial_tgz script_effect (a : args)
    (argv : list string) (m : fsmap) :
  (a = ArgsEncrypt /\ argv = ["python"; "scripts/encrypt_secrets.py"]%string
   \/ a = ArgsSetupGitea /\ argv = ["python"; "scripts/gitea_setup.py"]%string
   \/ exists push pull, a = ArgsSync push pull /\ argv = sync_argv push pull) ->
  installed "python"%string = true -> (forall d, fs_lookup m backup_dir <> Some (FileN d)) ->
  exists ev,
    cli_main docker installed help_text now_stamp now_iso cwd_abs volume_tgz tar_gz untar
      sha256_hex size_mb listdir partial_tgz script_effect a m
    = (Ret None, script_effect argv (with_backups m), ev).
Proof.
  intros Ha Hp Hb.
  destruct Ha as [[-> ->] | [[-> ->] | (push & pull & -> & ->)]]; cbn [cli_main]; eexists.
  - eapply bind_runs; [exact (mkdir_backups m Hb)|]. cbv beta.
    eapply bind_runs; [reflexivity|]. cbv beta.
    eapply bind_runs; [eapply run_script_run; [reflexivity | exact Hp]|]. reflexivity.
  - eapply bind_runs; [exact (mkdir_backups m Hb)|]. cbv beta.
    eapply bind_runs; [reflexivity|]. cbv beta.
    eapply bind_runs; [eapply run_script_run; [reflexivity | exact Hp]|]. reflexivity.
  - eapply bind_runs; [exact (mkdir_backups m Hb)|]. cbv beta.
    eapply bind_runs; [eapply run_script_run; [reflexivity | exact Hp]|]. reflexivity.
Qed.

(** The [import] command of [main] with a backup file that does not
    exist (and is not [backups] itself) prints the header and "Backup
    file not found" and exits with 0; the only change to the working
    directory is the [backups] directory [LocalAICLI()] creates when it is
    missing. *)
Theorem cli_import_missing docker installed help_text now_stamp now_iso cwd_abs volume_tgz
    tar_gz untar sha256_hex size_mb listdir partial_tgz script_effect (backup_file : path)
    (skip_volumes : bool) (m : fsmap) :
  (forall d, fs_lookup m backup_dir <> Some (FileN d)) ->
  backup_file <> [] -> backup_file <> backup_dir -> fs_lookup m backup_file = None ->
  cli_main docker installed help_text now_stamp now_iso cwd_abs volume_tgz tar_gz untar
    sha256_hex size_mb listdir partial_tgz script_effect (ArgsImport backup_file skip_volumes) m
  = (Ret None, with_backups m, header_events "Importing Local AI Package"
                    ++ [Out ("Backup file not found: " ++ render backup_file)]).
Proof.
  intros Hb Hne Hbd Hl. cbn [cli_main].
  assert (Hl' : fs_lookup (with_backups m) backup_file = None)
    by (rewrite with_backups_lookup by exact Hbd; exact Hl).
  eapply runs_ev.
  { eapply bind_runs; [exact (mkdir_backups m Hb)|]. cbv beta.
    eapply bind_runs; [exact (import_missing_run docker cwd_abs untar sha256_hex listdir
                                backup_file skip_volumes (with_backups m) Hne Hl')|]. reflexivity. }
  rewrite app_nil_r. reflexivity.
Qed.

Lemma names_ok_Forall (names : list string) :
  forallb (fun n => negb (String.eqb n EmptyString) && no_ws n) names = true ->
  Forall (fun n => n <> EmptyString /\ no_ws n = true) names.
Proof.
  intros H. apply Forall_forall. intros n Hn. rewrite forallb_forall in H.
  specialize (H n Hn). apply andb_true_iff in H as [H1 H2]. split; [|exact H2].
  intros ->. discriminate H1.
Qed.

(** Listing round trip of [get_docker_volumes]: when [docker volume ls]
    exits with 0 and prints one non-empty name without whitespace per
    line, the method returns exactly those names, in order, runs only
    that command and changes nothing. *)
Theorem get_docker_volumes_names docker (m : fsmap) (names : list string) :
  returncode (docker volume_ls_argv) = 0%Z ->
  stdout (docker volume_ls_argv) = name_lines names ->
  forallb (fun n => negb (String.eqb n EmptyString) && no_ws n) names = true ->
  get_docker_volumes docker m = (Ret names, m, [Cmd volume_ls_argv]).
Proof.
  intros Hrc Hout Hn. rewrite get_docker_volumes_run. unfold listed_volumes. cbv zeta.
  rewrite Hrc, Hout. cbn [Z.eqb]. rewrite parse_names_lines; [reflexivity|].
  apply names_ok_Forall. exact Hn.
Qed.

(** Listing round trip of [get_running_containers]: when [docker ps]
    exits with 0 and prints one non-empty name without whitespace per
    line, the method returns exactly those names, in order, runs only
    that command and changes nothing. *)
Theorem get_running_containers_names docker (m : fsmap) (names : list string) :
  returncode (docker ps_argv) = 0%Z ->
  stdout (docker ps_argv) = name_lines names ->
  forallb (fun n => negb (String.eqb n EmptyString) && no_ws n) names = true ->
  get_running_containers docker m = (Ret names, m, [Cmd ps_argv]).
Proof.
  intros Hrc Hout Hn. rewrite get_running_containers_run. unfold listed_containers. cbv zeta.
  rewrite Hrc, Hout. cbn [Z.eqb]. rewrite parse_names_lines; [reflexivity|].
  apply names_ok_Forall. exact Hn.
Qed.


(** [import_environment] with a backup file that does not exist prints
    the header and "Backup file not found", returns [False] and changes
    nothing. *)
Theorem import_missing_backup docker cwd_abs untar sha256_hex listdir (backup_file : path)
    (skip_volumes : bool) (m : fsmap) :
  backup_file <> [] -> fs_lookup m backup_file = None ->
  import_environment docker cwd_abs untar sha256_hex listdir backup_file skip_volumes m
  = (Ret false, m, header_events "Importing Local AI Package"
                     ++ [Out ("Backup file not found: " ++ render backup_file)]).
Proof. apply import_missing_run. Qed.



(** ** Witnesses *)

Lemma get_docker_volumes_names_witness :
  get_docker_volumes (Sample.docker_rc0 (name_lines ["localai_data"; "localai_n8n"]%string)) []
  = (Ret ["localai_data"; "localai_n8n"]%string, [], [Cmd volume_ls_argv]).
Proof. apply get_docker_volumes_names; vm_compute; reflexivity. Defined.

Lemma get_running_containers_names_witness :
  get_running_containers (Sample.docker_rc0 (name_lines ["localai-n8n-1"]%string)) []
  = (Ret ["localai-n8n-1"]%string, [], [Cmd ps_argv]).
Proof. apply get_running_containers_names; vm_compute; reflexivity. Defined.

Lemma volume_name_of_tar_gz_witness :
  volume_name_of ((Sample.root_a ++ ["volumes"%string]) ++ [("localai_data" ++ ".tar.gz")%string])
  = "localai_data"%string.
Proof. apply volume_name_of_tar_gz. vm_compute. reflexivity. Defined.

Lemma export_archive_passes_checksum_witness :
  exists archive m' ev,
    export_environment Sample.docker_one_volume "20250101_120000" "2025-01-01T12:00:00"
      Sample.cwd Sample.volume_tgz Sample.tar_gz (fun _ => "e3b0c442"%string) Sample.size_mb
      Sample.no_partial (Some "nightly"%string) "full" Sample.fs_backups = (Ret archive, m', ev)
    /\ verify_checksum (fun _ => "e3b0c442"%string) archive m'
       = (Ret true, m', [Out "Verifying checksum..."; Out "Checksum verified"]).
Proof.
  do 3 eexists.
  match goal with |- ?L = ?R /\ _ => assert (E : L = R) by (vm_compute; reflexivity) end.
  split; [exact E|].
  eapply export_archive_passes_checksum; [|exact E].
  intros d. split; [discriminate | reflexivity].
Defined.


Lemma import_missing_backup_witness :
  import_environment Sample.docker_a_fails Sample.cwd Sample.untar Sample.sha256_hex
    Sample.listdir Sample.archive_path false Sample.fs_backups
  = (Ret false, Sample.fs_backups,
     header_events "Importing Local AI Package"
       ++ [Out ("Backup file not found: " ++ render Sample.archive_path)]).
Proof. apply import_missing_backup; [discriminate | vm_compute; reflexivity]. Defined.


Lemma import_unreadable_archive_witness :
  import_environment Sample.docker_a_fails Sample.cwd Sample.untar Sample.sha256_hex
    Sample.listdir Sample.archive_path false Sample.fs_garbage_archive
  = (Raise ReadError, fs_put Sample.fs_garbage_archive restore_temp DirN,
     header_events "Importing Local AI Package" ++ [Out "Extracting backup archive..."]).
Proof.
  eapply import_unreadable_archive with (data := "not a tar"%string); vm_compute; reflexivity.
Defined.




Lemma collect_metadata_bootstrap_witness :
  let kvs := [(KStr (lit "environment"), PStr (lit "private"));
              (KStr [233; 128512]%Z, PList [PFloat nan_bits; PFloat (inf_bits true);
                                            PFloat 4591870180066957722%Z]);
              (KStr (lit "volumes"), PList [])] in
  exists md ev,
    collect_metadata Sample.docker_one_volume "2025-01-01T12:00:00" "full"
      (Sample.fs_bootstrap (PDict kvs))
    = (Ret md, Sample.fs_bootstrap (PDict kvs), ev)
    /\ forall k, dict_get md (KStr k)
                 = match dict_get kvs (KStr k) with
                   | Some v => Some v
                   | None => dict_get (base_metadata Sample.docker_one_volume
                                         "2025-01-01T12:00:00" "full") (KStr k)
                   end.
Proof.
  intros kvs.
  apply collect_metadata_bootstrap with (txt := string_of_bytes (dumps (PDict kvs)));
    vm_compute; reflexivity.
Defined.

Lemma cli_backups_is_file_witness :
  cli_main Sample.docker_one_volume (fun _ => true) "usage" "20250101_120000"
    "2025-01-01T12:00:00" Sample.cwd Sample.volume_tgz Sample.tar_gz Sample.untar
    Sample.sha256_hex Sample.size_mb Sample.listdir Sample.no_partial (fun _ m => m) ArgsValidate [(backup_dir, FileN "x"%string)]
  = (Raise FileExistsError, [(backup_dir, FileN "x"%string)], []).
Proof. eapply cli_backups_is_file; [discriminate | vm_compute; reflexivity]. Defined.



Lemma cli_scripts_exit_zero_witness :
  let effect := fun (argv : list string) (m : fsmap) =>
                  fs_put m [".infisical.json"%string] (FileN (String.concat " " argv)) in
  exists ev,
    cli_main (fun _ => Sample.done 2 EmptyString "sync failed") (fun _ => true) "usage"
      "20250101_120000" "2025-01-01T12:00:00" Sample.cwd Sample.volume_tgz Sample.tar_gz
      Sample.untar Sample.sha256_hex Sample.size_mb Sample.listdir Sample.no_partial effect
      (ArgsSync true false) []
    = (Ret None, effect (sync_argv true false) (with_backups []), ev).
Proof.
  intros effect. apply cli_scripts_exit_zero.
  - right. right. exists true, false. split; reflexivity.
  - reflexivity.
  - intros d. vm_compute. discriminate.
Defined.

Lemma cli_import_missing_witness :
  cli_main Sample.docker_a_fails (fun _ => true) "usage" "20250101_120000"
    "2025-01-01T12:00:00" Sample.cwd Sample.volume_tgz Sample.tar_gz Sample.untar
    Sample.sha256_hex Sample.size_mb Sample.listdir Sample.no_partial (fun _ m => m)
    (ArgsImport Sample.archive_path false) []
  = (Ret None, with_backups [],
     header_events "Importing Local AI Package"
       ++ [Out ("Backup file not found: " ++ render Sample.archive_path)]).
Proof.
  apply cli_import_missing;
    [intros d; vm_compute; discriminate | discriminate | vm_compute; discriminate | reflexivity].
Defined.

End MoreFacts.
